(** * Section management of the Steve mosaic tool (steve/sections.py)

  A shallow embedding of the classes [SectionSpinBox], [SectionControls],
  [Section], [SectionRenderer], [SectionsView] and [Sections], followed by
  the properties of the section collection, of the mosaic file line and of
  the background composite.

  Conventions of the embedding.
  - A Python [int] is a [Z]; a Python [float] is the rational it denotes
    ([Q]); the non-finite floats are outside the model.
  - A [QDoubleSpinBox] keeps its value rounded to [decimals()] places (two,
    the Qt default, which the source never changes) and bounded by its
    minimum and maximum.  The model stores the three numbers in hundredths.
  - Section objects live in a store ([heap]); the list [sections] and the
    attribute [active_section] hold references into it, so that a selection
    made through [active_section] is seen through the list, as in Python.
  - A method that can raise returns an [outcome] that carries the state at
    the moment of the exception.
  - Qt signals are direct connections: the slot runs inside the emitting
    call.  The widgets' layout, the graphics scene and the pixel position of
    the ellipse are presentation state that no modelled method reads. *)

From Stdlib Require Import ZArith QArith Qround String Ascii Lia.
From Stdlib Require Import DecimalString DecimalPos DecimalN DecimalFacts.
From stdpp Require Import base list.

Local Open Scope Z_scope.

(** ** Python builtins *)

Module Py.

Inductive exn : Set :=
| AttributeError   (* attribute access on [False] *)
| IndexError       (* list index out of range *)
| ValueError       (* [float()] of a malformed string, shape mismatch *)
| ZeroDivisionError
| DanglingReference. (* a reference outside the store; never arises *)

(** [l[i]] for a Python list: negative indices count from the end. *)
Definition index {A} (l : list A) (i : Z) : option A :=
  let n := Z.of_nat (length l) in
  if (0 <=? i) && (i <? n) then l !! Z.to_nat i
  else if (- n <=? i) && (i <? 0) then l !! Z.to_nat (n + i)
  else None.

(** [del l[i]]. *)
Definition del {A} (l : list A) (i : Z) : option (list A) :=
  let n := Z.of_nat (length l) in
  if (0 <=? i) && (i <? n) then Some (delete (Z.to_nat i) l)
  else if (- n <=? i) && (i <? 0) then Some (delete (Z.to_nat (n + i)) l)
  else None.

(** [str(n)] for an [int]. *)
Definition str_int (n : Z) : string :=
  NilZero.string_of_int (Z.to_int n).

(** Round to the nearest integer, ties to the even one. *)
Definition round_half_even (q : Q) : Z :=
  let f := Qfloor q in
  match (q - inject_Z f ?= 1 # 2)%Q with
  | Lt => f
  | Gt => f + 1
  | Eq => if Z.even f then f else f + 1
  end.

Definition digit_char (d : Z) : ascii :=
  ascii_of_nat (48 + Z.to_nat d).

(** The digits after the point of a number of hundredths: one digit when
    the second would be a zero. *)
Definition str_frac (r : Z) : string :=
  String (digit_char (r / 10))
    (if r mod 10 =? 0 then EmptyString
     else String (digit_char (r mod 10)) EmptyString).

(** The decimal notation of [k / 100]. *)
Definition str_centi (k : Z) : string :=
  ((if (k <? 0)%Z then "-" else "")
     ++ NilZero.string_of_uint (N.to_uint (Z.to_N (Z.abs k / 100)%Z))
     ++ "." ++ str_frac (Z.abs k mod 100)%Z)%string.

(** [str(x)] for a [float] read from a spin box.  Python 2 prints a float
    with twelve significant digits, drops the trailing zeros and keeps at
    least one digit after the point.  The floats printed by the source are
    spin box values: multiples of 1/100 of magnitude at most 10^6, which
    twelve digits print exactly.  The definition is that rule; it is not
    meant for other arguments. *)
Definition str_float (x : Q) : string :=
  str_centi (round_half_even (x * 100)).

(** [s.split(",")]. *)
Fixpoint split_comma (s : string) : list string :=
  match s with
  | EmptyString => [EmptyString]
  | String c s' =>
      if Ascii.eqb c "," then EmptyString :: split_comma s'
      else match split_comma s' with
           | f :: fs => String c f :: fs
           | [] => [String c EmptyString]
           end
  end.

(** Whitespace as [str.strip()] and [float()] see it. *)
Definition is_space (c : ascii) : bool :=
  let n := N_of_ascii c in
  (N.eqb n 32 || (N.leb 9 n && N.leb n 13))%bool.

Fixpoint lstrip (cs : list ascii) : list ascii :=
  match cs with
  | c :: cs' => if is_space c then lstrip cs' else cs
  | [] => []
  end.

Definition strip (cs : list ascii) : list ascii :=
  rev (lstrip (rev (lstrip cs))).

(** Cut a list of characters at the first point. *)
Fixpoint cut_point (cs : list ascii) : list ascii * option (list ascii) :=
  match cs with
  | [] => ([], None)
  | c :: cs' =>
      if Ascii.eqb c "." then ([], Some cs')
      else let '(a, b) := cut_point cs' in (c :: a, b)
  end.

Definition digits_value (cs : list ascii) : option N :=
  match NilEmpty.uint_of_string (string_of_list_ascii cs) with
  | Some u => Some (N.of_uint u)
  | None => None
  end.

(** An unsigned decimal literal: digits, optionally a point and digits,
    with a digit on at least one side. *)
Definition unsigned_literal (cs : list ascii) : option Q :=
  let '(ip, fp) := cut_point cs in
  let fp := default [] fp in
  match ip, fp with
  | [], [] => None
  | _, _ =>
      match digits_value ip, digits_value fp with
      | Some i, Some f =>
          let scale := 10 ^ Z.of_nat (length fp) in
          Some (Qmake (Z.of_N i * scale + Z.of_N f) (Z.to_pos scale))
      | _, _ => None
      end
  end.

(** [float(s)] on plain decimal literals: surrounding whitespace is
    dropped, a sign is accepted.  [None] stands for [ValueError].  Python
    also reads exponents and the names of the non-finite floats; methods
    that call [float] take the conversion as an argument, and this
    definition is the one used to read back what the source writes. *)
Definition float_of_str (s : string) : option Q :=
  match strip (list_ascii_of_string s) with
  | [] => None
  | c :: cs =>
      if Ascii.eqb c "-" then
        match unsigned_literal cs with Some q => Some (- q)%Q | None => None end
      else if Ascii.eqb c "+" then unsigned_literal cs
      else unsigned_literal (c :: cs)
  end.

End Py.

(** ** Qt: key codes and the double spin box *)

Module Qt.

Definition Key_Delete : Z := 0x01000007.
Definition Key_Up : Z := 0x01000013.
Definition Key_Down : Z := 0x01000015.
Definition Key_A : Z := 0x41.
Definition Key_D : Z := 0x44.
Definition Key_E : Z := 0x45.
Definition Key_P : Z := 0x50.
Definition Key_Q : Z := 0x51.
Definition Key_S : Z := 0x53.
Definition Key_U : Z := 0x55.
Definition Key_W : Z := 0x57.

(** [qBound(min, v, max)]. *)
Definition qBound (lo v hi : Z) : Z := Z.max lo (Z.min hi v).

End Qt.

(** ** coord.Point *)

Module coord.

(** Modelled from the spec: the module [coord] is not part of the sources at
    hand.  A [Point] is a physical position with a micrometre and a pixel
    representation and a fixed conversion factor; [Point(x, y, "um")] has
    [x_um = x] and [y_um = y], and [getUm()] returns the pair.  The pixel
    side is only used to place the ellipse and is left out. *)
Record Point : Set := mkPoint { x_um : Q; y_um : Q }.

Definition getUm (p : Point) : Q * Q := (x_um p, y_um p).

End coord.

(** ** SectionSpinBox *)

Module SectionSpinBox.

(** Minimum, maximum and value of the box, in hundredths. *)
Record t : Set := mk { lo : Z; hi : Z; val : Z }.

Definition minimum (b : t) : Q := lo b # 100.
Definition maximum (b : t) : Q := hi b # 100.
Definition value (b : t) : Q := val b # 100.

(** [QDoubleSpinBox.setValue]: round to two decimals, then bound. *)
Definition setValue (v : Q) (b : t) : t :=
  mk (lo b) (hi b) (Qt.qBound (lo b) (Py.round_half_even (v * 100)) (hi b)).

(** [__init__(min_value, max_value, cur_value, parent)]. *)
Definition init (min_value max_value cur_value : Q) : t :=
  setValue cur_value
    (mk (Py.round_half_even (min_value * 100))
        (Py.round_half_even (max_value * 100)) 0).

End SectionSpinBox.

(** ** SectionControls *)

Module SectionControls.

(** The attributes [angle], [position_step], [x_pos] and [y_pos] are
    written once by [__init__] and never read; they are left out. *)
Record t : Set := mk {
  angle_step : Q;
  selected : bool;
  check_box : bool;
  x_spin_box : SectionSpinBox.t;
  y_spin_box : SectionSpinBox.t;
  angle_spin_box : SectionSpinBox.t
}.

Definition init (x_pos y_pos angle : Q) : t :=
  {| angle_step := 1;
     selected := false;
     check_box := false;
     x_spin_box := SectionSpinBox.init (-(1000000)) 1000000 x_pos;
     y_spin_box := SectionSpinBox.init (-(1000000)) 1000000 y_pos;
     angle_spin_box := SectionSpinBox.init (-(180)) 180 angle |}.

Definition with_selected (b : bool) (c : t) : t :=
  mk (angle_step c) b (check_box c) (x_spin_box c) (y_spin_box c)
     (angle_spin_box c).

Definition with_check_box (b : bool) (c : t) : t :=
  mk (angle_step c) (selected c) b (x_spin_box c) (y_spin_box c)
     (angle_spin_box c).

Definition with_x_spin_box (b : SectionSpinBox.t) (c : t) : t :=
  mk (angle_step c) (selected c) (check_box c) b (y_spin_box c)
     (angle_spin_box c).

Definition with_y_spin_box (b : SectionSpinBox.t) (c : t) : t :=
  mk (angle_step c) (selected c) (check_box c) (x_spin_box c) b
     (angle_spin_box c).

Definition with_angle_spin_box (b : SectionSpinBox.t) (c : t) : t :=
  mk (angle_step c) (selected c) (check_box c) (x_spin_box c)
     (y_spin_box c) b.

Definition currentAngle (c : t) : Q :=
  SectionSpinBox.value (angle_spin_box c).

Definition currentLocation (c : t) : coord.Point :=
  coord.mkPoint (SectionSpinBox.value (x_spin_box c))
                (SectionSpinBox.value (y_spin_box c)).

Definition deselect (c : t) : t := with_selected false c.

Definition select (c : t) : t := with_selected true c.

Definition isChecked (c : t) : bool :=
  if check_box c then true else false.

Definition incrementAngle (direction : Q) (c : t) : t :=
  let box := angle_spin_box c in
  let cur_angle := SectionSpinBox.value box in
  if Qlt_le_dec 0 direction then
    let cur_angle := (cur_angle + angle_step c)%Q in
    if Qlt_le_dec (SectionSpinBox.maximum box) cur_angle then
      let diff := (cur_angle - SectionSpinBox.maximum box)%Q in
      with_angle_spin_box
        (SectionSpinBox.setValue (SectionSpinBox.minimum box + diff)%Q box) c
    else
      with_angle_spin_box (SectionSpinBox.setValue cur_angle box) c
  else
    let cur_angle := (cur_angle - angle_step c)%Q in
    if Qlt_le_dec cur_angle (SectionSpinBox.minimum box) then
      let diff := (SectionSpinBox.minimum box - cur_angle)%Q in
      with_angle_spin_box
        (SectionSpinBox.setValue (SectionSpinBox.maximum box - diff)%Q box) c
    else
      with_angle_spin_box (SectionSpinBox.setValue cur_angle box) c.

Definition incrementX (direction : Q) (c : t) : t :=
  with_x_spin_box
    (SectionSpinBox.setValue
       (SectionSpinBox.value (x_spin_box c) + direction)%Q (x_spin_box c)) c.

Definition incrementY (direction : Q) (c : t) : t :=
  with_y_spin_box
    (SectionSpinBox.setValue
       (SectionSpinBox.value (y_spin_box c) + direction)%Q (y_spin_box c)) c.

End SectionControls.

(** ** SceneEllipseItem *)

Module SceneEllipseItem.

Inductive Pen : Set := deselected_pen | selected_pen.

Record t : Set := mk { pen : Pen; zValue : Z }.

(** [__init__(x_size, y_size, pen, brush)]. *)
Definition init (p : Pen) : t := mk p 999.

End SceneEllipseItem.

(** ** Section *)

Module Section.

Record t : Set := mk {
  section_number : Z;
  controls : SectionControls.t;
  scene_ellipse_item : SceneEllipseItem.t
}.

Definition init (section_number : Z) (x_pos y_pos angle : Q) : t :=
  {| section_number := section_number;
     controls := SectionControls.init x_pos y_pos angle;
     scene_ellipse_item :=
       SceneEllipseItem.init SceneEllipseItem.selected_pen |}.

Definition with_controls (c : SectionControls.t) (s : t) : t :=
  mk (section_number s) c (scene_ellipse_item s).

Definition selected (s : t) : bool := SectionControls.selected (controls s).

Definition deselect (s : t) : t :=
  mk (section_number s)
     (SectionControls.deselect (controls s))
     (SceneEllipseItem.mk SceneEllipseItem.deselected_pen 999).

Definition getAngle (s : t) : Q := SectionControls.currentAngle (controls s).

Definition getLocation (s : t) : coord.Point :=
  SectionControls.currentLocation (controls s).

Definition getSectionNumber (s : t) : Z := section_number s.

Definition incrementAngle (direction : Q) (s : t) : t :=
  with_controls (SectionControls.incrementAngle direction (controls s)) s.

Definition incrementX (direction : Q) (s : t) : t :=
  with_controls (SectionControls.incrementX direction (controls s)) s.

Definition incrementY (direction : Q) (s : t) : t :=
  with_controls (SectionControls.incrementY direction (controls s)) s.

Definition isChecked (s : t) : bool := SectionControls.isChecked (controls s).

(** The line is appended to the file, here the text written so far. *)
Definition mosaic_line (s : t) : string :=
  let number := getSectionNumber s in
  let a_point := getLocation s in
  let angle := getAngle s in
  let '(x_um, y_um) := coord.getUm a_point in
  ("section,"
     ++ String.concat ","
          [Py.str_int number; Py.str_float x_um; Py.str_float y_um;
           Py.str_float angle]
     ++ String "013" (String "010" EmptyString))%string.

Definition saveToMosaicFile (s : t) (filep : string) : string :=
  (filep ++ mosaic_line s)%string.

Definition select (s : t) : t :=
  mk (section_number s)
     (SectionControls.select (controls s))
     (SceneEllipseItem.mk SceneEllipseItem.selected_pen 1999).

Definition setSectionNumber (number : Z) (s : t) : t :=
  mk number (controls s) (scene_ellipse_item s).

End Section.

(** ** SectionRenderer *)

Module SectionRenderer.

(** What [renderSectionNumpy] returns: the pixels of the grabbed image as
    an array of floats (height x width x 4 bytes, flattened), or [False]
    when the image has no buffer. *)
Inductive numpy_result : Set :=
| ndarray (a : list Z)
| PyFalse.

(** What [renderSectionPixmap] returns: the viewport grabbed with the view
    centred on a point and rotated by an angle. *)
Record QPixmap : Set := grabWidget { center : coord.Point; rotation : Q }.

End SectionRenderer.

(** ** SectionsView *)

Module SectionsView.

(** A pixmap attribute: [None] at construction, then whatever the setter
    was given, [False] included. *)
Inductive slot (A : Type) : Type :=
| PyNone
| PyFalse
| Pixmap (p : A).
Arguments PyNone {A}.
Arguments PyFalse {A}.
Arguments Pixmap {A} p.

(** The truth value that [paintEvent] tests before drawing. *)
Definition truth {A} (s : slot A) : bool :=
  match s with Pixmap _ => true | _ => false end.

End SectionsView.

(** ** Sections *)

Module Sections.

Import SectionRenderer.

(** A reference to a Section object: its position in the store. *)
Abbreviation ref := nat (only parsing).

Record t : Type := mk {
  heap : list Section.t;            (* the Section objects, by reference *)
  sections : list ref;              (* self.sections *)
  active_section : option ref;      (* self.active_section; None is False *)
  background_pixmap : SectionsView.slot (list Z);
  foreground_pixmap : SectionsView.slot QPixmap;
  renderer : nat -> numpy_result;   (* result of the n-th numpy render *)
  render_calls : nat;               (* numpy renders made so far *)
  numpy_files : list (string * numpy_result);  (* numpy.save *)
  stdout : list string              (* print *)
}.

(** [__init__]: no section, nothing active, no pixmap. *)
Definition init (renderer : nat -> numpy_result) : t :=
  {| heap := []; sections := []; active_section := None;
     background_pixmap := SectionsView.PyNone;
     foreground_pixmap := SectionsView.PyNone;
     renderer := renderer; render_calls := 0;
     numpy_files := []; stdout := [] |}.

Definition with_heap (h : list Section.t) (st : t) : t :=
  mk h (sections st) (active_section st) (background_pixmap st)
     (foreground_pixmap st) (renderer st) (render_calls st)
     (numpy_files st) (stdout st).

Definition with_sections (l : list ref) (st : t) : t :=
  mk (heap st) l (active_section st) (background_pixmap st)
     (foreground_pixmap st) (renderer st) (render_calls st)
     (numpy_files st) (stdout st).

Definition with_active_section (a : option ref) (st : t) : t :=
  mk (heap st) (sections st) a (background_pixmap st)
     (foreground_pixmap st) (renderer st) (render_calls st)
     (numpy_files st) (stdout st).

Definition with_background_pixmap (p : SectionsView.slot (list Z)) (st : t)
  : t :=
  mk (heap st) (sections st) (active_section st) p
     (foreground_pixmap st) (renderer st) (render_calls st)
     (numpy_files st) (stdout st).

Definition with_foreground_pixmap (p : SectionsView.slot QPixmap) (st : t)
  : t :=
  mk (heap st) (sections st) (active_section st) (background_pixmap st)
     p (renderer st) (render_calls st) (numpy_files st) (stdout st).

Definition with_render_calls (n : nat) (st : t) : t :=
  mk (heap st) (sections st) (active_section st) (background_pixmap st)
     (foreground_pixmap st) (renderer st) n (numpy_files st) (stdout st).

Definition with_numpy_files (l : list (string * numpy_result)) (st : t) : t :=
  mk (heap st) (sections st) (active_section st) (background_pixmap st)
     (foreground_pixmap st) (renderer st) (render_calls st) l (stdout st).

Definition with_stdout (l : list string) (st : t) : t :=
  mk (heap st) (sections st) (active_section st) (background_pixmap st)
     (foreground_pixmap st) (renderer st) (render_calls st)
     (numpy_files st) l.

(** *** The monad of methods: state and exceptions *)

Inductive outcome (A : Type) : Type :=
| Done (a : A) (st : t)
| Raised (e : Py.exn) (st : t).
Arguments Done {A} a st.
Arguments Raised {A} e st.

Definition final {A} (o : outcome A) : t :=
  match o with Done _ st => st | Raised _ st => st end.

Definition M (A : Type) : Type := t -> outcome A.

#[global] Instance M_ret : MRet M := λ A a st, Done a st.

#[global] Instance M_bind : MBind M := λ A B f m st,
  match m st with
  | Done a st' => f a st'
  | Raised e st' => Raised e st'
  end.

Definition raise {A} (e : Py.exn) : M A := λ st, Raised e st.

Definition get : M t := λ st, Done st st.

Definition modify (f : t -> t) : M unit := λ st, Done tt (f st).

Definition lift {A} (e : Py.exn) (o : option A) : M A :=
  match o with Some a => mret a | None => raise e end.

(** Reading and writing a Section object through a reference. *)
Definition deref (r : ref) : M Section.t := λ st,
  lift Py.DanglingReference (heap st !! r) st.

(** A method call [obj.f()] that changes the object in place. *)
Definition update (r : ref) (f : Section.t -> Section.t) : M unit :=
  deref r;; modify (λ st, with_heap (alter f r (heap st)) st).

(** A new object gets the next reference. *)
Definition new (s : Section.t) : M ref := λ st,
  Done (length (heap st)) (with_heap (heap st ++ [s]) st).

(** *** Collaborators: renderer, view, numpy *)

(** [self.section_renderer.renderSectionNumpy(a_point, a_angle)].  Whether
    the image has a buffer is not decided by the arguments; the result of
    each call is read from [renderer]. *)
Definition renderSectionNumpy (a_point : coord.Point) (a_angle : Q)
  : M numpy_result := λ st,
  Done (renderer st (render_calls st))
       (with_render_calls (S (render_calls st)) st).

Definition renderSectionPixmap (a_point : coord.Point) (a_angle : Q)
  : M QPixmap :=
  mret (grabWidget a_point a_angle).

Definition setBackgroundPixmap (pixmap : SectionsView.slot (list Z))
  : M unit :=
  modify (with_background_pixmap pixmap).

Definition setForegroundPixmap (pixmap : SectionsView.slot QPixmap)
  : M unit :=
  modify (with_foreground_pixmap pixmap).

Definition print (line : string) : M unit :=
  modify (λ st, with_stdout (stdout st ++ [line]) st).

(** [a += temp] on an array: element by element for an array of the same
    shape, [False] counts as zero, another shape is an error. *)
Definition numpy_iadd (a : list Z) (temp : numpy_result)
  : option (list Z) :=
  match temp with
  | ndarray b =>
      if decide (length a = length b) then Some (zip_with Z.add a b)
      else None
  | PyFalse => Some a
  end.

(** [(a / counts).astype(numpy.uint8)]: the quotient is cut towards zero
    and kept on eight bits. *)
Definition astype_uint8 (v : Z) : Z := v mod 256.

Definition mean_uint8 (a : list Z) (counts : Z) : list Z :=
  (λ v, astype_uint8 (Z.quot v counts)) <$> a.

(** *** Methods *)

Definition handleActiveSectionUpdate (which_section : Z) : M unit :=
  st ← get;
  match active_section st with
  | Some active =>
      a ← deref active;
      if negb (Section.getSectionNumber a =? which_section) then
        update active Section.deselect;;
        st ← get;
        r ← lift Py.IndexError (Py.index (sections st) which_section);
        modify (with_active_section (Some r));;
        update r Section.select
      else mret tt
  | None =>
      r ← lift Py.IndexError (Py.index (sections st) which_section);
      modify (with_active_section (Some r));;
      update r Section.select
  end.

Definition addSection (a_point : coord.Point) (angle : Q) : M unit :=
  st ← get;
  a_section ← new (Section.init (Z.of_nat (length (sections st)))
                     (coord.x_um a_point) (coord.y_um a_point) angle);
  modify (λ st, with_sections (sections st ++ [a_section]) st);;
  st ← get;
  match active_section st with
  | None => handleActiveSectionUpdate 0
  | Some _ => mret tt
  end.

Fixpoint background_loop (l : list ref) (numpy_background : numpy_result)
    (counts : Z) : M (numpy_result * Z) :=
  match l with
  | [] => mret (numpy_background, counts)
  | section :: l' =>
      s ← deref section;
      if Section.isChecked s then
        temp ← renderSectionNumpy (Section.getLocation s)
                                  (Section.getAngle s);
        match numpy_background with
        | ndarray a =>
            a' ← lift Py.ValueError (numpy_iadd a temp);
            background_loop l' (ndarray a') (counts + 1)
        | PyFalse =>
            match temp with
            | ndarray _ => background_loop l' temp (counts + 1)
            | PyFalse =>
                print "updateBackgroundPixmap: conversion problem.";;
                background_loop l' numpy_background counts
            end
        end
      else background_loop l' numpy_background counts
  end.

Definition updateBackgroundPixmap : M unit :=
  st ← get;
  if (length (sections st) =? 0)%nat then mret tt
  else
    '(numpy_background, counts) ←
      background_loop (sections st) PyFalse 0;
    match numpy_background with
    | ndarray a =>
        setBackgroundPixmap (SectionsView.Pixmap (mean_uint8 a counts))
    | PyFalse => setBackgroundPixmap SectionsView.PyFalse
    end.

Definition updateForegroundPixmap : M unit :=
  st ← get;
  match active_section st with
  | None => mret tt
  | Some active =>
      a ← deref active;
      pixmap ← renderSectionPixmap (Section.getLocation a)
                                   (Section.getAngle a);
      setForegroundPixmap (SectionsView.Pixmap pixmap)
  end.

Definition viewUpdate : M unit :=
  updateBackgroundPixmap;; updateForegroundPixmap.

Definition handleSectionUpdate : M unit :=
  st ← get;
  match active_section st with
  | None => raise Py.AttributeError
  | Some active =>
      a ← deref active;
      (if Section.isChecked a then updateBackgroundPixmap else mret tt);;
      updateForegroundPixmap
  end.

(** The values shown by the three spin boxes of a section. *)
Definition spin_values (s : Section.t) : Z * Z * Z :=
  let c := Section.controls s in
  (SectionSpinBox.val (SectionControls.x_spin_box c),
   SectionSpinBox.val (SectionControls.y_spin_box c),
   SectionSpinBox.val (SectionControls.angle_spin_box c)).

(** [self.active_section.m(...)] for a method [m] that sets a spin box.
    On [False] the attribute lookup fails.  A box whose value changes emits
    [valueChanged], which [SectionControls] and [Section] pass on as
    [sectionChanged] to [handleSectionUpdate]. *)
Definition active_section_call (m : Section.t -> Section.t) : M unit :=
  st ← get;
  match active_section st with
  | None => raise Py.AttributeError
  | Some active =>
      a ← deref active;
      update active m;;
      if decide (spin_values (m a) = spin_values a) then mret tt
      else handleSectionUpdate
  end.

Definition incrementActiveSection (diff : Z) : M unit :=
  st ← get;
  match active_section st with
  | Some active =>
      a ← deref active;
      let n := Z.of_nat (length (sections st)) in
      if n =? 0 then raise Py.ZeroDivisionError
      else
        let next_section := (Section.getSectionNumber a + diff) mod n in
        handleActiveSectionUpdate next_section
  | None => mret tt
  end.

(** [float] stands for the builtin of that name. *)
Definition loadFromMosaicFileData (float : string -> option Q)
    (data : list string) (directory : string) : M bool :=
  d0 ← lift Py.IndexError (Py.index data 0);
  if String.eqb d0 "section" then
    d2 ← lift Py.IndexError (Py.index data 2);
    x ← lift Py.ValueError (float d2);
    d3 ← lift Py.IndexError (Py.index data 3);
    y ← lift Py.ValueError (float d3);
    d4 ← lift Py.IndexError (Py.index data 4);
    angle ← lift Py.ValueError (float d4);
    addSection (coord.mkPoint x y) angle;;
    mret true
  else mret false.

(** [for i, a_section in enumerate(self.sections)], from index [i]. *)
Fixpoint renumber (i : Z) (l : list ref) : M unit :=
  match l with
  | [] => mret tt
  | a_section :: l' =>
      update a_section (Section.setSectionNumber i);;
      renumber (i + 1) l'
  end.

Definition removeActiveSection : M unit :=
  st ← get;
  match active_section st with
  | None => raise Py.AttributeError
  | Some active =>
      a ← deref active;
      let which_section := Section.getSectionNumber a in
      sections' ← lift Py.IndexError (Py.del (sections st) which_section);
      modify (with_sections sections');;
      modify (with_active_section None);;
      renumber 0 sections';;
      if (0 <? length sections')%nat then
        if 0 <? which_section then
          handleActiveSectionUpdate (which_section - 1)
        else handleActiveSectionUpdate 0
      else mret tt
  end.

Fixpoint saveToMosaicFile_loop (l : list ref) (file_ptr : string)
  : M string :=
  match l with
  | [] => mret file_ptr
  | section :: l' =>
      s ← deref section;
      saveToMosaicFile_loop l' (Section.saveToMosaicFile s file_ptr)
  end.

Definition saveToMosaicFile (file_ptr filename : string) : M string :=
  st ← get; saveToMosaicFile_loop (sections st) file_ptr.

Fixpoint saveSectionsNumpy_loop (index : Z) (l : list ref) : M unit :=
  match l with
  | [] => mret tt
  | section :: l' =>
      s ← deref section;
      temp ← renderSectionNumpy (Section.getLocation s)
                                (Section.getAngle s);
      modify (λ st, with_numpy_files
                      (numpy_files st
                         ++ [(("section_" ++ Py.str_int index)%string, temp)])
                      st);;
      saveSectionsNumpy_loop (index + 1) l'
  end.

Definition saveSectionsNumpy : M unit :=
  st ← get; saveSectionsNumpy_loop 0 (sections st).

Definition handleKeyEvent (which_key : Z) : M unit :=
  if which_key =? Qt.Key_Up then incrementActiveSection (-1)
  else if which_key =? Qt.Key_Down then incrementActiveSection 1
  else if which_key =? Qt.Key_W then
    active_section_call (Section.incrementY (- (1 # 2)))
  else if which_key =? Qt.Key_S then
    active_section_call (Section.incrementY (1 # 2))
  else if which_key =? Qt.Key_A then
    active_section_call (Section.incrementX (- (1 # 2)))
  else if which_key =? Qt.Key_D then
    active_section_call (Section.incrementX (1 # 2))
  else if which_key =? Qt.Key_Q then
    active_section_call (Section.incrementAngle (- (1)))
  else if which_key =? Qt.Key_E then
    active_section_call (Section.incrementAngle 1)
  else if which_key =? Qt.Key_P then saveSectionsNumpy
  else if which_key =? Qt.Key_Delete then
    st ← get;
    match active_section st with
    | Some _ => removeActiveSection
    | None => mret tt
    end
  else if which_key =? Qt.Key_U then viewUpdate
  else mret tt.

(** *** Signals raised by the user on one section *)

(** The check box of a section is toggled: [stateChanged] is passed on as
    [sectionCheckBoxChange] to [updateBackgroundPixmap]. *)
Definition check_box_stateChanged (r : ref) : M unit :=
  update r (λ s,
    Section.with_controls
      (SectionControls.with_check_box
         (negb (SectionControls.check_box (Section.controls s)))
         (Section.controls s)) s);;
  updateBackgroundPixmap.

(** A control row is clicked: [sectionSelected] carries the number of the
    section to [handleActiveSectionUpdate]. *)
Definition controls_sectionSelected (r : ref) : M unit :=
  s ← deref r; handleActiveSectionUpdate (Section.getSectionNumber s).

End Sections.

(** ** Vocabulary of the properties *)

Import Sections.

(** The Section objects of the collection, in list order. *)
Definition section_objects (st : Sections.t) : list (option Section.t) :=
  (λ r, Sections.heap st !! r) <$> Sections.sections st.

(** Their [section_number]s, in list order. *)
Definition section_numbers (st : Sections.t) : list (option Z) :=
  (λ o : option Section.t, Section.section_number <$> o)
    <$> section_objects st.

(** The numbers [0 .. n-1]. *)
Definition dense (n : nat) : list (option Z) :=
  (λ i, Some (Z.of_nat i)) <$> seq 0 n.

(** How many sections of the collection are selected. *)
Definition selected_count (st : Sections.t) : nat :=
  length (filter (λ o : option Section.t, Section.selected <$> o = Some true)
                 (section_objects st)).

(** The number of the active section, [None] when nothing is active. *)
Definition active_number (st : Sections.t) : option Z :=
  a ← Sections.active_section st;
  Section.section_number <$> Sections.heap st !! a.

(** The sequences of [addSection] and [removeActiveSection] calls.  An
    exception ends the call; the next call finds the state as the exception
    left it. *)
Inductive edit : Type :=
| AddSection (a_point : coord.Point) (angle : Q)
| RemoveActiveSection.

Definition call (e : edit) : Sections.M unit :=
  match e with
  | AddSection a_point angle => Sections.addSection a_point angle
  | RemoveActiveSection => Sections.removeActiveSection
  end.

Definition run (es : list edit) (st : Sections.t) : Sections.t :=
  foldl (λ st e, Sections.final (call e st)) st es.

(** One completed call of a method that changes the collection, the
    selection, a section or a pixmap. *)
Inductive step (st st' : Sections.t) : Prop :=
| step_addSection a_point angle :
    Sections.addSection a_point angle st = Sections.Done tt st' → step st st'
| step_handleActiveSectionUpdate which_section :
    Sections.handleActiveSectionUpdate which_section st = Sections.Done tt st' →
    step st st'
| step_incrementActiveSection diff :
    Sections.incrementActiveSection diff st = Sections.Done tt st' →
    step st st'
| step_removeActiveSection :
    Sections.removeActiveSection st = Sections.Done tt st' → step st st'
| step_handleKeyEvent which_key :
    Sections.handleKeyEvent which_key st = Sections.Done tt st' → step st st'
| step_loadFromMosaicFileData float data directory b :
    Sections.loadFromMosaicFileData float data directory st
      = Sections.Done b st' →
    step st st'
| step_check_box r :
    r ∈ Sections.sections st →
    Sections.check_box_stateChanged r st = Sections.Done tt st' → step st st'
| step_viewUpdate :
    Sections.viewUpdate st = Sections.Done tt st' → step st st'.

(** The states that completed calls lead to from a new [Sections]. *)
Inductive reachable : Sections.t → Prop :=
| reachable_init renderer : reachable (Sections.init renderer)
| reachable_step st st' : reachable st → step st st' → reachable st'.

(** The collection is well formed: the list holds distinct objects, the
    object at position [i] is numbered [i] and is selected exactly when it
    is the active one, and there is an active section, taken from the list,
    unless the list is empty. *)
Definition numbered (h : list Section.t) (l : list Sections.ref)
    (act : option Sections.ref) : Prop :=
  ∀ i r, l !! i = Some r →
    ∃ s, h !! r = Some s
         ∧ Section.section_number s = Z.of_nat i
         ∧ Section.selected s = bool_decide (act = Some r).

Record well_formed (st : Sections.t) : Prop := {
  wf_distinct : NoDup (Sections.sections st);
  wf_numbered :
    numbered (Sections.heap st) (Sections.sections st)
             (Sections.active_section st);
  wf_active :
    match Sections.active_section st with
    | Some a => a ∈ Sections.sections st
    | None => Sections.sections st = []
    end
}.

(** The three spin boxes of a section have the bounds that
    [SectionControls.__init__] gives them and hold a value within them; the
    angle step is one degree. *)
Definition box_within (lo hi : Z) (b : SectionSpinBox.t) : Prop :=
  SectionSpinBox.lo b = lo ∧ SectionSpinBox.hi b = hi
  ∧ lo ≤ SectionSpinBox.val b ≤ hi.

Record controls_ok (c : SectionControls.t) : Prop := {
  ok_step : SectionControls.angle_step c = 1%Q;
  ok_x : box_within (-100000000) 100000000 (SectionControls.x_spin_box c);
  ok_y : box_within (-100000000) 100000000 (SectionControls.y_spin_box c);
  ok_angle : box_within (-18000) 18000 (SectionControls.angle_spin_box c)
}.

Definition section_ok (s : Section.t) : Prop :=
  controls_ok (Section.controls s).

(** A method keeps a property of the state, whether it returns or raises. *)
Definition preserves {A} (P : Sections.t → Prop) (m : Sections.M A) : Prop :=
  ∀ st, P st → P (Sections.final (m st)).

(** A change of the state that leaves the store, the list and the active
    section as they are. *)
Definition same_collection (g : t → t) : Prop :=
  ∀ st, heap (g st) = heap st ∧ sections (g st) = sections st
        ∧ active_section (g st) = active_section st.

(** A method of [Section] that leaves the number and the selection of the
    object as they are. *)
Definition keeps_identity (f : Section.t → Section.t) : Prop :=
  ∀ s, Section.section_number (f s) = Section.section_number s
       ∧ Section.selected (f s) = Section.selected s.

(** A method keeps a property of the state when it returns. *)
Definition on_return {A} (P : t → Prop) (m : M A) : Prop :=
  ∀ st a st', P st → m st = Done a st' → P st'.

(** The value, in hundredths, that [incrementAngle] leaves in an angle box
    with bounds [lo] and [hi] and value [v], for a step of one degree. *)
Definition turned (direction : Q) (lo hi v : Z) : Z :=
  if Qlt_le_dec 0 direction then
    if decide (hi < v + 100) then Qt.qBound lo (lo + (v + 100 - hi)) hi
    else Qt.qBound lo (v + 100) hi
  else
    if decide (v - 100 < lo) then Qt.qBound lo (hi - (lo - (v - 100))) hi
    else Qt.qBound lo (v - 100) hi.

(** Every Section object ever made has its spin boxes in order. *)
Definition heap_ok (st : Sections.t) : Prop :=
  Forall section_ok (Sections.heap st).

(** A method of [Section] that keeps the spin boxes in order. *)
Definition keeps_ok (f : Section.t → Section.t) : Prop :=
  ∀ s, section_ok s → section_ok (f s).

(** Classes of characters and of strings. *)
Definition chars (s : string) : list ascii := list_ascii_of_string s.

Definition is_digit (c : ascii) : bool :=
  let n := N_of_ascii c in (N.leb 48 n && N.leb n 57)%bool.

(** A character of a decimal numeral: a digit, the sign or the point. *)
Definition is_numeral_char (c : ascii) : bool :=
  (is_digit c || Ascii.eqb c "-" || Ascii.eqb c ".")%bool.

Definition all_chars (p : ascii → bool) (s : string) : Prop :=
  Forall (λ c, p c = true) (chars s).

Definition CRLF : string := String "013" (String "010" EmptyString).

(** What the digits after the point stand for: the digits of [str_frac r]
    read as a number [f] over [10 ^ length] equal [r / 100]. *)
Definition frac_reads_back (r : Z) : bool :=
  let cs := chars (Py.str_frac r) in
  match Py.digits_value cs with
  | Some f =>
      (Z.of_N f * 100 =? r * 10 ^ Z.of_nat (length cs))
      && forallb is_digit cs && (0 <? Z.of_nat (length cs))
  | None => false
  end.

(** The composite as the specification describes it: the renders that
    succeeded, added pixel by pixel and divided by their number. *)
Definition successful (renders : list SectionRenderer.numpy_result)
  : list (list Z) :=
  omap (λ r, match r with
             | SectionRenderer.ndarray a => Some a
             | SectionRenderer.PyFalse => None
             end) renders.

Definition average_of (frames : list (list Z)) : option (list Z) :=
  match frames with
  | [] => None
  | f :: fs =>
      Some (mean_uint8 (foldl (zip_with Z.add) f fs)
                       (Z.of_nat (length frames)))
  end.

(** The keys that change a parameter of the active section. *)
Definition nudge_keys : list Z :=
  [Qt.Key_W; Qt.Key_S; Qt.Key_A; Qt.Key_D; Qt.Key_Q; Qt.Key_E].

(** A [Sections] with no section and nothing active. *)
Definition emptied (st : Sections.t) : Sections.t :=
  with_active_section None (with_sections [] st).

(** ** States used as examples *)

Definition origin : coord.Point := coord.mkPoint 0 0.

(** Three sections; the first one added is the active one. *)
Definition three_added (renderer : nat → SectionRenderer.numpy_result)
  : Sections.t :=
  run [AddSection origin 0; AddSection (coord.mkPoint 10 0) 90;
       AddSection (coord.mkPoint 0 10) 180]
      (init renderer).

(** Three sections, the second one active. *)
Definition three_sections (renderer : nat → SectionRenderer.numpy_result)
  : Sections.t :=
  final (handleActiveSectionUpdate 1 (three_added renderer)).

(** A renderer whose eighth image has no buffer. *)
Definition flaky_renderer (n : nat) : SectionRenderer.numpy_result :=
  match n with
  | 7%nat => SectionRenderer.PyFalse
  | 8%nat => SectionRenderer.ndarray [30; 90; 255; 9]
  | _ => SectionRenderer.ndarray [90; 30; 255; 7]
  end.

(** Three sections, checked for the background one after the other; the
    three check boxes cost six renders. *)
Definition three_checked_with (renderer : nat → SectionRenderer.numpy_result)
  : Sections.t :=
  final (check_box_stateChanged 2%nat
    (final (check_box_stateChanged 1%nat
      (final (check_box_stateChanged 0%nat (three_added renderer)))))).

Definition three_checked : Sections.t := three_checked_with flaky_renderer.

(** A renderer whose seventh image has no buffer. *)
Definition late_renderer (n : nat) : SectionRenderer.numpy_result :=
  match n with
  | 6%nat => SectionRenderer.PyFalse
  | 8%nat => SectionRenderer.ndarray [30; 90; 255; 9]
  | _ => SectionRenderer.ndarray [90; 30; 255; 7]
  end.

(** One section, checked for the background. *)
Definition one_shown : Sections.t :=
  final (check_box_stateChanged 0%nat
           (run [AddSection origin 0] (init flaky_renderer))).

(** One checked section is added, shown in the background and removed. *)
Definition stale_background : Sections.t :=
  final (removeActiveSection one_shown).

(** A section at (1.25, -3.5) turned by 33 degrees. *)
Definition sample_section : Section.t :=
  Section.init 5 (5 # 4) (- (7 # 2)) 33.

(** The line as the specification words it: the tag and three numbers. *)
Definition line_of_three_fields (s : Section.t) : string :=
  ("section,"
     ++ String.concat ","
          [Py.str_float (coord.x_um (Section.getLocation s));
           Py.str_float (coord.y_um (Section.getLocation s));
           Py.str_float (Section.getAngle s)]
     ++ CRLF)%string.

(** The angle box of new controls holding the angle [a]. *)
Definition controls_at (a : Q) : SectionControls.t :=
  SectionControls.init 0 0 a.

(** ** Further vocabulary *)

(** The store, the list and the active section are the given ones. *)
Definition collection_is (h : list Section.t) (l : list Sections.ref)
    (a : option Sections.ref) (st : Sections.t) : Prop :=
  heap st = h ∧ sections st = l ∧ active_section st = a.

(** The final state of a key event. *)
Definition press (which_key : Z) (st : Sections.t) : Sections.t :=
  final (handleKeyEvent which_key st).

(** The ellipse of a section is drawn above the others exactly when the
    section is selected, and then with the pen of the selection. *)
Definition marker_ok (s : Section.t) : Prop :=
  SceneEllipseItem.zValue (Section.scene_ellipse_item s)
    = (if Section.selected s then 1999 else 999)
  ∧ (Section.selected s = true →
     SceneEllipseItem.pen (Section.scene_ellipse_item s)
       = SceneEllipseItem.selected_pen).

(** A method of [Section] that keeps a property of the object. *)
Definition keeps (Q : Section.t → Prop) (f : Section.t → Section.t) : Prop :=
  ∀ s, Q s → Q (f s).







(** The lines that [saveToMosaicFile] writes, one for each section, in
    list order. *)
Definition written_lines (st : Sections.t) : list string :=
  omap (λ r, Section.mosaic_line <$> heap st !! r) (sections st).

(** Where each section of the collection is and how it is turned, in list
    order. *)
Definition placement (s : Section.t) : coord.Point * Q :=
  (Section.getLocation s, Section.getAngle s).

Definition placements (st : Sections.t) : list (option (coord.Point * Q)) :=
  (λ o : option Section.t, placement <$> o) <$> section_objects st.

(** A reader of a mosaic file: each line, split at its commas, is offered
    to [loadFromMosaicFileData]; what the method answers is not used. *)
Fixpoint load_lines (lines : list string) (directory : string) : M unit :=
  match lines with
  | [] => mret tt
  | line :: lines' =>
      loadFromMosaicFileData Py.float_of_str (Py.split_comma line) directory;;
      load_lines lines' directory
  end.



(** What the user has set for a section: where it is, how it is turned and
    whether it is checked for the background. *)
Definition setting (s : Section.t) : coord.Point * Q * bool :=
  (Section.getLocation s, Section.getAngle s, Section.isChecked s).

(** The settings of the sections of the collection, in list order. *)
Definition settings (st : Sections.t) : list (option (coord.Point * Q * bool)) :=
  (λ o : option Section.t, setting <$> o) <$> section_objects st.

(** ** The targets of pictures and positions

    [handlePictures] and [handlePositions] end in the emission of a signal
    that carries a list; the model returns what is emitted, [None] when
    nothing is.  The spiral and the grid come from [mosaicView], which is
    not among the sources at hand: they are taken as any two functions into
    lists of some type [T].  The sides of the grid are the fields
    [number_x] and [number_y], 5 and 3 until [gridChange] sets them. *)

Record grid : Set := mk_grid { number_x : Z; number_y : Z }.

Definition grid_init : grid := mk_grid 5 3.

Definition gridChange (xnum ynum : Z) (g : grid) : grid := mk_grid xnum ynum.

Fixpoint handlePositions_loop (l : list Sections.ref)
    (position_list : list coord.Point) : M (list coord.Point) :=
  match l with
  | [] => mret position_list
  | section :: l' =>
      s ← deref section;
      handlePositions_loop l' (position_list ++ [Section.getLocation s])
  end.

Definition handlePositions : M (option (list coord.Point)) :=
  st ← get;
  position_list ← handlePositions_loop (sections st) [];
  if (0 <? length position_list)%nat then mret (Some position_list)
  else mret None.

Section Targets.

Context {T : Type}.
Context (createSpiral : Z → list T) (createGrid : Z → Z → list T).

Fixpoint handlePictures_loop (number_pictures : Z) (g : grid)
    (l : list Sections.ref) (picture_list : list (coord.Point + T))
  : M (list (coord.Point + T)) :=
  match l with
  | [] => mret picture_list
  | section :: l' =>
      s ← deref section;
      let picture_list := picture_list ++ [inl (Section.getLocation s)] in
      handlePictures_loop number_pictures g l'
        (if 1 <? number_pictures then
           picture_list ++ (inr <$> createSpiral number_pictures)
         else if number_pictures =? -1 then
           picture_list ++ (inr <$> createGrid (number_x g) (number_y g))
         else picture_list)
  end.

Definition handlePictures (number_pictures : Z) (g : grid)
  : M (option (list (coord.Point + T))) :=
  st ← get;
  picture_list ← handlePictures_loop number_pictures g (sections st) [];
  if (0 <? length picture_list)%nat then mret (Some picture_list)
  else mret None.

(** What follows the location of each section in the list of pictures. *)
Definition around (number_pictures : Z) (g : grid) : list T :=
  if 1 <? number_pictures then createSpiral number_pictures
  else if number_pictures =? -1 then createGrid (number_x g) (number_y g)
  else [].

End Targets.

(** The locations of the sections of the collection, in list order. *)
Definition locations (st : Sections.t) : list coord.Point :=
  omap (λ r, Section.getLocation <$> heap st !! r) (sections st).

(** A setting with the check mark turned over. *)
Definition toggled (x : coord.Point * Q * bool) : coord.Point * Q * bool :=
  let '(p, a, c) := x in (p, a, negb c).



(** Whether each section of the collection is selected, in list order. *)
Definition selected_flags (st : Sections.t) : list (option bool) :=
  (λ o : option Section.t, Section.selected <$> o) <$> section_objects st.

(** Of [n] sections in list order, the one at position [k] is selected and
    no other is. *)
Definition only_at (k : Z) (n : nat) : list (option bool) :=
  (λ i, Some (bool_decide (Z.of_nat i = k))) <$> seq 0 n.

(** The number read from the field [i] of a line, when the field is there
    and [float] accepts it. *)
Definition field (float : string → option Q) (data : list string) (i : nat)
  : option Q :=
  d ← data !! i; float d.

(** * Properties *)

(** ** Running the methods *)

Lemma bind_unfold {A B} (m : M A) (f : A → M B) st :
  (m ≫= f) st = match m st with Done a st' => f a st' | Raised e st' => Raised e st' end.
Proof. reflexivity. Qed.

Lemma deref_some r s st : heap st !! r = Some s → deref r st = Done s st.
Proof. unfold deref. intros ->. reflexivity. Qed.

Lemma update_some r f s st :
  heap st !! r = Some s →
  update r f st = Done tt (with_heap (alter f r (heap st)) st).
Proof. intros H. unfold update. rewrite bind_unfold, (deref_some _ _ _ H). reflexivity. Qed.

Lemma activate_none st which r s :
  active_section st = None →
  Py.index (sections st) which = Some r →
  heap st !! r = Some s →
  handleActiveSectionUpdate which st
  = Done tt (with_heap (alter Section.select r (heap st)) (with_active_section (Some r) st)).
Proof.
  intros Ha Hi Hr. unfold handleActiveSectionUpdate.
  rewrite bind_unfold. cbn [get]. rewrite Ha.
  rewrite bind_unfold, Hi. cbn [lift mret M_ret].
  rewrite bind_unfold. cbn [modify].
  erewrite update_some by (cbn; eauto). reflexivity.
Qed.

Lemma activate_same st act a :
  active_section st = Some act →
  heap st !! act = Some a →
  handleActiveSectionUpdate (Section.section_number a) st = Done tt st.
Proof.
  intros Ha Hd. unfold handleActiveSectionUpdate.
  rewrite bind_unfold. cbn [get]. rewrite Ha.
  rewrite bind_unfold, (deref_some _ _ _ Hd).
  unfold Section.getSectionNumber. rewrite Z.eqb_refl. reflexivity.
Qed.

Lemma activate_some st act a which r s :
  active_section st = Some act →
  heap st !! act = Some a →
  Section.section_number a ≠ which →
  Py.index (sections st) which = Some r →
  heap st !! r = Some s →
  handleActiveSectionUpdate which st
  = Done tt (with_heap (alter Section.select r (alter Section.deselect act (heap st)))
                       (with_active_section (Some r) st)).
Proof.
  intros Ha Hd Hne Hi Hr. unfold handleActiveSectionUpdate.
  rewrite bind_unfold. cbn [get]. rewrite Ha.
  rewrite bind_unfold, (deref_some _ _ _ Hd).
  unfold Section.getSectionNumber.
  destruct (Z.eqb_spec (Section.section_number a) which) as [|_]; [done|].
  cbn [negb]. rewrite bind_unfold, (update_some _ _ _ _ Hd).
  rewrite bind_unfold. cbn [get]. rewrite bind_unfold. cbn [sections with_heap].
  rewrite Hi. cbn [lift mret M_ret]. rewrite bind_unfold. cbn [modify].
  assert (is_Some (alter Section.deselect act (heap st) !! r)) as [s' Hs'].
  { destruct (decide (act = r)) as [E|Hn].
    - rewrite E, list_lookup_alter_eq, Hr. eauto.
    - rewrite list_lookup_alter_ne by done. eauto. }
  erewrite update_some by (cbn; eauto). reflexivity.
Qed.

Lemma activate_raises st act a which :
  active_section st = Some act →
  heap st !! act = Some a →
  Section.section_number a ≠ which →
  Py.index (sections st) which = None →
  handleActiveSectionUpdate which st
  = Raised Py.IndexError (with_heap (alter Section.deselect act (heap st)) st).
Proof.
  intros Ha Hd Hne Hi. unfold handleActiveSectionUpdate.
  rewrite bind_unfold. cbn [get]. rewrite Ha.
  rewrite bind_unfold, (deref_some _ _ _ Hd).
  unfold Section.getSectionNumber.
  destruct (Z.eqb_spec (Section.section_number a) which) as [|_]; [done|].
  cbn [negb]. rewrite bind_unfold, (update_some _ _ _ _ Hd).
  rewrite bind_unfold. cbn [get]. rewrite bind_unfold. cbn [sections with_heap].
  rewrite Hi. reflexivity.
Qed.

(** ** The invariant of the collection *)
Lemma index_elem {A} (l : list A) i x : Py.index l i = Some x → x ∈ l.
Proof.
  unfold Py.index. intros H.
  repeat case_match; try done; eapply list_elem_of_lookup_2; eauto.
Qed.

Lemma numbered_valid h l act r : numbered h l act → r ∈ l → ∃ s, h !! r = Some s.
Proof.
  intros Hn [i Hi]%list_elem_of_lookup_1. destruct (Hn i r Hi) as (s & ? & _). eauto.
Qed.

Lemma numbered_activate h l act r :
  numbered h l act → r ∈ l →
  numbered (alter Section.select r
              (match act with Some a => alter Section.deselect a h | None => h end))
           l (Some r).
Proof.
  intros Hn Hr i r' Hi. destruct (Hn i r' Hi) as (s & Hs & Hnum & Hsel).
  set (h1 := match act with Some a => alter Section.deselect a h | None => h end).
  assert (∃ s1, h1 !! r' = Some s1 ∧ Section.section_number s1 = Z.of_nat i
                ∧ (act ≠ Some r' → Section.selected s1 = false)
                ∧ (act = Some r' → Section.selected s1 = false)) as (s1 & H1 & Hn1 & Hsel1 & Hsel1').
  { subst h1. destruct act as [a|].
    - destruct (decide (a = r')) as [E|Hne].
      + rewrite E, list_lookup_alter_eq, Hs. eexists. split; [done|]. repeat split; done.
      + rewrite list_lookup_alter_ne by done. exists s. repeat split; try done.
        * intros _. rewrite Hsel. apply bool_decide_eq_false. congruence.
        * congruence.
    - exists s. repeat split; done. }
  destruct (decide (r = r')) as [E|Hne].
  - rewrite E, list_lookup_alter_eq, H1. eexists. split; [done|]. split; [done|].
    symmetry. by apply bool_decide_eq_true.
  - rewrite list_lookup_alter_ne by done. exists s1. split; [done|]. split; [done|].
    destruct (decide (act = Some r')).
    + rewrite Hsel1' by done. symmetry. apply bool_decide_eq_false. congruence.
    + rewrite Hsel1 by done. symmetry. apply bool_decide_eq_false. congruence.
Qed.

Lemma activate_none_raises st which :
  active_section st = None →
  Py.index (sections st) which = None →
  handleActiveSectionUpdate which st = Raised Py.IndexError st.
Proof.
  intros Ha Hi. unfold handleActiveSectionUpdate.
  rewrite bind_unfold. cbn [get]. rewrite Ha.
  rewrite bind_unfold, Hi. reflexivity.
Qed.

Lemma index_nil {A} i : Py.index (@nil A) i = None.
Proof. unfold Py.index. cbn. repeat case_match; try done; lia. Qed.

Lemma index_nat {A} (l : list A) (i : nat) : Py.index l (Z.of_nat i) = l !! i.
Proof.
  unfold Py.index. destruct (l !! i) eqn:E.
  - apply lookup_lt_Some in E as Hlt.
    replace (0 <=? Z.of_nat i) with true by (symmetry; apply Z.leb_le; lia).
    replace (Z.of_nat i <? Z.of_nat (length l)) with true by (symmetry; apply Z.ltb_lt; lia).
    cbn. by rewrite Nat2Z.id.
  - apply lookup_ge_None in E as Hge.
    replace (Z.of_nat i <? Z.of_nat (length l)) with false by (symmetry; apply Z.ltb_ge; lia).
    replace (Z.of_nat i <? 0) with false by (symmetry; apply Z.ltb_ge; lia).
    by rewrite !andb_false_r.
Qed.

Lemma del_nat {A} (l : list A) (i : nat) :
  (i < length l)%nat → Py.del l (Z.of_nat i) = Some (delete i l).
Proof.
  intros Hlt. unfold Py.del.
  replace (0 <=? Z.of_nat i) with true by (symmetry; apply Z.leb_le; lia).
  replace (Z.of_nat i <? Z.of_nat (length l)) with true by (symmetry; apply Z.ltb_lt; lia).
  cbn. by rewrite Nat2Z.id.
Qed.

Lemma wf_active_object st act :
  well_formed st → active_section st = Some act →
  ∃ k a, sections st !! k = Some act ∧ heap st !! act = Some a
         ∧ Section.section_number a = Z.of_nat k.
Proof.
  intros [Hd Hn Ha] E. rewrite E in Ha.
  apply list_elem_of_lookup_1 in Ha as [k Hk].
  destruct (Hn k act Hk) as (a & ? & ? & _). eauto.
Qed.

Lemma handleActiveSectionUpdate_wf st which st' :
  well_formed st →
  handleActiveSectionUpdate which st = Done tt st' →
  well_formed st'.
Proof.
  intros Hwf Hrun. destruct (active_section st) as [act|] eqn:Ea.
  - destruct (wf_active_object _ _ Hwf Ea) as (k & a & Hk & Ha & Hnum).
    destruct (decide (Section.section_number a = which)) as [<-|Hne].
    { rewrite (activate_same _ _ _ Ea Ha) in Hrun. by inversion Hrun; subst. }
    destruct (Py.index (sections st) which) as [r|] eqn:Ei.
    + destruct Hwf as [Hd Hn Hact].
      destruct (numbered_valid _ _ _ r Hn) as [s Hs]; [by eapply index_elem|].
      rewrite (activate_some _ _ _ _ _ _ Ea Ha Hne Ei Hs) in Hrun.
      inversion Hrun; subst. split; cbn.
      * done.
      * rewrite Ea in Hn. apply (numbered_activate _ _ (Some act)); [done|by eapply index_elem].
      * by eapply index_elem.
    + by rewrite (activate_raises _ _ _ _ Ea Ha Hne Ei) in Hrun.
  - destruct Hwf as [_ _ Hact]. rewrite Ea in Hact.
    rewrite activate_none_raises in Hrun; [done..|]. rewrite Hact. apply index_nil.
Qed.

(** Activation of a valid position always completes. *)
Lemma handleActiveSectionUpdate_total st (i : nat) r :
  well_formed st → sections st !! i = Some r →
  ∃ st', handleActiveSectionUpdate (Z.of_nat i) st = Done tt st'
         ∧ sections st' = sections st ∧ active_section st' = Some r
         ∧ length (heap st') = length (heap st).
Proof.
  intros Hwf Hi. destruct (active_section st) as [act|] eqn:Ea.
  - destruct (wf_active_object _ _ Hwf Ea) as (k & a & Hk & Ha & Hnum).
    destruct Hwf as [Hd Hn Hact].
    destruct (decide (k = i)) as [->|Hne].
    + exists st. rewrite <- Hnum, (activate_same _ _ _ Ea Ha). repeat split; congruence.
    + destruct (Hn i r Hi) as (s & Hs & _).
      eexists. rewrite (activate_some _ _ _ _ r s Ea Ha); [|lia|by rewrite index_nat|done].
      repeat split. cbn. by rewrite !length_alter.
  - destruct Hwf as [_ _ Hact]. rewrite Ea in Hact. by rewrite Hact in Hi.
Qed.

(** ** [addSection] *)

Lemma numbered_lt h l act i r : numbered h l act → l !! i = Some r → (r < length h)%nat.
Proof. intros Hn Hi. destruct (Hn i r Hi) as (s & Hs & _). by eapply lookup_lt_Some. Qed.

Lemma numbered_app h l act s :
  numbered h l act →
  Section.section_number s = Z.of_nat (length l) →
  Section.selected s = false →
  (∀ a, act = Some a → (a < length h)%nat) →
  numbered (h ++ [s]) (l ++ [length h]) act.
Proof.
  intros Hn Hnum Hsel Hact i r Hi.
  destruct (decide (i < length l)%nat) as [Hlt|Hge].
  - rewrite lookup_app_l in Hi by done.
    destruct (Hn i r Hi) as (s' & Hs' & ? & ?). exists s'.
    rewrite lookup_app_l by (by eapply lookup_lt_Some). done.
  - rewrite lookup_app_r in Hi by lia.
    destruct (i - length l)%nat as [|n] eqn:E; [|done]. cbn in Hi. inversion Hi; subst r.
    exists s. rewrite lookup_app_r by lia. rewrite Nat.sub_diag. cbn.
    split; [done|]. split; [rewrite Hnum; f_equal; lia|].
    rewrite Hsel. symmetry. apply bool_decide_eq_false. intros E'.
    specialize (Hact _ E'). lia.
Qed.

Lemma addSection_unfold a_point angle st :
  addSection a_point angle st
  = let s := Section.init (Z.of_nat (length (sections st)))
               (coord.x_um a_point) (coord.y_um a_point) angle in
    let st1 := with_sections (sections st ++ [length (heap st)])
                 (with_heap (heap st ++ [s]) st) in
    match active_section st with
    | None => handleActiveSectionUpdate 0 st1
    | Some _ => Done tt st1
    end.
Proof.
  unfold addSection. rewrite bind_unfold. cbn [get].
  rewrite bind_unfold. cbn [new]. rewrite bind_unfold. cbn [modify].
  rewrite bind_unfold. cbn [get]. cbn [active_section with_sections with_heap sections heap].
  by destruct (active_section st).
Qed.

Lemma addSection_total a_point angle st :
  well_formed st →
  ∃ st', addSection a_point angle st = Done tt st'
    ∧ well_formed st'
    ∧ sections st' = sections st ++ [length (heap st)]
    ∧ length (heap st') = S (length (heap st))
    ∧ (∀ r, (r < length (heap st))%nat → heap st' !! r = heap st !! r)
    ∧ ∃ s, heap st' !! length (heap st) = Some s
           ∧ Section.section_number s = Z.of_nat (length (sections st))
           ∧ Section.controls s
             = SectionControls.with_selected (Section.selected s)
                 (SectionControls.init (coord.x_um a_point) (coord.y_um a_point) angle).
Proof.
  intros [Hd Hn Hact]. rewrite addSection_unfold. cbn zeta.
  set (s := Section.init _ _ _ _).
  assert (Hfresh : length (heap st) ∉ sections st).
  { intros [i Hi]%list_elem_of_lookup_1. apply (numbered_lt _ _ _ _ _ Hn) in Hi. lia. }
  assert (Hd' : NoDup (sections st ++ [length (heap st)])).
  { apply NoDup_app. split; [done|]. split; [|apply NoDup_singleton].
    intros x Hx ->%list_elem_of_singleton. done. }
  assert (Hn' : numbered (heap st ++ [s]) (sections st ++ [length (heap st)]) (active_section st)).
  { apply numbered_app; try done. intros a Ea. rewrite Ea in Hact.
    apply list_elem_of_lookup_1 in Hact as [i Hi]. by eapply numbered_lt. }
  destruct (active_section st) as [act|] eqn:Ea.
  - eexists. split; [done|]. split; [|split; [done|]]; [|split; [|split]].
    + split; cbn; [done| by rewrite Ea |]. rewrite Ea. apply elem_of_app. by left.
    + cbn. rewrite length_app. cbn. lia.
    + intros r Hr. cbn. by rewrite lookup_app_l.
    + exists s. cbn. rewrite lookup_app_r by lia. rewrite Nat.sub_diag. repeat split.
  - rewrite Hact in *. cbn [app] in *.
    erewrite (activate_none _ 0 (length (heap st)) s); [|done|done|].
    2:{ cbn. rewrite lookup_app_r by lia. by rewrite Nat.sub_diag. }
    eexists. split; [done|]. split; [|split; [done|]]; [|split; [|split]].
    + split; cbn; [done| |apply list_elem_of_singleton; done].
      apply (numbered_activate _ _ None); [done|by apply list_elem_of_singleton].
    + cbn. rewrite length_alter, length_app. cbn. lia.
    + intros r Hr. cbn. rewrite list_lookup_alter_ne by lia. by rewrite lookup_app_l.
    + exists (Section.select s). cbn. rewrite list_lookup_alter_eq.
      rewrite lookup_app_r by lia. rewrite Nat.sub_diag. repeat split. by rewrite Hact.
Qed.


(** ** [removeActiveSection] *)
Lemma renumber_spec l : ∀ i st,
  NoDup l → (∀ r, r ∈ l → is_Some (heap st !! r)) →
  ∃ h', renumber i l st = Done tt (with_heap h' st)
    ∧ length h' = length (heap st)
    ∧ (∀ j r, l !! j = Some r →
         h' !! r = Section.setSectionNumber (i + Z.of_nat j) <$> heap st !! r)
    ∧ (∀ r, r ∉ l → h' !! r = heap st !! r).
Proof.
  induction l as [|x l IH]; intros i st Hd Hv.
  - exists (heap st). cbn. split; [by destruct st|]. repeat split; done.
  - apply NoDup_cons in Hd as [Hx Hd].
    destruct (Hv x) as [s Hs]; [left|].
    cbn [renumber]. rewrite bind_unfold, (update_some _ _ _ _ Hs).
    set (st1 := with_heap _ st).
    destruct (IH (i + 1) st1 Hd) as (h' & Hrun & Hlen & Hin & Hout).
    { intros r Hr. cbn. destruct (decide (x = r)) as [->|Hne]; [done|].
      rewrite list_lookup_alter_ne by done. apply Hv. by right. }
    exists h'. rewrite Hrun. split; [done|]. split; [|split].
    + rewrite Hlen. cbn. by rewrite length_alter.
    + intros [|j] r Hj; cbn in Hj.
      * inversion Hj; subst r. rewrite Hout by done. cbn.
        rewrite list_lookup_alter_eq. by rewrite Z.add_0_r.
      * rewrite (Hin j r Hj). cbn.
        assert (x ≠ r) by (intros ->; apply Hx; by eapply list_elem_of_lookup_2).
        rewrite list_lookup_alter_ne by done. do 2 f_equal. lia.
    + intros r [Hne Hr]%not_elem_of_cons. rewrite Hout by done. cbn.
      by rewrite list_lookup_alter_ne.
Qed.

Lemma delete_not_elem {A} (l : list A) k x :
  NoDup l → l !! k = Some x → x ∉ delete k l.
Proof.
  intros Hd Hk [j Hj]%list_elem_of_lookup_1.
  destruct (decide (j < k)%nat).
  - rewrite list_lookup_delete_lt in Hj by done.
    pose proof (NoDup_lookup _ _ _ _ Hd Hj Hk). lia.
  - rewrite list_lookup_delete_ge in Hj by lia.
    pose proof (NoDup_lookup _ _ _ _ Hd Hj Hk). lia.
Qed.

Lemma numbered_removed h h' l k act :
  NoDup l → numbered h l (Some act) → l !! k = Some act →
  (∀ j r, delete k l !! j = Some r →
     h' !! r = Section.setSectionNumber (0 + Z.of_nat j) <$> h !! r) →
  numbered h' (delete k l) None.
Proof.
  intros Hd Hn Hk Hh j r Hj.
  assert (Hr : r ∈ delete k l) by (by eapply list_elem_of_lookup_2).
  assert (r ≠ act) by (intros ->; by eapply delete_not_elem).
  apply list_elem_of_delete_inv, list_elem_of_lookup_1 in Hr as [i Hi].
  destruct (Hn i r Hi) as (s & Hs & _ & Hsel).
  exists (Section.setSectionNumber (Z.of_nat j) s).
  rewrite (Hh j r Hj), Hs. split; [done|]. split; [done|].
  change (Section.selected (Section.setSectionNumber (Z.of_nat j) s))
    with (Section.selected s).
  rewrite Hsel. apply bool_decide_eq_false. congruence.
Qed.

Lemma removeActiveSection_total st act k :
  well_formed st → active_section st = Some act → sections st !! k = Some act →
  ∃ st', removeActiveSection st = Done tt st'
    ∧ well_formed st'
    ∧ sections st' = delete k (sections st)
    ∧ active_section st' = delete k (sections st) !! Nat.pred k
    ∧ length (heap st') = length (heap st).
Proof.
  intros [Hd Hn Hact] Ea Hk. rewrite Ea in Hn.
  destruct (Hn k act Hk) as (a & Ha & Hnum & _).
  pose proof (lookup_lt_Some _ _ _ Hk) as Hlt.
  unfold removeActiveSection. rewrite bind_unfold. cbn [get]. rewrite Ea.
  rewrite bind_unfold, (deref_some _ _ _ Ha).
  unfold Section.getSectionNumber. rewrite Hnum, bind_unfold, del_nat by done.
  cbn [lift mret M_ret]. rewrite bind_unfold. cbn [modify].
  rewrite bind_unfold. cbn [modify]. rewrite bind_unfold.
  set (l' := delete k (sections st)).
  set (st1 := with_active_section None (with_sections l' st)).
  assert (Hd' : NoDup l') by (eapply sublist_NoDup; [done|apply sublist_delete]).
  destruct (renumber_spec l' 0 st1 Hd') as (h' & Hrun & Hlen & Hin & Hout).
  { intros r Hr. cbn. apply list_elem_of_delete_inv in Hr.
    destruct (numbered_valid _ _ _ _ Hn Hr) as [s ->]. done. }
  rewrite Hrun.
  assert (Hn' : numbered h' l' None).
  { eapply numbered_removed; eauto. }
  assert (Hlen' : length l' = (length (sections st) - 1)%nat).
  { apply length_delete. eauto. }
  destruct l' as [|x l''] eqn:El.
  - cbn. eexists. split; [done|]. split; [|split; [done|split]].
    + split; cbn; [constructor|done|done].
    + cbn. by destruct (Nat.pred k).
    + done.
  - assert (is_Some ((x :: l'') !! Nat.pred k)) as [r Hr].
    { apply lookup_lt_is_Some. cbn in *. lia. }
    cbn [length]. replace (0 <? S (length l''))%nat with true by done.
    assert (handleActiveSectionUpdate (Z.of_nat (Nat.pred k)) (with_heap h' st1)
            = Done tt (with_heap (alter Section.select r h')
                         (with_active_section (Some r) (with_heap h' st1)))) as Hfin.
    { destruct (Hn' _ _ Hr) as (s & Hs & _).
      eapply activate_none; [done| |done]. by rewrite index_nat. }
    assert ((if 0 <? Z.of_nat k
             then handleActiveSectionUpdate (Z.of_nat k - 1)
             else handleActiveSectionUpdate 0) (with_heap h' st1)
            = handleActiveSectionUpdate (Z.of_nat (Nat.pred k)) (with_heap h' st1)) as ->.
    { destruct k as [|k']; [done|].
      replace (0 <? Z.of_nat (S k')) with true by (symmetry; apply Z.ltb_lt; lia).
      f_equal. cbn [Nat.pred]. lia. }
    rewrite Hfin. eexists. split; [done|]. split; [|split; [done|split]].
    + split; cbn.
      * done.
      * apply (numbered_activate _ _ None); [done|by eapply list_elem_of_lookup_2].
      * by eapply list_elem_of_lookup_2.
    + done.
    + cbn. by rewrite length_alter.
Qed.

Lemma removeActiveSection_none st :
  active_section st = None → removeActiveSection st = Raised Py.AttributeError st.
Proof.
  intros Ea. unfold removeActiveSection. rewrite bind_unfold. cbn [get]. by rewrite Ea.
Qed.

Lemma well_formed_init renderer : well_formed (init renderer).
Proof. split; cbn; [constructor| |done]. intros i r Hi. done. Qed.

Lemma well_formed_numbers st :
  well_formed st → section_numbers st = dense (length (sections st)).
Proof.
  intros [_ Hn _]. apply list_eq. intros i.
  unfold section_numbers, section_objects, dense. rewrite !list_lookup_fmap.
  destruct (sections st !! i) as [r|] eqn:Hi.
  - destruct (Hn i r Hi) as (s & Hs & Hnum & _).
    rewrite lookup_seq_lt by (by eapply lookup_lt_Some). cbn. by rewrite Hs, <- Hnum.
  - apply lookup_ge_None in Hi. by rewrite lookup_seq_ge.
Qed.

Lemma count_selected (f : nat → option Section.t) act l :
  NoDup l →
  (∀ r, r ∈ l → ∃ s, f r = Some s ∧ Section.selected s = bool_decide (Some act = Some r)) →
  length (filter (λ o : option Section.t, Section.selected <$> o = Some true) (f <$> l))
  = if decide (act ∈ l) then 1%nat else 0%nat.
Proof.
  induction l as [|x l IH]; intros Hd Hf.
  - cbn. by rewrite decide_False by apply not_elem_of_nil.
  - apply NoDup_cons in Hd as [Hx Hd].
    destruct (Hf x) as (s & Hs & Hsel); [left|].
    specialize (IH Hd (λ r Hr, Hf r (list_elem_of_further _ _ _ Hr))).
    rewrite fmap_cons, Hs.
    destruct (decide (act = x)) as [->|Hne].
    + rewrite filter_cons_True
        by (cbn; by rewrite Hsel, bool_decide_eq_true_2).
      cbn [length]. rewrite IH, decide_False by done.
      by rewrite decide_True by left.
    + rewrite filter_cons_False
        by (cbn; rewrite Hsel, bool_decide_eq_false_2; congruence).
      rewrite IH. destruct (decide (act ∈ l)).
      * by rewrite decide_True by (by right).
      * rewrite decide_False; [done|]. by intros [?|?]%elem_of_cons.
Qed.

Lemma well_formed_selected st :
  well_formed st → sections st ≠ [] → selected_count st = 1%nat.
Proof.
  intros [Hd Hn Hact] Hne. destruct (active_section st) as [act|] eqn:Ea; [|done].
  unfold selected_count, section_objects.
  rewrite (count_selected _ act) ; [by rewrite decide_True|done|].
  intros r [i Hi]%list_elem_of_lookup_1. destruct (Hn i r Hi) as (s & ? & _ & ?). eauto.
Qed.

Lemma incrementActiveSection_wf st diff st' :
  well_formed st → incrementActiveSection diff st = Done tt st' → well_formed st'.
Proof.
  intros Hwf. unfold incrementActiveSection. rewrite bind_unfold. cbn [get].
  destruct (active_section st) as [act|] eqn:Ea.
  - rewrite bind_unfold. destruct (deref act st) as [a st1|] eqn:Ed; [|done].
    unfold deref in Ed. destruct (heap st !! act); [|done]. cbn in Ed. inversion Ed; subst.
    case_match; [done|]. by apply handleActiveSectionUpdate_wf.
  - intros H. by inversion H; subst.
Qed.

(** ** Sequences of edits *)
Lemma call_wf e st : well_formed st → well_formed (final (call e st)).
Proof.
  intros Hwf. destruct e as [p a|]; cbn [call].
  - destruct (addSection_total p a st Hwf) as (st' & -> & ? & _). done.
  - destruct (active_section st) as [act|] eqn:Ea.
    + destruct (wf_active_object _ _ Hwf Ea) as (k & a & Hk & _).
      destruct (removeActiveSection_total st act k Hwf Ea Hk) as (st' & -> & ? & _). done.
    + by rewrite removeActiveSection_none.
Qed.

Lemma run_wf es : ∀ st, well_formed st → well_formed (run es st).
Proof.
  induction es as [|e es IH]; intros st Hwf; [done|].
  cbn. apply IH. by apply call_wf.
Qed.

(** ** Frame rules *)
Section Preserves.
Context (P : t → Prop).

Lemma preserves_ret {A} (a : A) : preserves P (mret a).
Proof. by intros st. Qed.

Lemma preserves_raise {A} e : preserves P (raise (A:=A) e).
Proof. by intros st. Qed.

Lemma preserves_get : preserves P get.
Proof. by intros st. Qed.

Lemma preserves_lift {A} e (o : option A) : preserves P (lift e o).
Proof. by destruct o; intros st. Qed.

Lemma preserves_deref r : preserves P (deref r).
Proof. intros st. unfold deref. by destruct (heap st !! r). Qed.

Lemma preserves_bind {A B} (m : M A) (f : A → M B) :
  preserves P m → (∀ a, preserves P (f a)) → preserves P (m ≫= f).
Proof.
  intros Hm Hf st HP. rewrite bind_unfold. specialize (Hm st HP).
  destruct (m st) as [a st1|e st1]; cbn in Hm; [by apply Hf|done].
Qed.

Lemma preserves_modify g : (∀ st, P st → P (g st)) → preserves P (modify g).
Proof. intros Hg st HP. by apply Hg. Qed.

Lemma preserves_update r f :
  (∀ st, P st → P (with_heap (alter f r (heap st)) st)) → preserves P (update r f).
Proof.
  intros Hf. unfold update. apply preserves_bind; [apply preserves_deref|].
  intros _. by apply preserves_modify.
Qed.

Lemma preserves_done {A} (m : M A) st a st' :
  preserves P m → P st → m st = Done a st' → P st'.
Proof. intros Hm HP E. specialize (Hm st HP). by rewrite E in Hm. Qed.
End Preserves.

Create HintDb frame discriminated.

Ltac frame_rules :=
  repeat first
    [ solve [auto with frame nocore]
    | match goal with
      | |- preserves _ (mret _) => apply preserves_ret
      | |- preserves _ (raise _) => apply preserves_raise
      | |- preserves _ get => apply preserves_get
      | |- preserves _ (lift _ _) => apply preserves_lift
      | |- preserves _ (deref _) => apply preserves_deref
      | |- preserves _ (mbind _ _) => apply preserves_bind; [|intros ?]
      | |- preserves _ (match ?x with _ => _ end) => destruct x
      | |- preserves _ (if ?x then _ else _) => destruct x
      | |- preserves _ (let '(_, _) := ?x in _) => destruct x
      end ].

(** ** The methods that leave the collection and the selection alone *)


Lemma well_formed_ext st st' :
  heap st' = heap st → sections st' = sections st →
  active_section st' = active_section st →
  well_formed st → well_formed st'.
Proof. intros Hh Hs Ha [? ? ?]. split; rewrite ?Hh, ?Hs, ?Ha; done. Qed.

Lemma wf_modify g : same_collection g → preserves well_formed (modify g).
Proof.
  intros Hg. apply preserves_modify. intros st. destruct (Hg st) as (? & ? & ?).
  by apply well_formed_ext.
Qed.


Lemma wf_update r f : keeps_identity f → preserves well_formed (update r f).
Proof.
  intros Hf. apply preserves_update. intros st [Hd Hn Ha]. split; cbn; [done| |done].
  intros i r' Hi. destruct (Hn i r' Hi) as (s & Hs & Hnum & Hsel).
  destruct (decide (r = r')) as [E|Hne].
  - rewrite E, list_lookup_alter_eq, Hs. exists (f s). destruct (Hf s) as [-> ->]. done.
  - rewrite list_lookup_alter_ne by done. eauto.
Qed.

Lemma wf_renderSectionNumpy p a : preserves well_formed (renderSectionNumpy p a).
Proof. intros st. by apply well_formed_ext. Qed.

Lemma wf_print line : preserves well_formed (print line).
Proof. by apply wf_modify. Qed.

Lemma wf_setBackgroundPixmap p : preserves well_formed (setBackgroundPixmap p).
Proof. by apply wf_modify. Qed.

Lemma wf_setForegroundPixmap p : preserves well_formed (setForegroundPixmap p).
Proof. by apply wf_modify. Qed.

#[local] Hint Resolve wf_renderSectionNumpy wf_print wf_setBackgroundPixmap
  wf_setForegroundPixmap : frame.

Lemma wf_background_loop l : ∀ nb counts,
  preserves well_formed (background_loop l nb counts).
Proof.
  induction l as [|r l IH]; intros nb counts; cbn [background_loop]; frame_rules.
Qed.
#[local] Hint Resolve wf_background_loop : frame.

Lemma wf_updateBackgroundPixmap : preserves well_formed updateBackgroundPixmap.
Proof. unfold updateBackgroundPixmap. frame_rules. Qed.
#[local] Hint Resolve wf_updateBackgroundPixmap : frame.

Lemma wf_updateForegroundPixmap : preserves well_formed updateForegroundPixmap.
Proof. unfold updateForegroundPixmap, renderSectionPixmap. frame_rules. Qed.
#[local] Hint Resolve wf_updateForegroundPixmap : frame.

Lemma wf_viewUpdate : preserves well_formed viewUpdate.
Proof. unfold viewUpdate. frame_rules. Qed.

Lemma wf_handleSectionUpdate : preserves well_formed handleSectionUpdate.
Proof. unfold handleSectionUpdate. frame_rules. Qed.
#[local] Hint Resolve wf_viewUpdate wf_handleSectionUpdate : frame.

Lemma wf_active_section_call m :
  keeps_identity m → preserves well_formed (active_section_call m).
Proof.
  intros Hm. unfold active_section_call. frame_rules. by apply wf_update.
Qed.

Lemma wf_saveSectionsNumpy_loop l : ∀ i,
  preserves well_formed (saveSectionsNumpy_loop i l).
Proof.
  induction l as [|r l IH]; intros i; cbn [saveSectionsNumpy_loop]; frame_rules.
  by apply wf_modify.
Qed.

Lemma wf_saveSectionsNumpy : preserves well_formed saveSectionsNumpy.
Proof. unfold saveSectionsNumpy. frame_rules. apply wf_saveSectionsNumpy_loop. Qed.

Lemma wf_check_box_stateChanged r : preserves well_formed (check_box_stateChanged r).
Proof. unfold check_box_stateChanged. frame_rules. by apply wf_update. Qed.

(** ** Methods that keep well-formedness when they return *)
Lemma on_return_preserves {A} P (m : M A) : preserves P m → on_return P m.
Proof. intros Hm st a st' HP E. by eapply preserves_done. Qed.

Lemma on_return_bind {A B} P (m : M A) (f : A → M B) :
  on_return P m → (∀ a, on_return P (f a)) → on_return P (m ≫= f).
Proof.
  intros Hm Hf st b st' HP. rewrite bind_unfold.
  destruct (m st) as [a st1|e st1] eqn:E; [|done]. intros E'.
  eapply Hf; [|done]. by eapply Hm.
Qed.

Lemma keeps_identity_incrementX d : keeps_identity (Section.incrementX d).
Proof. intros s. split; reflexivity. Qed.
Lemma keeps_identity_incrementY d : keeps_identity (Section.incrementY d).
Proof. intros s. split; reflexivity. Qed.
Lemma keeps_identity_incrementAngle d : keeps_identity (Section.incrementAngle d).
Proof.
  intros s. unfold Section.selected, Section.incrementAngle,
    SectionControls.incrementAngle. cbn.
  repeat destruct (Qlt_le_dec _ _); split; reflexivity.
Qed.

Lemma removeActiveSection_wf : on_return well_formed removeActiveSection.
Proof.
  intros st [] st' Hwf E. destruct (active_section st) as [act|] eqn:Ea.
  - destruct (wf_active_object _ _ Hwf Ea) as (k & a & Hk & _).
    destruct (removeActiveSection_total st act k Hwf Ea Hk) as (st'' & E' & ? & _).
    congruence.
  - by rewrite removeActiveSection_none in E.
Qed.

Lemma addSection_wf p a : on_return well_formed (addSection p a).
Proof.
  intros st [] st' Hwf E.
  destruct (addSection_total p a st Hwf) as (st'' & E' & ? & _). congruence.
Qed.

Lemma handleActiveSectionUpdate_on_return w :
  on_return well_formed (handleActiveSectionUpdate w).
Proof. intros st [] st' Hwf E. by eapply handleActiveSectionUpdate_wf. Qed.

Lemma incrementActiveSection_on_return d :
  on_return well_formed (incrementActiveSection d).
Proof. intros st [] st' Hwf E. by eapply incrementActiveSection_wf. Qed.

Lemma handleKeyEvent_wf k : on_return well_formed (handleKeyEvent k).
Proof.
  unfold handleKeyEvent.
  repeat match goal with |- on_return _ (if ?b then _ else _) => destruct b end;
    auto using incrementActiveSection_on_return, on_return_preserves,
      wf_active_section_call, keeps_identity_incrementX, keeps_identity_incrementY,
      keeps_identity_incrementAngle, wf_saveSectionsNumpy, wf_viewUpdate,
      preserves_ret.
  apply on_return_bind; [apply on_return_preserves, preserves_get|].
  intros st0. destruct (active_section st0);
    auto using removeActiveSection_wf, on_return_preserves, preserves_ret.
Qed.

Lemma loadFromMosaicFileData_wf float data directory :
  on_return well_formed (loadFromMosaicFileData float data directory).
Proof.
  unfold loadFromMosaicFileData.
  repeat match goal with
    | |- on_return _ (mbind _ _) => apply on_return_bind; [|intros ?]
    | |- on_return _ (lift _ _) => apply on_return_preserves, preserves_lift
    | |- on_return _ (mret _) => apply on_return_preserves, preserves_ret
    | |- on_return _ (addSection _ _) => apply addSection_wf
    | |- on_return _ (if ?b then _ else _) => destruct b
    end.
Qed.

Lemma step_wf st st' : well_formed st → step st st' → well_formed st'.
Proof.
  intros Hwf [p a E|w E|d E|E|k E|fl data dir b E|r Hr E|E].
  - by eapply addSection_wf.
  - by eapply handleActiveSectionUpdate_wf.
  - by eapply incrementActiveSection_wf.
  - by eapply removeActiveSection_wf.
  - by eapply handleKeyEvent_wf.
  - by eapply loadFromMosaicFileData_wf.
  - by eapply (preserves_done _ _ _ _ _ (wf_check_box_stateChanged r)).
  - by eapply (preserves_done _ _ _ _ _ wf_viewUpdate).
Qed.

Lemma reachable_wf st : reachable st → well_formed st.
Proof.
  induction 1 as [renderer|st st' _ IH Hstep]; [apply well_formed_init|].
  by eapply step_wf.
Qed.

(** ** Spin boxes and their values *)

Lemma round_half_even_comp q q' : (q == q')%Q → Py.round_half_even q = Py.round_half_even q'.
Proof.
  intros E. unfold Py.round_half_even.
  rewrite (Qfloor_comp _ _ E).
  assert ((q - inject_Z (Qfloor q') ?= 1 # 2)%Q = (q' - inject_Z (Qfloor q') ?= 1 # 2)%Q) as ->; [|done].
  apply Qcompare_comp; [|reflexivity]. by rewrite E.
Qed.

Lemma round_half_even_Z n : Py.round_half_even (inject_Z n) = n.
Proof.
  unfold Py.round_half_even. rewrite Qfloor_Z.
  assert ((inject_Z n - inject_Z n ?= 1 # 2)%Q = Lt) as ->; [|done].
  unfold Qcompare, Qminus, Qplus, Qopp, inject_Z. cbn.
  apply Z.compare_lt_iff. lia.
Qed.

Lemma centi_times_100 k : ((k # 100) * 100 == inject_Z k)%Q.
Proof. unfold Qeq, Qmult, inject_Z. cbn. lia. Qed.

Lemma round_centi q k : (q == k # 100)%Q → Py.round_half_even (q * 100) = k.
Proof.
  intros E. rewrite <- (round_half_even_Z k). apply round_half_even_comp.
  rewrite E. apply centi_times_100.
Qed.

Lemma setValue_centi q k b :
  (q == k # 100)%Q →
  SectionSpinBox.setValue q b
  = SectionSpinBox.mk (SectionSpinBox.lo b) (SectionSpinBox.hi b)
      (Qt.qBound (SectionSpinBox.lo b) k (SectionSpinBox.hi b)).
Proof. intros E. unfold SectionSpinBox.setValue. by rewrite (round_centi _ _ E). Qed.

Lemma qBound_within lo v hi : lo ≤ hi → lo ≤ Qt.qBound lo v hi ≤ hi.
Proof. unfold Qt.qBound. lia. Qed.

Lemma qBound_id lo v hi : lo ≤ v ≤ hi → Qt.qBound lo v hi = v.
Proof. unfold Qt.qBound. lia. Qed.

Lemma centi_plus a b : ((a # 100) + (b # 100) == (a + b) # 100)%Q.
Proof. unfold Qeq, Qplus. cbn. lia. Qed.

Lemma centi_lt a b : ((a # 100) < (b # 100))%Q ↔ a < b.
Proof. unfold Qlt. cbn. lia. Qed.

Lemma centi_le a b : ((a # 100) <= (b # 100))%Q ↔ a ≤ b.
Proof. unfold Qle. cbn. lia. Qed.

Lemma centi_one : (1 == 100 # 100)%Q.
Proof. done. Qed.


Lemma incrementAngle_centi direction c :
  SectionControls.angle_step c = 1%Q →
  let b := SectionControls.angle_spin_box c in
  SectionControls.incrementAngle direction c
  = SectionControls.with_angle_spin_box
      (SectionSpinBox.mk (SectionSpinBox.lo b) (SectionSpinBox.hi b)
         (turned direction (SectionSpinBox.lo b) (SectionSpinBox.hi b)
                 (SectionSpinBox.val b))) c.
Proof.
  intros Hstep b. unfold SectionControls.incrementAngle, turned. fold b.
  rewrite Hstep. unfold SectionSpinBox.value, SectionSpinBox.maximum, SectionSpinBox.minimum.
  set (lo := SectionSpinBox.lo b). set (hi := SectionSpinBox.hi b).
  set (v := SectionSpinBox.val b).
  assert (Hup : ((v # 100) + 1 == (v + 100) # 100)%Q) by (rewrite centi_one; apply centi_plus).
  assert (Hdown : ((v # 100) - 1 == (v - 100) # 100)%Q).
  { unfold Qminus, Qeq, Qplus, Qopp. cbn. lia. }
  destruct (Qlt_le_dec 0 direction).
  - destruct (Qlt_le_dec (hi # 100) ((v # 100) + 1)) as [H|H];
      unfold Qlt, Qle, Qplus in H; cbn in H.
    + rewrite decide_True by lia. f_equal. apply setValue_centi.
      unfold Qminus, Qeq, Qplus, Qopp. cbn. lia.
    + rewrite decide_False by lia. f_equal. apply setValue_centi, Hup.
  - destruct (Qlt_le_dec ((v # 100) - 1) (lo # 100)) as [H|H];
      unfold Qlt, Qle, Qminus, Qplus, Qopp in H; cbn in H.
    + rewrite decide_True by lia. f_equal. apply setValue_centi.
      unfold Qminus, Qeq, Qplus, Qopp. cbn. lia.
    + rewrite decide_False by lia. f_equal. apply setValue_centi, Hdown.
Qed.

(** ** The spin boxes stay within their bounds *)

Lemma setValue_within lo hi q b :
  lo ≤ hi → SectionSpinBox.lo b = lo → SectionSpinBox.hi b = hi →
  box_within lo hi (SectionSpinBox.setValue q b).
Proof.
  intros Hle Hlo Hhi. unfold box_within, SectionSpinBox.setValue. cbn.
  rewrite Hlo, Hhi. split; [done|]. split; [done|]. by apply qBound_within.
Qed.

Lemma init_within lo hi (l h v : Q) :
  lo ≤ hi → Py.round_half_even (l * 100) = lo → Py.round_half_even (h * 100) = hi →
  box_within lo hi (SectionSpinBox.init l h v).
Proof. intros Hle Hl Hh. unfold SectionSpinBox.init. by apply setValue_within. Qed.

Lemma controls_init_ok x_pos y_pos angle :
  controls_ok (SectionControls.init x_pos y_pos angle).
Proof. split; [done|apply init_within; done..]. Qed.

Lemma section_init_ok n x_pos y_pos angle :
  section_ok (Section.init n x_pos y_pos angle).
Proof. apply controls_init_ok. Qed.

Lemma keeps_ok_select : keeps_ok Section.select.
Proof. by intros s [? ? ? ?]. Qed.

Lemma keeps_ok_deselect : keeps_ok Section.deselect.
Proof. by intros s [? ? ? ?]. Qed.

Lemma keeps_ok_setSectionNumber i : keeps_ok (Section.setSectionNumber i).
Proof. by intros s [? ? ? ?]. Qed.

Lemma keeps_ok_incrementX d : keeps_ok (Section.incrementX d).
Proof.
  intros s [? [Hlo [Hhi ?]] ? ?]. split; try done.
  by apply setValue_within.
Qed.

Lemma keeps_ok_incrementY d : keeps_ok (Section.incrementY d).
Proof.
  intros s [? ? [Hlo [Hhi ?]] ?]. split; try done.
  by apply setValue_within.
Qed.

Lemma keeps_ok_incrementAngle d : keeps_ok (Section.incrementAngle d).
Proof.
  intros s [? ? ? [Hlo [Hhi ?]]].
  unfold section_ok, Section.incrementAngle, SectionControls.incrementAngle. cbn.
  repeat destruct (Qlt_le_dec _ _); (split; try done; by apply setValue_within).
Qed.

Lemma keeps_ok_check_box :
  keeps_ok (λ s, Section.with_controls
                   (SectionControls.with_check_box
                      (negb (SectionControls.check_box (Section.controls s)))
                      (Section.controls s)) s).
Proof. by intros s [? ? ? ?]. Qed.

#[local] Hint Resolve keeps_ok_select keeps_ok_deselect keeps_ok_setSectionNumber
  keeps_ok_incrementX keeps_ok_incrementY keeps_ok_incrementAngle
  keeps_ok_check_box section_init_ok : frame.

Lemma ok_modify g : (∀ st, heap (g st) = heap st) → preserves heap_ok (modify g).
Proof.
  intros Hg. apply preserves_modify. intros st. unfold heap_ok. by rewrite Hg.
Qed.

Lemma ok_update r f : keeps_ok f → preserves heap_ok (update r f).
Proof.
  intros Hf. apply preserves_update. intros st. unfold heap_ok. cbn.
  intros H. apply Forall_alter; [done|]. intros s _ Hs. by apply Hf.
Qed.

Lemma ok_new s : section_ok s → preserves heap_ok (new s).
Proof.
  intros Hs st. unfold heap_ok. cbn. intros H. apply Forall_app. split; [done|].
  by constructor.
Qed.

Lemma ok_renderSectionNumpy p a : preserves heap_ok (renderSectionNumpy p a).
Proof. by intros st. Qed.

Lemma ok_print line : preserves heap_ok (print line).
Proof. by apply ok_modify. Qed.

Lemma ok_setBackgroundPixmap p : preserves heap_ok (setBackgroundPixmap p).
Proof. by apply ok_modify. Qed.

Lemma ok_setForegroundPixmap p : preserves heap_ok (setForegroundPixmap p).
Proof. by apply ok_modify. Qed.

Lemma ok_with_sections f :
  preserves heap_ok (modify (λ st, with_sections (f st) st)).
Proof. by apply ok_modify. Qed.

Lemma ok_with_active_section a :
  preserves heap_ok (modify (with_active_section a)).
Proof. by apply ok_modify. Qed.

Lemma ok_with_numpy_files f :
  preserves heap_ok (modify (λ st, with_numpy_files (f st) st)).
Proof. by apply ok_modify. Qed.

#[local] Hint Resolve ok_update ok_new ok_renderSectionNumpy ok_print
  ok_setBackgroundPixmap ok_setForegroundPixmap ok_with_sections
  ok_with_active_section ok_with_numpy_files : frame.

Lemma ok_handleActiveSectionUpdate w :
  preserves heap_ok (handleActiveSectionUpdate w).
Proof. unfold handleActiveSectionUpdate. frame_rules. Qed.
#[local] Hint Resolve ok_handleActiveSectionUpdate : frame.

Lemma ok_addSection p a : preserves heap_ok (addSection p a).
Proof. unfold addSection. frame_rules. Qed.

Lemma ok_background_loop l : ∀ nb counts,
  preserves heap_ok (background_loop l nb counts).
Proof.
  induction l as [|r l IH]; intros nb counts; cbn [background_loop]; frame_rules.
Qed.
#[local] Hint Resolve ok_addSection ok_background_loop : frame.

Lemma ok_updateBackgroundPixmap : preserves heap_ok updateBackgroundPixmap.
Proof. unfold updateBackgroundPixmap. frame_rules. Qed.

Lemma ok_updateForegroundPixmap : preserves heap_ok updateForegroundPixmap.
Proof. unfold updateForegroundPixmap, renderSectionPixmap. frame_rules. Qed.
#[local] Hint Resolve ok_updateBackgroundPixmap ok_updateForegroundPixmap : frame.

Lemma ok_viewUpdate : preserves heap_ok viewUpdate.
Proof. unfold viewUpdate. frame_rules. Qed.

Lemma ok_handleSectionUpdate : preserves heap_ok handleSectionUpdate.
Proof. unfold handleSectionUpdate. frame_rules. Qed.
#[local] Hint Resolve ok_viewUpdate ok_handleSectionUpdate : frame.

Lemma ok_active_section_call m :
  keeps_ok m → preserves heap_ok (active_section_call m).
Proof. intros Hm. unfold active_section_call. frame_rules. Qed.

Lemma ok_incrementActiveSection d : preserves heap_ok (incrementActiveSection d).
Proof. unfold incrementActiveSection. frame_rules. Qed.

Lemma ok_loadFromMosaicFileData float data directory :
  preserves heap_ok (loadFromMosaicFileData float data directory).
Proof. unfold loadFromMosaicFileData. frame_rules. Qed.

Lemma ok_renumber l : ∀ i, preserves heap_ok (renumber i l).
Proof. induction l as [|r l IH]; intros i; cbn [renumber]; frame_rules. Qed.
#[local] Hint Resolve ok_active_section_call ok_incrementActiveSection
  ok_renumber : frame.

Lemma ok_removeActiveSection : preserves heap_ok removeActiveSection.
Proof. unfold removeActiveSection. frame_rules. Qed.

Lemma ok_saveSectionsNumpy_loop l : ∀ i,
  preserves heap_ok (saveSectionsNumpy_loop i l).
Proof.
  induction l as [|r l IH]; intros i; cbn [saveSectionsNumpy_loop]; frame_rules.
Qed.
#[local] Hint Resolve ok_removeActiveSection ok_saveSectionsNumpy_loop : frame.

Lemma ok_saveSectionsNumpy : preserves heap_ok saveSectionsNumpy.
Proof. unfold saveSectionsNumpy. frame_rules. Qed.
#[local] Hint Resolve ok_saveSectionsNumpy : frame.

Lemma ok_handleKeyEvent k : preserves heap_ok (handleKeyEvent k).
Proof. unfold handleKeyEvent. frame_rules. Qed.

Lemma ok_check_box_stateChanged r : preserves heap_ok (check_box_stateChanged r).
Proof. unfold check_box_stateChanged. frame_rules. Qed.

Lemma step_heap_ok st st' : heap_ok st → step st st' → heap_ok st'.
Proof.
  intros Hok [p a E|w E|d E|E|k E|fl data dir b E|r Hr E|E];
    eapply preserves_done; eauto;
    auto using ok_addSection, ok_handleActiveSectionUpdate,
      ok_incrementActiveSection, ok_removeActiveSection, ok_handleKeyEvent,
      ok_loadFromMosaicFileData, ok_check_box_stateChanged, ok_viewUpdate.
Qed.

Lemma reachable_heap_ok st : reachable st → heap_ok st.
Proof.
  induction 1 as [renderer|st st' _ IH Hstep]; [by constructor|].
  by eapply step_heap_ok.
Qed.

(** ** Strings: printing, splitting and reading numbers *)

Lemma append_assoc (a b c : string) : ((a ++ b) ++ c = a ++ (b ++ c))%string.
Proof. induction a as [|x a IH]; cbn; [done|by rewrite IH]. Qed.

Lemma chars_app (a b : string) : chars (a ++ b) = chars a ++ chars b.
Proof. induction a as [|x a IH]; cbn; [done|]. unfold chars in IH. by rewrite IH. Qed.

Lemma all_chars_app p a b :
  all_chars p a → all_chars p b → all_chars p (a ++ b).
Proof. unfold all_chars. rewrite chars_app. intros. by apply Forall_app. Qed.

Lemma all_chars_weaken (p q : ascii → bool) s :
  (∀ c, p c = true → q c = true) → all_chars p s → all_chars q s.
Proof.
  intros Hpq H. unfold all_chars in *. eapply Forall_impl; [exact H|exact Hpq].
Qed.

Lemma digits_string_of_uint d : all_chars is_digit (NilEmpty.string_of_uint d).
Proof. induction d; cbn; constructor; done. Qed.

Lemma NilZero_NilEmpty n :
  NilZero.string_of_uint (N.to_uint n) = NilEmpty.string_of_uint (N.to_uint n).
Proof.
  destruct n as [|p]; [done|]. cbn.
  pose proof (DecimalPos.Unsigned.to_uint_nonnil p). by destruct (Pos.to_uint p).
Qed.

Lemma digits_of_N n : all_chars is_digit (NilZero.string_of_uint (N.to_uint n)).
Proof. rewrite NilZero_NilEmpty. apply digits_string_of_uint. Qed.

Lemma of_N_nonempty n : chars (NilZero.string_of_uint (N.to_uint n)) ≠ [].
Proof.
  destruct n as [|p]; [done|]. cbn.
  pose proof (DecimalPos.Unsigned.to_uint_nonnil p). by destruct (Pos.to_uint p).
Qed.

Lemma digit_is_numeral c : is_digit c = true → is_numeral_char c = true.
Proof. unfold is_numeral_char. by intros ->. Qed.

Lemma numeral_str_int n : all_chars is_numeral_char (Py.str_int n).
Proof.
  unfold Py.str_int. destruct n as [|p|p]; cbn.
  - by repeat constructor.
  - pose proof (DecimalPos.Unsigned.to_uint_nonnil p).
    replace (NilZero.string_of_uint (Pos.to_uint p))
      with (NilEmpty.string_of_uint (Pos.to_uint p)) by (by destruct (Pos.to_uint p)).
    eapply all_chars_weaken; [apply digit_is_numeral|apply digits_string_of_uint].
  - pose proof (DecimalPos.Unsigned.to_uint_nonnil p).
    replace (NilZero.string_of_uint (Pos.to_uint p))
      with (NilEmpty.string_of_uint (Pos.to_uint p)) by (by destruct (Pos.to_uint p)).
    constructor; [done|].
    eapply all_chars_weaken; [apply digit_is_numeral|apply digits_string_of_uint].
Qed.

Lemma Z_below_100 r : 0 ≤ r < 100 → In r (Z.of_nat <$> seq 0 100).
Proof.
  intros Hr. apply in_map_iff. exists (Z.to_nat r). split; [lia|].
  apply in_seq. lia.
Qed.

Lemma frac_reads_back_all :
  forallb frac_reads_back (Z.of_nat <$> seq 0 100) = true.
Proof. vm_compute. reflexivity. Qed.

Lemma str_frac_spec r :
  0 ≤ r < 100 →
  ∃ f, Py.digits_value (chars (Py.str_frac r)) = Some f
       ∧ Z.of_N f * 100 = r * 10 ^ Z.of_nat (length (chars (Py.str_frac r)))
       ∧ all_chars is_digit (Py.str_frac r)
       ∧ chars (Py.str_frac r) ≠ [].
Proof.
  intros Hr.
  pose proof (proj1 (forallb_forall _ _) frac_reads_back_all r (Z_below_100 r Hr)) as H.
  unfold frac_reads_back in H.
  destruct (Py.digits_value (chars (Py.str_frac r))) as [f|]; [|done].
  apply andb_prop in H as [H Hlen]. apply andb_prop in H as [Hval Hdig].
  exists f. split; [done|]. split; [by apply Z.eqb_eq|]. split.
  - unfold all_chars. apply Forall_forall. intros c Hc.
    apply (proj1 (forallb_forall _ _) Hdig). by apply list_elem_of_In.
  - apply Z.ltb_lt in Hlen. intros E. rewrite E in Hlen. cbn in Hlen. lia.
Qed.

Lemma numeral_str_centi k : all_chars is_numeral_char (Py.str_centi k).
Proof.
  unfold Py.str_centi. apply all_chars_app; [destruct (k <? 0); by repeat constructor|].
  apply all_chars_app.
  { eapply all_chars_weaken; [apply digit_is_numeral|apply digits_of_N]. }
  constructor; [done|].
  destruct (str_frac_spec (Z.abs k mod 100)) as (f & _ & _ & Hd & _).
  { apply Z.mod_pos_bound. lia. }
  eapply all_chars_weaken; [apply digit_is_numeral|done].
Qed.

Lemma numeral_str_float x : all_chars is_numeral_char (Py.str_float x).
Proof. apply numeral_str_centi. Qed.

(** *** split *)

Lemma split_comma_free s :
  all_chars (λ c, negb (Ascii.eqb c ",")) s → Py.split_comma s = [s].
Proof.
  induction s as [|c s IH]; [done|]. intros H. inversion H as [|? ? Hc Hs]; subst.
  cbn. destruct (Ascii.eqb c ","); [done|]. by rewrite (IH Hs).
Qed.

Lemma split_comma_app s t :
  all_chars (λ c, negb (Ascii.eqb c ",")) s →
  Py.split_comma (s ++ String "," t) = s :: Py.split_comma t.
Proof.
  induction s as [|c s IH]; [done|]. intros H. inversion H as [|? ? Hc Hs]; subst.
  cbn. destruct (Ascii.eqb c ","); [done|]. by rewrite (IH Hs).
Qed.

Lemma numeral_no_comma c : is_numeral_char c = true → negb (Ascii.eqb c ",") = true.
Proof.
  destruct (Ascii.eqb_spec c ",") as [->|]; [|done]. by vm_compute.
Qed.

Lemma numeral_comma_free s :
  all_chars is_numeral_char s → all_chars (λ c, negb (Ascii.eqb c ",")) s.
Proof. apply all_chars_weaken, numeral_no_comma. Qed.

Lemma comma_free_CRLF s :
  all_chars is_numeral_char s →
  all_chars (λ c, negb (Ascii.eqb c ",")) (s ++ CRLF).
Proof.
  intros H. apply all_chars_app; [by apply numeral_comma_free|].
  by repeat constructor.
Qed.

(** The fields of the line that a section writes. *)
Lemma mosaic_line_fields s :
  Py.split_comma (Section.mosaic_line s)
  = [ "section"%string;
      Py.str_int (Section.getSectionNumber s);
      Py.str_float (coord.x_um (Section.getLocation s));
      Py.str_float (coord.y_um (Section.getLocation s));
      (Py.str_float (Section.getAngle s) ++ CRLF)%string ].
Proof.
  unfold Section.mosaic_line. cbn [coord.getUm String.concat].
  set (n := Py.str_int _). set (x := Py.str_float (coord.x_um _)).
  set (y := Py.str_float (coord.y_um _)). set (a := Py.str_float (Section.getAngle s)).
  change (String "013" (String "010" EmptyString)) with CRLF.
  rewrite !append_assoc.
  change ("section," ++ n ++ "," ++ x ++ "," ++ y ++ "," ++ a ++ CRLF)%string
    with ("section" ++ String "," (n ++ String "," (x ++ String ","
            (y ++ String "," (a ++ CRLF)))))%string.
  rewrite split_comma_app by (by repeat constructor).
  rewrite split_comma_app by apply numeral_comma_free, numeral_str_int.
  rewrite split_comma_app by apply numeral_comma_free, numeral_str_float.
  rewrite split_comma_app by apply numeral_comma_free, numeral_str_float.
  rewrite split_comma_free by apply comma_free_CRLF, numeral_str_float.
  done.
Qed.

(** *** float *)

Lemma lstrip_spaces ws cs :
  Forall (λ c, Py.is_space c = true) ws → Py.lstrip (ws ++ cs) = Py.lstrip cs.
Proof. induction 1 as [|c ws Hc _ IH]; [done|]. cbn. by rewrite Hc. Qed.

Lemma lstrip_clean c cs : Py.is_space c = false → Py.lstrip (c :: cs) = c :: cs.
Proof. intros H. cbn. by rewrite H. Qed.

Lemma strip_clean cs ws :
  cs ≠ [] →
  Forall (λ c, Py.is_space c = false) cs →
  Forall (λ c, Py.is_space c = true) ws →
  Py.strip (cs ++ ws) = cs.
Proof.
  intros Hne Hcs Hws. unfold Py.strip.
  destruct cs as [|c cs]; [done|]. inversion Hcs as [|? ? Hc Hcs']; subst.
  change ((c :: cs) ++ ws) with (c :: (cs ++ ws)).
  rewrite (lstrip_clean _ _ Hc).
  change (c :: (cs ++ ws)) with ((c :: cs) ++ ws).
  rewrite rev_app_distr, lstrip_spaces by (by apply Forall_rev).
  assert (Hrev : Forall (λ c, Py.is_space c = false) (rev (c :: cs)))
    by (by apply Forall_rev).
  destruct (rev (c :: cs)) as [|d ds] eqn:E.
  { apply (f_equal (@length _)) in E. rewrite length_rev in E. done. }
  inversion Hrev; subst. rewrite lstrip_clean by done.
  by rewrite <- E, rev_involutive.
Qed.

Lemma numeral_not_space c : is_numeral_char c = true → Py.is_space c = false.
Proof.
  destruct c as [[] [] [] [] [] [] [] []]; vm_compute; congruence.
Qed.

Lemma cut_point_digits cs fs :
  Forall (λ c, is_digit c = true) cs →
  Py.cut_point (cs ++ "."%char :: fs) = (cs, Some fs).
Proof.
  induction 1 as [|c cs Hc _ IH]; [done|]. cbn.
  destruct (Ascii.eqb_spec c ".") as [->|_]; [done|]. by rewrite IH.
Qed.

Lemma digits_value_of_N n :
  Py.digits_value (chars (NilZero.string_of_uint (N.to_uint n))) = Some n.
Proof.
  unfold Py.digits_value, chars. rewrite string_of_list_ascii_of_string.
  rewrite NilZero_NilEmpty, NilEmpty.usu. by rewrite DecimalN.Unsigned.of_to.
Qed.

(** The unsigned part of [str_centi] reads back as the number of
    hundredths. *)
Lemma unsigned_literal_centi k :
  0 ≤ k →
  ∃ q, Py.unsigned_literal
         (chars (NilZero.string_of_uint (N.to_uint (Z.to_N (k / 100)))
                 ++ "." ++ Py.str_frac (k mod 100)))
       = Some q ∧ (q == k # 100)%Q.
Proof.
  intros Hk.
  destruct (str_frac_spec (k mod 100)) as (f & Hf & Hval & Hdig & Hne).
  { apply Z.mod_pos_bound. lia. }
  rewrite chars_app. change (chars ("." ++ ?s)) with ("."%char :: chars s).
  unfold Py.unsigned_literal.
  rewrite cut_point_digits by apply digits_of_N.
  unfold default. cbn [from_option id]. rewrite digits_value_of_N, Hf.
  set (ip := chars (NilZero.string_of_uint _)).
  set (fp := chars (Py.str_frac _)) in *.
  assert (ip ≠ []) by apply of_N_nonempty.
  destruct ip as [|c0 ip0] eqn:Eip; [done|].
  eexists. split; [reflexivity|].
  set (S := 10 ^ Z.of_nat (length fp)) in *.
  assert (0 < S) by (apply Z.pow_pos_nonneg; lia).
  unfold Qeq. cbn [Qnum Qden]. rewrite Z2Pos.id by done.
  rewrite Z2N.id by (apply Z.div_pos; lia).
  pose proof (Z.div_mod k 100 ltac:(lia)) as Hdm.
  change (Z.pos 100) with 100. nia.
Qed.

Lemma str_centi_nonneg k :
  0 ≤ k →
  Py.str_centi k
  = (NilZero.string_of_uint (N.to_uint (Z.to_N (k / 100)))
       ++ "." ++ Py.str_frac (k mod 100))%string.
Proof.
  intros Hk. unfold Py.str_centi.
  replace (k <? 0) with false by (symmetry; apply Z.ltb_ge; lia).
  by rewrite Z.abs_eq.
Qed.

Lemma str_centi_neg k :
  k < 0 →
  Py.str_centi k
  = String "-" (NilZero.string_of_uint (N.to_uint (Z.to_N (Z.abs k / 100)))
                  ++ "." ++ Py.str_frac (Z.abs k mod 100))%string.
Proof.
  intros Hk. unfold Py.str_centi.
  by replace (k <? 0) with true by (symmetry; apply Z.ltb_lt; lia).
Qed.

Lemma str_centi_head k :
  0 ≤ k →
  ∃ c cs, chars (Py.str_centi k) = c :: cs ∧ is_digit c = true.
Proof.
  intros Hk. rewrite str_centi_nonneg by done. rewrite chars_app.
  pose proof (of_N_nonempty (Z.to_N (k / 100))) as Hne.
  pose proof (digits_of_N (Z.to_N (k / 100))) as Hd.
  unfold all_chars in Hd.
  destruct (chars (NilZero.string_of_uint _)) as [|c cs]; [done|].
  inversion Hd; subst. cbn. eauto.
Qed.

(** [float(str(x))] for a spin box value [x = k / 100], whatever blanks
    follow the text. *)
Lemma float_of_str_centi k ws :
  all_chars Py.is_space ws →
  ∃ q, Py.float_of_str (Py.str_centi k ++ ws) = Some q ∧ (q == k # 100)%Q.
Proof.
  intros Hws. unfold Py.float_of_str.
  change (list_ascii_of_string (Py.str_centi k ++ ws))
    with (chars (Py.str_centi k ++ ws)).
  rewrite chars_app, strip_clean; [| |by eapply Forall_impl; [apply numeral_str_centi|apply numeral_not_space] |done].
  2:{ unfold Py.str_centi. rewrite !chars_app. destruct (k <? 0); [done|]. cbn.
      pose proof (of_N_nonempty (Z.to_N (Z.abs k / 100))).
      by destruct (chars (NilZero.string_of_uint _)). }
  destruct (Z.ltb_spec k 0) as [Hneg|Hpos].
  - rewrite str_centi_neg by done.
    change (chars (String "-" ?s)) with ("-"%char :: chars s).
    change (Ascii.eqb "-" "-") with true. cbn iota.
    destruct (unsigned_literal_centi (Z.abs k)) as (q & -> & Hq); [lia|].
    eexists. split; [done|]. rewrite Hq. unfold Qeq, Qopp. cbn. lia.
  - destruct (str_centi_head k Hpos) as (c & cs & E & Hc). rewrite E.
    assert (Ascii.eqb c "-" = false) as ->.
    { destruct (Ascii.eqb_spec c "-") as [->|]; [by vm_compute in Hc|done]. }
    assert (Ascii.eqb c "+" = false) as ->.
    { destruct (Ascii.eqb_spec c "+") as [->|]; [by vm_compute in Hc|done]. }
    rewrite <- E, str_centi_nonneg by done.
    destruct (unsigned_literal_centi k Hpos) as (q & -> & Hq). eauto.
Qed.

(** ** Reading back a written line *)

Lemma append_empty (s : string) : (s ++ "")%string = s.
Proof. induction s as [|c s IH]; cbn; [done|by rewrite IH]. Qed.

Lemma str_float_value b :
  Py.str_float (SectionSpinBox.value b) = Py.str_centi (SectionSpinBox.val b).
Proof. unfold Py.str_float, SectionSpinBox.value. by rewrite (round_centi _ (SectionSpinBox.val b)). Qed.

Lemma float_str_value b ws :
  all_chars Py.is_space ws →
  ∃ q, Py.float_of_str (Py.str_float (SectionSpinBox.value b) ++ ws) = Some q
       ∧ (q == SectionSpinBox.value b)%Q.
Proof. rewrite str_float_value. apply float_of_str_centi. Qed.

Lemma init_reads_back lo hi (l h q : Q) b :
  Py.round_half_even (l * 100) = lo → Py.round_half_even (h * 100) = hi →
  box_within lo hi b →
  (q == SectionSpinBox.value b)%Q →
  SectionSpinBox.init l h q = b.
Proof.
  intros Hl Hh (Hlo & Hhi & Hv) Hq. unfold SectionSpinBox.init.
  rewrite (setValue_centi _ (SectionSpinBox.val b)) by done. cbn.
  rewrite Hl, Hh, qBound_id by done. destruct b. cbn in *. congruence.
Qed.

Lemma controls_init_reads_back c qx qy qa :
  controls_ok c →
  (qx == SectionSpinBox.value (SectionControls.x_spin_box c))%Q →
  (qy == SectionSpinBox.value (SectionControls.y_spin_box c))%Q →
  (qa == SectionSpinBox.value (SectionControls.angle_spin_box c))%Q →
  SectionControls.init qx qy qa
  = SectionControls.with_check_box false (SectionControls.with_selected false c).
Proof.
  intros [Hstep Hx Hy Ha] Ex Ey Ea. unfold SectionControls.init.
  rewrite (init_reads_back (-100000000) 100000000 (-(1000000))%Q 1000000%Q
             _ _ eq_refl eq_refl Hx Ex).
  rewrite (init_reads_back (-100000000) 100000000 (-(1000000))%Q 1000000%Q
             _ _ eq_refl eq_refl Hy Ey).
  rewrite (init_reads_back (-18000) 18000 (-(180))%Q 180%Q
             _ _ eq_refl eq_refl Ha Ea).
  unfold SectionControls.with_check_box, SectionControls.with_selected. cbn.
  by rewrite Hstep.
Qed.

Lemma load_written_line s directory st0 :
  section_ok s → well_formed st0 →
  ∃ st1 s1,
    loadFromMosaicFileData Py.float_of_str
      (Py.split_comma (Section.saveToMosaicFile s "")) directory st0
    = Done true st1
    ∧ sections st1 = sections st0 ++ [length (heap st0)]
    ∧ heap st1 !! length (heap st0) = Some s1
    ∧ Section.section_number s1 = Z.of_nat (length (sections st0))
    ∧ Section.getLocation s1 = Section.getLocation s
    ∧ Section.getAngle s1 = Section.getAngle s.
Proof.
  intros Hok Hwf.
  change (Section.saveToMosaicFile s "") with (Section.mosaic_line s).
  rewrite mosaic_line_fields. unfold loadFromMosaicFileData.
  set (c := Section.controls s).
  destruct (float_str_value (SectionControls.x_spin_box c) "") as (qx & Ex & Hx);
    [constructor|].
  destruct (float_str_value (SectionControls.y_spin_box c) "") as (qy & Ey & Hy);
    [constructor|].
  destruct (float_str_value (SectionControls.angle_spin_box c) CRLF) as (qa & Ea & Ha);
    [by repeat constructor|].
  rewrite append_empty in Ex, Ey.
  change (coord.x_um (Section.getLocation s))
    with (SectionSpinBox.value (SectionControls.x_spin_box c)).
  change (coord.y_um (Section.getLocation s))
    with (SectionSpinBox.value (SectionControls.y_spin_box c)).
  change (Section.getAngle s)
    with (SectionSpinBox.value (SectionControls.angle_spin_box c)).
  remember (Py.str_int (Section.getSectionNumber s)) as f1 eqn:E1.
  remember (Py.str_float (SectionSpinBox.value (SectionControls.x_spin_box c)))
    as f2 eqn:E2.
  remember (Py.str_float (SectionSpinBox.value (SectionControls.y_spin_box c)))
    as f3 eqn:E3.
  remember (Py.str_float (SectionSpinBox.value (SectionControls.angle_spin_box c))
              ++ CRLF)%string as f4 eqn:E4.
  rewrite bind_unfold.
  change (Py.index ["section"%string; f1; f2; f3; f4] 0) with (Some "section"%string).
  cbn [lift mret M_ret]. change ("section" =? "section")%string with true. cbn iota.
  rewrite bind_unfold.
  change (Py.index ["section"%string; f1; f2; f3; f4] 2) with (Some f2).
  cbn [lift mret M_ret]. rewrite bind_unfold, Ex. cbn [lift mret M_ret].
  rewrite bind_unfold.
  change (Py.index ["section"%string; f1; f2; f3; f4] 3) with (Some f3).
  cbn [lift mret M_ret]. rewrite bind_unfold, Ey. cbn [lift mret M_ret].
  rewrite bind_unfold.
  change (Py.index ["section"%string; f1; f2; f3; f4] 4) with (Some f4).
  cbn [lift mret M_ret]. rewrite bind_unfold, Ea. cbn [lift mret M_ret].
  rewrite bind_unfold.
  destruct (addSection_total (coord.mkPoint qx qy) qa st0 Hwf)
    as (st1 & -> & _ & Hs & _ & _ & s1 & Hs1 & Hnum & Hc).
  exists st1, s1. split; [done|]. split; [done|]. split; [done|]. split; [done|].
  cbn [coord.x_um coord.y_um] in Hc.
  rewrite (controls_init_reads_back c) in Hc by done.
  unfold Section.getLocation, Section.getAngle. by rewrite Hc.
Qed.

(** ** Loading a line *)

Lemma index_agree {A} (data data' : list A) (i : Z) :
  length data = length data' →
  (∀ j, j ≠ 1%nat → data !! j = data' !! j) →
  i = 0 ∨ 2 ≤ i →
  Py.index data i = Py.index data' i.
Proof.
  intros Hlen Hag Hi. unfold Py.index. rewrite Hlen.
  replace (i <? 0) with false by (symmetry; apply Z.ltb_ge; lia).
  rewrite andb_false_r. destruct (_ && _); [|done]. apply Hag. lia.
Qed.

Lemma load_agree float data data' directory st :
  length data = length data' →
  (∀ j, j ≠ 1%nat → data !! j = data' !! j) →
  loadFromMosaicFileData float data directory st
  = loadFromMosaicFileData float data' directory st.
Proof.
  intros Hlen Hag. unfold loadFromMosaicFileData.
  by rewrite !(index_agree data data' _ Hlen Hag) by lia.
Qed.

Lemma addSection_number a_point angle st st' :
  addSection a_point angle st = Done tt st' →
  sections st' = sections st ++ [length (heap st)]
  ∧ ∃ s, heap st' !! length (heap st) = Some s
         ∧ Section.section_number s = Z.of_nat (length (sections st)).
Proof.
  rewrite addSection_unfold. cbn zeta.
  set (s := Section.init _ _ _ _). set (st1 := with_sections _ _).
  assert (Hs : heap st1 !! length (heap st) = Some s).
  { cbn. rewrite lookup_app_r by lia. by rewrite Nat.sub_diag. }
  destruct (active_section st) as [act|] eqn:Ea.
  - intros E. inversion E; subst st'. split; [done|]. by exists s.
  - unfold handleActiveSectionUpdate. rewrite bind_unfold. cbn [get].
    change (active_section st1) with (active_section st). rewrite Ea.
    rewrite bind_unfold.
    destruct (Py.index (sections st1) 0) as [r|]; [|done]. cbn [lift mret M_ret].
    rewrite bind_unfold. cbn [modify]. unfold update. rewrite !bind_unfold.
    unfold deref.
    destruct (heap (with_active_section (Some r) st1) !! r) as [s0|] eqn:Er; [|done].
    cbn [lift mret M_ret modify]. intros E. inversion E; subst st'.
    split; [done|]. subst st1.
    cbn [heap with_heap with_active_section with_sections] in *.
    destruct (decide (r = length (heap st))) as [->|Hne].
    + rewrite list_lookup_alter_eq, Hs. by exists (Section.select s).
    + rewrite list_lookup_alter_ne by done. by exists s.
Qed.

Lemma load_number float data directory st st' :
  loadFromMosaicFileData float data directory st = Done true st' →
  sections st' = sections st ++ [length (heap st)]
  ∧ ∃ s, heap st' !! length (heap st) = Some s
         ∧ Section.section_number s = Z.of_nat (length (sections st)).
Proof.
  unfold loadFromMosaicFileData. rewrite bind_unfold.
  destruct (Py.index data 0) as [d0|]; [|done]. cbn [lift mret M_ret].
  destruct (d0 =? "section")%string; [|done].
  rewrite bind_unfold. destruct (Py.index data 2) as [d2|]; [|done].
  cbn [lift mret M_ret]. rewrite bind_unfold. destruct (float d2) as [x|]; [|done].
  cbn [lift mret M_ret]. rewrite bind_unfold. destruct (Py.index data 3) as [d3|]; [|done].
  cbn [lift mret M_ret]. rewrite bind_unfold. destruct (float d3) as [y|]; [|done].
  cbn [lift mret M_ret]. rewrite bind_unfold. destruct (Py.index data 4) as [d4|]; [|done].
  cbn [lift mret M_ret]. rewrite bind_unfold. destruct (float d4) as [a|]; [|done].
  cbn [lift mret M_ret]. rewrite bind_unfold.
  destruct (addSection _ _ st) as [[] st1|] eqn:E; [|done].
  intros E'. inversion E'; subst st'. by eapply addSection_number.
Qed.

(** ** The background composite *)

Lemma background_loop_unchecked l : ∀ nb counts st,
  (∀ r, r ∈ l → ∃ s, heap st !! r = Some s ∧ Section.isChecked s = false) →
  background_loop l nb counts st = Done (nb, counts) st.
Proof.
  induction l as [|r l IH]; intros nb counts st H; [done|].
  destruct (H r) as (s & Hs & Hc); [left|].
  cbn [background_loop]. rewrite bind_unfold, (deref_some _ _ _ Hs), Hc.
  apply IH. intros r' Hr'. apply H. by right.
Qed.

Lemma updateBackgroundPixmap_empty st :
  sections st = [] → updateBackgroundPixmap st = Done tt st.
Proof.
  intros E. unfold updateBackgroundPixmap. rewrite bind_unfold. cbn [get].
  by rewrite E.
Qed.

Lemma updateBackgroundPixmap_unchecked st :
  sections st ≠ [] →
  (∀ r, r ∈ sections st →
     ∃ s, heap st !! r = Some s ∧ Section.isChecked s = false) →
  updateBackgroundPixmap st
  = Done tt (with_background_pixmap SectionsView.PyFalse st).
Proof.
  intros Hne H. unfold updateBackgroundPixmap. rewrite bind_unfold. cbn [get].
  destruct (sections st) as [|r l] eqn:E; [done|]. cbn [length Nat.eqb].
  rewrite bind_unfold, background_loop_unchecked by done. reflexivity.
Qed.

(** A render without buffer that comes first is skipped: the composite is
    the average of the two renders that follow. *)
Example leading_failure_is_skipped :
  successful (late_renderer <$> [6; 7; 8]%nat)
    = [[90; 30; 255; 7]; [30; 90; 255; 9]]
  ∧ background_pixmap
      (final (updateBackgroundPixmap (three_checked_with late_renderer)))
    = SectionsView.Pixmap [60; 60; 255; 8].
Proof. split; vm_compute; reflexivity. Qed.

(** ** Keys on an empty collection *)

Lemma updateForegroundPixmap_inactive st :
  active_section st = None → updateForegroundPixmap st = Done tt st.
Proof.
  intros E. unfold updateForegroundPixmap. rewrite bind_unfold. cbn [get].
  by rewrite E.
Qed.

Lemma active_section_call_inactive m st :
  active_section st = None →
  active_section_call m st = Raised Py.AttributeError st.
Proof.
  intros E. unfold active_section_call. rewrite bind_unfold. cbn [get].
  by rewrite E.
Qed.

Lemma handleKeyEvent_nudge k st :
  k ∈ nudge_keys → active_section st = None →
  handleKeyEvent k st = Raised Py.AttributeError st.
Proof.
  intros Hk Ha. unfold nudge_keys in Hk.
  repeat (apply elem_of_cons in Hk as [->|Hk];
          [by apply active_section_call_inactive|]).
  by apply elem_of_nil in Hk.
Qed.

Lemma handleKeyEvent_other k st :
  k ∉ nudge_keys → active_section st = None → sections st = [] →
  handleKeyEvent k st = Done tt st.
Proof.
  intros Hk Ha Hs. unfold handleKeyEvent.
  assert (incrementActiveSection_none : ∀ d, incrementActiveSection d st = Done tt st).
  { intros d. unfold incrementActiveSection. rewrite bind_unfold. cbn [get].
    by rewrite Ha. }
  destruct (Z.eqb_spec k Qt.Key_Up); [done|].
  destruct (Z.eqb_spec k Qt.Key_Down); [done|].
  destruct (Z.eqb_spec k Qt.Key_W) as [->|_]; [destruct Hk; apply list_elem_of_In; cbn; tauto|].
  destruct (Z.eqb_spec k Qt.Key_S) as [->|_]; [destruct Hk; apply list_elem_of_In; cbn; tauto|].
  destruct (Z.eqb_spec k Qt.Key_A) as [->|_]; [destruct Hk; apply list_elem_of_In; cbn; tauto|].
  destruct (Z.eqb_spec k Qt.Key_D) as [->|_]; [destruct Hk; apply list_elem_of_In; cbn; tauto|].
  destruct (Z.eqb_spec k Qt.Key_Q) as [->|_]; [destruct Hk; apply list_elem_of_In; cbn; tauto|].
  destruct (Z.eqb_spec k Qt.Key_E) as [->|_]; [destruct Hk; apply list_elem_of_In; cbn; tauto|].
  destruct (Z.eqb_spec k Qt.Key_P).
  { unfold saveSectionsNumpy. rewrite bind_unfold. cbn [get]. by rewrite Hs. }
  destruct (Z.eqb_spec k Qt.Key_Delete).
  { rewrite bind_unfold. cbn [get]. by rewrite Ha. }
  destruct (Z.eqb_spec k Qt.Key_U); [|done].
  unfold viewUpdate. rewrite bind_unfold, updateBackgroundPixmap_empty by done.
  by apply updateForegroundPixmap_inactive.
Qed.

(** * The claims *)

Lemma call_reachable e st : reachable st → reachable (final (call e st)).
Proof.
  intros Hr. pose proof (reachable_wf _ Hr) as Hwf.
  destruct e as [p a|]; cbn [call].
  - destruct (addSection_total p a st Hwf) as (st' & E & _).
    rewrite E. eapply reachable_step; [done|]. by eapply step_addSection.
  - destruct (active_section st) as [act|] eqn:Ea.
    + destruct (wf_active_object _ _ Hwf Ea) as (k & a & Hk & _).
      destruct (removeActiveSection_total st act k Hwf Ea Hk) as (st' & E & _).
      rewrite E. eapply reachable_step; [done|]. by apply step_removeActiveSection.
    + by rewrite removeActiveSection_none.
Qed.

Lemma run_reachable es : ∀ st, reachable st → reachable (run es st).
Proof.
  induction es as [|e es IH]; intros st Hr; [done|].
  cbn. by apply IH, call_reachable.
Qed.

Lemma three_sections_reachable renderer : reachable (three_sections renderer).
Proof.
  apply (reachable_step (three_added renderer));
    [apply run_reachable, reachable_init|].
  apply (step_handleActiveSectionUpdate _ _ 1). vm_compute. reflexivity.
Qed.

Lemma active_number_position st k :
  well_formed st → active_number st = Some (Z.of_nat k) →
  ∃ act, active_section st = Some act ∧ sections st !! k = Some act.
Proof.
  intros Hwf Hk. unfold active_number in Hk.
  destruct (active_section st) as [act|] eqn:Ea; [|done]. cbn in Hk.
  destruct (wf_active_object _ _ Hwf Ea) as (k' & a & Hk' & Ha & Hnum).
  rewrite Ha in Hk. cbn in Hk. exists act. split; [done|].
  replace k with k' by (inversion Hk; lia). done.
Qed.

(** C2.  From every state that completed calls have led to, whichever
    section is then the active one, and after every sequence of [addSection]
    and [removeActiveSection] calls made from it, the [section_number]s of
    the sections of the collection are, in list order, exactly
    0, 1, ..., count - 1, and no section is listed twice.  Every beginning
    of a sequence is a sequence, so this holds after each operation. *)
Theorem section_numbers_after_edits st es :
  reachable st →
  let st' := run es st in
  section_numbers st' = dense (length (sections st'))
  ∧ NoDup (sections st').
Proof.
  intros Hr st'. pose proof (run_wf es st (reachable_wf _ Hr)) as Hwf.
  split; [by apply well_formed_numbers|apply Hwf].
Qed.

Lemma section_numbers_after_edits_witness :
  let st' := run [RemoveActiveSection; AddSection origin 45;
                  RemoveActiveSection; RemoveActiveSection]
                 (three_sections flaky_renderer) in
  section_numbers st' = dense (length (sections st'))
  ∧ NoDup (sections st').
Proof.
  apply (section_numbers_after_edits (three_sections flaky_renderer)
           [RemoveActiveSection; AddSection origin 45;
            RemoveActiveSection; RemoveActiveSection]).
  apply three_sections_reachable.
Defined.

(** C3.  In every state reached by completed calls of [addSection],
    [handleActiveSectionUpdate], [incrementActiveSection],
    [removeActiveSection] (and of the other methods that change the state),
    a non-empty collection has exactly one selected section, and it still
    has exactly one after one more completed call. *)
Theorem exactly_one_selected st :
  reachable st →
  (sections st ≠ [] → selected_count st = 1%nat)
  ∧ (∀ st', step st st' → sections st' ≠ [] → selected_count st' = 1%nat).
Proof.
  intros Hr. split.
  - by apply well_formed_selected, reachable_wf.
  - intros st' Hstep. apply well_formed_selected, reachable_wf.
    by eapply reachable_step.
Qed.

Lemma exactly_one_selected_witness :
  selected_count (three_sections flaky_renderer) = 1%nat.
Proof.
  apply (proj1 (exactly_one_selected (three_sections flaky_renderer)
                  (three_sections_reachable flaky_renderer))).
  intros E. vm_compute in E. inversion E.
Defined.

(** C7.  [removeActiveSection] removes the active section, numbered [k],
    from the list, leaves the remaining sections numbered 0 .. count - 1 and
    makes active the section now numbered [k - 1] when [k > 0], the one
    numbered 0 when [k = 0] and a section remains, and none when the
    collection is left empty. *)
Theorem removeActiveSection_reactivates st (k : nat) :
  reachable st → active_number st = Some (Z.of_nat k) →
  ∃ st', removeActiveSection st = Done tt st'
    ∧ sections st' = delete k (sections st)
    ∧ section_numbers st' = dense (length (sections st) - 1)
    ∧ active_number st'
      = (if decide (sections st' = []) then None
         else Some (if decide (0 < k)%nat then Z.of_nat k - 1 else 0))
    ∧ active_section st'
      = sections st' !! (if decide (0 < k)%nat then (k - 1)%nat else 0%nat).
Proof.
  intros Hr Hk. pose proof (reachable_wf _ Hr) as Hwf.
  destruct (active_number_position _ _ Hwf Hk) as (act & Ea & Hpos).
  destruct (removeActiveSection_total st act k Hwf Ea Hpos)
    as (st' & E & Hwf' & Hs & Ha & _).
  exists st'. split; [done|]. split; [done|].
  assert (Hidx : (if decide (0 < k)%nat then (k - 1)%nat else 0%nat) = Nat.pred k)
    by (case_decide; lia).
  split; [|split].
  - rewrite (well_formed_numbers _ Hwf'), Hs, length_delete by eauto. done.
  - rewrite <- Hs in Ha. unfold active_number. rewrite Ha.
    destruct (decide (sections st' = [])) as [->|Hne]; [by destruct (Nat.pred k)|].
    destruct Hwf' as [_ Hn Hact]. rewrite Ha in Hact.
    destruct (sections st' !! Nat.pred k) as [r|] eqn:El; [|done].
    destruct (Hn _ _ El) as (s & Hh & Hnum & _). cbn. rewrite Hh. cbn.
    rewrite Hnum. f_equal. case_decide; lia.
  - by rewrite Hidx, Hs.
Qed.

Lemma removeActiveSection_reactivates_witness :
  ∃ st', removeActiveSection (three_sections flaky_renderer) = Done tt st'
    ∧ length (sections st') = 2%nat
    ∧ section_numbers st' = [Some 0; Some 1]
    ∧ active_number st' = Some 0.
Proof.
  destruct (removeActiveSection_reactivates (three_sections flaky_renderer) 1)
    as (st' & E & Hs & Hn & Ha & _).
  - apply three_sections_reachable.
  - reflexivity.
  - exists st'. split; [exact E|]. rewrite Hs in Ha. rewrite Hs, Hn.
    split; [reflexivity|]. split; [reflexivity|]. exact Ha.
Defined.

(** C1.  Evaluation at a failing input.  Three sections are checked for the
    background; of the three renders of one [updateBackgroundPixmap] call
    the second has no buffer.  The method returns, and the composite it shows
    is the sum of the two good renders divided by three, not their average:
    a failed render that comes after a good one adds nothing to the sum but
    is counted. *)
Theorem failed_render_is_counted :
  let renders := flaky_renderer <$> [6; 7; 8]%nat in
  Forall (λ o : option Section.t, Section.isChecked <$> o = Some true)
           (section_objects three_checked)
  ∧ render_calls three_checked = 6%nat
  ∧ successful renders = [[90; 30; 255; 7]; [30; 90; 255; 9]]
  ∧ average_of (successful renders) = Some [60; 60; 255; 8]
  ∧ ∃ st', updateBackgroundPixmap three_checked = Done tt st'
           ∧ background_pixmap st' = SectionsView.Pixmap [40; 40; 170; 5].
Proof.
  cbn zeta. split; [by repeat constructor|].
  split; [reflexivity|]. split; [reflexivity|]. split; [reflexivity|].
  exists (final (updateBackgroundPixmap three_checked)).
  split; vm_compute; reflexivity.
Qed.

(** C6.  Evaluation at a failing input.  With no section and nothing active,
    each of the keys W, S, A, D, Q and E makes [handleKeyEvent] raise
    [AttributeError] (the state is left as it was); the other keys, the
    arrows, Delete, P and U among them, return and change nothing. *)
Theorem nudge_key_raises_when_empty st :
  let st0 := emptied st in
  Forall (λ k, handleKeyEvent k st0 = Raised Py.AttributeError st0) nudge_keys
  ∧ Forall (λ k, handleKeyEvent k st0 = Done tt st0)
           [Qt.Key_Up; Qt.Key_Down; Qt.Key_Delete; Qt.Key_P; Qt.Key_U].
Proof.
  cbn zeta. split.
  - apply Forall_forall. intros k Hk. by apply handleKeyEvent_nudge.
  - apply Forall_forall. intros k Hk. apply handleKeyEvent_other; [|done..].
    intros Hn. unfold nudge_keys in Hn.
    repeat (apply elem_of_cons in Hk as [->|Hk];
            [repeat (apply elem_of_cons in Hn as [Hn|Hn]; [done|]);
             by apply elem_of_nil in Hn|]).
    by apply elem_of_nil in Hk.
Qed.

(** C4, as stated, fails: the line of a section numbered 5 at (1.25, -3.5),
    turned by 33 degrees, is not the tag followed by three numbers; split at
    the commas it has five fields, the second being the section number. *)
Lemma line_has_section_number :
  Section.saveToMosaicFile sample_section ""
    = ("section,5,1.25,-3.5,33.0" ++ CRLF)%string
  ∧ Section.saveToMosaicFile sample_section ""
    ≠ line_of_three_fields sample_section
  ∧ length (Py.split_comma (Section.saveToMosaicFile sample_section "")) = 5%nat.
Proof.
  split; [vm_compute; reflexivity|].
  split; [intros E; vm_compute in E; discriminate E|vm_compute; reflexivity].
Qed.

(** C4, amended.  For every section, [saveToMosaicFile] appends to the file
    one line which, split at the commas, has exactly five fields: the tag
    [section], the section number, x in micrometres, y in micrometres and
    the angle in degrees followed by CR LF; no field holds a comma, a blank
    or a line end of its own. *)
Theorem saveToMosaicFile_line s filep :
  ∃ line,
    Section.saveToMosaicFile s filep = (filep ++ line)%string
    ∧ Py.split_comma line
      = [ "section"%string;
          Py.str_int (Section.getSectionNumber s);
          Py.str_float (coord.x_um (Section.getLocation s));
          Py.str_float (coord.y_um (Section.getLocation s));
          (Py.str_float (Section.getAngle s) ++ CRLF)%string ]
    ∧ all_chars is_numeral_char (Py.str_int (Section.getSectionNumber s))
    ∧ all_chars is_numeral_char
        (Py.str_float (coord.x_um (Section.getLocation s)))
    ∧ all_chars is_numeral_char
        (Py.str_float (coord.y_um (Section.getLocation s)))
    ∧ all_chars is_numeral_char (Py.str_float (Section.getAngle s)).
Proof.
  exists (Section.mosaic_line s). split; [reflexivity|].
  split; [apply mosaic_line_fields|].
  auto using numeral_str_int, numeral_str_float.
Qed.

(** C5.  A section of a reachable collection is written with
    [saveToMosaicFile]; the fields of the written line, split at the commas,
    are given to [loadFromMosaicFileData] of any reachable [Sections].  The
    call returns [True] and appends one section, whose location and angle
    are those of the section written. *)
Theorem mosaic_line_round_trip st r s st0 directory :
  reachable st → r ∈ sections st → heap st !! r = Some s →
  reachable st0 →
  ∃ st1 r1 s1,
    loadFromMosaicFileData Py.float_of_str
      (Py.split_comma (Section.saveToMosaicFile s "")) directory st0
    = Done true st1
    ∧ sections st1 = sections st0 ++ [r1]
    ∧ heap st1 !! r1 = Some s1
    ∧ coord.getUm (Section.getLocation s1) = coord.getUm (Section.getLocation s)
    ∧ Section.getAngle s1 = Section.getAngle s.
Proof.
  intros Hr _ Hs Hr0.
  assert (Hok : section_ok s).
  { exact (Forall_lookup_1 _ _ _ _ (reachable_heap_ok _ Hr) Hs). }
  destruct (load_written_line s directory st0 Hok (reachable_wf _ Hr0))
    as (st1 & s1 & E & Hl & Hs1 & _ & Hloc & Hang).
  exists st1, (length (heap st0)), s1. by rewrite Hloc.
Qed.

Lemma mosaic_line_round_trip_witness :
  ∃ st1 r1 s1,
    loadFromMosaicFileData Py.float_of_str
      (Py.split_comma
         (Section.saveToMosaicFile
            (Section.select (Section.init 1 10 0 90)) ""))
      "" (init flaky_renderer)
    = Done true st1
    ∧ sections st1 = [r1]
    ∧ heap st1 !! r1 = Some s1
    ∧ coord.getUm (Section.getLocation s1) = (1000 # 100, 0 # 100)%Q
    ∧ Section.getAngle s1 = (9000 # 100)%Q.
Proof.
  destruct (mosaic_line_round_trip (three_sections flaky_renderer) 1%nat
              (Section.select (Section.init 1 10 0 90))
              (init flaky_renderer) "")
    as (st1 & r1 & s1 & E & Hs & Hh & Hloc & Hang).
  - apply three_sections_reachable.
  - apply list_elem_of_In. vm_compute. tauto.
  - vm_compute. reflexivity.
  - apply reachable_init.
  - exists st1, r1, s1. split; [exact E|]. split; [exact Hs|].
    split; [exact Hh|]. split; [|exact Hang].
    rewrite Hloc. reflexivity.
Defined.

(** C8, as stated, fails: from -179 degrees, within the range of the box, a
    decrement leaves -180 degrees, which is not within (-180, 180]. *)
Lemma decrement_reaches_minus_180 :
  let c := controls_at (- (179)) in
  let c' := SectionControls.incrementAngle (- (1)) c in
  (- (180) <= SectionControls.currentAngle c <= 180)%Q
  ∧ SectionControls.currentAngle c' = (-18000 # 100)%Q
  ∧ ¬ (- (180) < SectionControls.currentAngle c')%Q.
Proof.
  cbn zeta. split; [split; vm_compute; discriminate|].
  split; [vm_compute; reflexivity|].
  intros H. vm_compute in H. discriminate H.
Qed.

(** C8, amended.  [incrementAngle] wraps rather than clamps, and the angle
    stays within the closed range [-180, 180] of the box: for an angle [v]
    (in hundredths of a degree) an increment leaves [v + 100], less 360
    degrees when that exceeds 180 degrees, and a decrement leaves [v - 100],
    plus 360 degrees when that is below -180 degrees.  From 179 degrees an
    increment gives 180 degrees; from -180 degrees a decrement gives 179
    degrees. *)
Theorem incrementAngle_wraps c direction :
  controls_ok c →
  let c' := SectionControls.incrementAngle direction c in
  let v := SectionSpinBox.val (SectionControls.angle_spin_box c) in
  let v' := SectionSpinBox.val (SectionControls.angle_spin_box c') in
  SectionControls.currentAngle c' = (v' # 100)%Q
  ∧ -18000 ≤ v' ≤ 18000
  ∧ ((0 < direction)%Q →
       v' = if decide (18000 < v + 100) then v + 100 - 36000 else v + 100)
  ∧ ((direction <= 0)%Q →
       v' = if decide (v - 100 < -18000) then v - 100 + 36000 else v - 100)
  ∧ ((0 < direction)%Q → v = 17900 → v' = 18000)
  ∧ ((direction <= 0)%Q → v = -18000 → v' = 17900).
Proof.
  intros [Hstep _ _ (Hlo & Hhi & Hv)]. cbn zeta.
  rewrite (incrementAngle_centi direction c Hstep). cbn zeta.
  cbn [SectionControls.angle_spin_box SectionControls.with_angle_spin_box
       SectionSpinBox.val SectionControls.currentAngle SectionSpinBox.value].
  rewrite Hlo, Hhi. unfold turned.
  set (v := SectionSpinBox.val (SectionControls.angle_spin_box c)) in *.
  split; [reflexivity|].
  destruct (Qlt_le_dec 0 direction) as [Hd|Hd].
  - assert (¬ (direction <= 0)%Q) as Hn by (by apply Qlt_not_le).
    destruct (decide (18000 < v + 100)); rewrite qBound_id by lia;
      repeat split; try lia; try done; intros; lia.
  - assert (¬ (0 < direction)%Q) as Hn by (by apply Qle_not_lt).
    destruct (decide (v - 100 < -18000)); rewrite qBound_id by lia;
      repeat split; try lia; try done; intros; lia.
Qed.

Lemma incrementAngle_wraps_witness :
  SectionSpinBox.val
    (SectionControls.angle_spin_box
       (SectionControls.incrementAngle 1 (controls_at 179))) = 18000
  ∧ SectionSpinBox.val
      (SectionControls.angle_spin_box
         (SectionControls.incrementAngle (- (1)) (controls_at (- (180)))))
    = 17900.
Proof.
  split.
  - apply (incrementAngle_wraps (controls_at 179) 1).
    + apply controls_init_ok.
    + vm_compute. reflexivity.
    + vm_compute. reflexivity.
  - apply (incrementAngle_wraps (controls_at (- (180))) (- (1))).
    + apply controls_init_ok.
    + vm_compute. discriminate.
    + vm_compute. reflexivity.
Defined.

Lemma one_shown_reachable : reachable one_shown.
Proof.
  apply (reachable_step (run [AddSection origin 0] (init flaky_renderer)));
    [apply run_reachable, reachable_init|].
  apply (step_check_box _ _ 0%nat).
  - apply list_elem_of_In. vm_compute. tauto.
  - vm_compute. reflexivity.
Qed.

(** C9, as stated, fails on an empty collection.  A checked section is
    added and shown in the background, then removed; no section is left to
    qualify, and [updateBackgroundPixmap] returns with the composite of the
    removed section still in place. *)
Lemma stale_background_is_kept :
  reachable stale_background
  ∧ sections stale_background = []
  ∧ ∃ st', updateBackgroundPixmap stale_background = Done tt st'
           ∧ background_pixmap st' = SectionsView.Pixmap [90; 30; 255; 7]
           ∧ SectionsView.truth (background_pixmap st') = true.
Proof.
  split.
  { apply (reachable_step one_shown); [apply one_shown_reachable|].
    apply step_removeActiveSection. vm_compute. reflexivity. }
  split; [vm_compute; reflexivity|].
  exists (final (updateBackgroundPixmap stale_background)).
  repeat split; vm_compute; reflexivity.
Qed.

(** C9, amended.  When no section of a non-empty collection is checked for
    the background, [updateBackgroundPixmap] returns and the background
    pixmap of the view is [False], which is drawn as no pixmap; nothing else
    changes.  On an empty collection the method returns at once and leaves
    the state, the background pixmap included, as it was. *)
Theorem updateBackgroundPixmap_nothing_checked st :
  (∀ r, r ∈ sections st →
     ∃ s, heap st !! r = Some s ∧ Section.isChecked s = false) →
  updateBackgroundPixmap st
  = Done tt (if decide (sections st = []) then st
             else with_background_pixmap SectionsView.PyFalse st)
  ∧ (sections st ≠ [] →
     SectionsView.truth
       (background_pixmap (final (updateBackgroundPixmap st))) = false).
Proof.
  intros H. destruct (decide (sections st = [])) as [E|Hne].
  - split; [by apply updateBackgroundPixmap_empty|done].
  - rewrite updateBackgroundPixmap_unchecked by done. done.
Qed.

Lemma updateBackgroundPixmap_nothing_checked_witness :
  background_pixmap
    (final (updateBackgroundPixmap (three_sections flaky_renderer)))
  = SectionsView.PyFalse.
Proof.
  destruct (updateBackgroundPixmap_nothing_checked
              (three_sections flaky_renderer)) as [E _].
  - intros r Hr. apply list_elem_of_In in Hr. vm_compute in Hr.
    destruct Hr as [<-|[<-|[<-|[]]]]; eexists; split; vm_compute; reflexivity.
  - rewrite E. vm_compute. reflexivity.
Defined.

(** C10.  [loadFromMosaicFileData] does not read the second field of a
    line: two lists of fields of the same length that agree everywhere but
    at index 1 give the same result and the same state.  When the call
    returns [True], one section has been appended and its number is the
    length the collection had before the call. *)
Theorem load_ignores_section_number float data data' directory st :
  length data = length data' →
  (∀ j, j ≠ 1%nat → data !! j = data' !! j) →
  loadFromMosaicFileData float data directory st
  = loadFromMosaicFileData float data' directory st
  ∧ ∀ st', loadFromMosaicFileData float data directory st = Done true st' →
      ∃ r s, sections st' = sections st ++ [r]
             ∧ heap st' !! r = Some s
             ∧ Section.section_number s = Z.of_nat (length (sections st)).
Proof.
  intros Hlen Hag. split; [by apply load_agree|].
  intros st' E. destruct (load_number _ _ _ _ _ E) as (Hs & s & Hh & Hn).
  by exists (length (heap st)), s.
Qed.

Lemma load_ignores_section_number_witness :
  let st := three_sections flaky_renderer in
  let data := ["section"; "7"; "1.5"; "2"; "30"]%string in
  let data' := ["section"; "0"; "1.5"; "2"; "30"]%string in
  loadFromMosaicFileData Py.float_of_str data "" st
  = loadFromMosaicFileData Py.float_of_str data' "" st
  ∧ ∃ r s, sections (final (loadFromMosaicFileData Py.float_of_str data "" st))
           = sections st ++ [r]
           ∧ heap (final (loadFromMosaicFileData Py.float_of_str data "" st)) !! r
             = Some s
           ∧ Section.section_number s = 3.
Proof.
  cbn zeta.
  destruct (load_ignores_section_number Py.float_of_str
              ["section"; "7"; "1.5"; "2"; "30"]%string
              ["section"; "0"; "1.5"; "2"; "30"]%string
              "" (three_sections flaky_renderer)) as [E H].
  - reflexivity.
  - intros [|[|j]] Hj; [reflexivity|lia|reflexivity].
  - split; [exact E|].
    apply (H (final (loadFromMosaicFileData Py.float_of_str
                       ["section"; "7"; "1.5"; "2"; "30"]%string ""
                       (three_sections flaky_renderer)))).
    vm_compute. reflexivity.
Defined.

(** * Further properties of the code *)

(** ** Methods that leave the collection alone *)

Lemma same_modify h l a g :
  same_collection g → preserves (collection_is h l a) (modify g).
Proof.
  intros Hg. apply preserves_modify. intros st (? & ? & ?).
  destruct (Hg st) as (E1 & E2 & E3). unfold collection_is.
  by rewrite E1, E2, E3.
Qed.

Lemma same_renderSectionNumpy h l a p q :
  preserves (collection_is h l a) (renderSectionNumpy p q).
Proof. by intros st. Qed.

Lemma same_print h l a line : preserves (collection_is h l a) (print line).
Proof. by apply same_modify. Qed.

Lemma same_setBackgroundPixmap h l a p :
  preserves (collection_is h l a) (setBackgroundPixmap p).
Proof. by apply same_modify. Qed.

Lemma same_setForegroundPixmap h l a p :
  preserves (collection_is h l a) (setForegroundPixmap p).
Proof. by apply same_modify. Qed.

#[local] Hint Resolve same_renderSectionNumpy same_print
  same_setBackgroundPixmap same_setForegroundPixmap : frame.

Lemma same_background_loop h l a refs : ∀ nb counts,
  preserves (collection_is h l a) (background_loop refs nb counts).
Proof.
  induction refs as [|r refs IH]; intros nb counts; cbn [background_loop];
    frame_rules.
Qed.
#[local] Hint Resolve same_background_loop : frame.

Lemma same_updateBackgroundPixmap h l a :
  preserves (collection_is h l a) updateBackgroundPixmap.
Proof. unfold updateBackgroundPixmap. frame_rules. Qed.

Lemma same_updateForegroundPixmap h l a :
  preserves (collection_is h l a) updateForegroundPixmap.
Proof. unfold updateForegroundPixmap, renderSectionPixmap. frame_rules. Qed.
#[local] Hint Resolve same_updateBackgroundPixmap
  same_updateForegroundPixmap : frame.

Lemma same_viewUpdate h l a : preserves (collection_is h l a) viewUpdate.
Proof. unfold viewUpdate. frame_rules. Qed.

Lemma same_handleSectionUpdate h l a :
  preserves (collection_is h l a) handleSectionUpdate.
Proof. unfold handleSectionUpdate. frame_rules. Qed.

(** ** Moving the selection *)

Lemma index_in_range {A} (l : list A) (i : Z) :
  - Z.of_nat (length l) ≤ i < Z.of_nat (length l) →
  Py.index l i = l !! Z.to_nat (i mod Z.of_nat (length l))
  ∧ is_Some (l !! Z.to_nat (i mod Z.of_nat (length l))).
Proof.
  intros Hi. set (n := Z.of_nat (length l)) in *.
  assert (0 ≤ i mod n < n) by (apply Z.mod_pos_bound; lia).
  split; [|apply lookup_lt_is_Some; lia].
  unfold Py.index. fold n. destruct (Z.leb_spec 0 i).
  - replace (i <? n) with true by (symmetry; apply Z.ltb_lt; lia). cbn.
    by rewrite Z.mod_small by lia.
  - cbn. replace (- n <=? i) with true by (symmetry; apply Z.leb_le; lia).
    replace (i <? 0) with true by (symmetry; apply Z.ltb_lt; lia). cbn.
    f_equal. f_equal. rewrite <- (Z.mod_small (n + i) n) at 1 by lia.
    replace (n + i) with (i + 1 * n) by lia. apply Z_mod_plus_full.
Qed.

Lemma index_out_of_range {A} (l : list A) (i : Z) :
  i < - Z.of_nat (length l) ∨ Z.of_nat (length l) ≤ i →
  Py.index l i = None.
Proof.
  intros Hi. unfold Py.index.
  destruct (Z.leb_spec 0 i), (Z.ltb_spec i (Z.of_nat (length l))),
    (Z.leb_spec (- Z.of_nat (length l)) i), (Z.ltb_spec i 0); cbn; try done; lia.
Qed.

Lemma active_number_at st j r :
  well_formed st → active_section st = Some r → sections st !! j = Some r →
  active_number st = Some (Z.of_nat j).
Proof.
  intros [_ Hn _] Ea Hj. destruct (Hn j r Hj) as (s & Hs & Hnum & _).
  unfold active_number. rewrite Ea. cbn. rewrite Hs. cbn. by rewrite Hnum.
Qed.

Lemma active_number_some st k :
  well_formed st → active_number st = Some k →
  0 ≤ k < Z.of_nat (length (sections st))
  ∧ ∃ act a, active_section st = Some act
             ∧ sections st !! Z.to_nat k = Some act
             ∧ heap st !! act = Some a ∧ Section.section_number a = k.
Proof.
  intros Hwf Hk. unfold active_number in Hk.
  destruct (active_section st) as [act|] eqn:Ea; [|done]. cbn in Hk.
  destruct (wf_active_object _ _ Hwf Ea) as (j & a & Hj & Ha & Hnum).
  rewrite Ha in Hk. cbn in Hk. inversion Hk; subst k.
  pose proof (lookup_lt_Some _ _ _ Hj). rewrite Hnum. split; [lia|].
  exists act, a. by rewrite Nat2Z.id.
Qed.

Lemma nonempty_active st :
  well_formed st → sections st ≠ [] → ∃ k, active_number st = Some k.
Proof.
  intros Hwf Hne. destruct (active_section st) as [act|] eqn:Ea.
  - destruct (wf_active_object _ _ Hwf Ea) as (j & a & Hj & _).
    exists (Z.of_nat j). by eapply active_number_at.
  - destruct Hwf as [_ _ Ha]. by rewrite Ea in Ha.
Qed.

Lemma selected_flags_active st act :
  well_formed st → active_section st = Some act →
  selected_flags st = (λ r, Some (bool_decide (r = act))) <$> sections st.
Proof.
  intros Hwf Ea. unfold selected_flags, section_objects.
  rewrite <- list_fmap_compose. apply list_fmap_ext. intros i r Hi. cbn.
  destruct (wf_numbered _ Hwf i r Hi) as (s & -> & _ & Hsel). cbn.
  rewrite Hsel, Ea. f_equal. apply bool_decide_ext. split; congruence.
Qed.

Lemma selected_flags_number st k :
  well_formed st → active_number st = Some k →
  selected_flags st = only_at k (length (sections st)).
Proof.
  intros Hwf Hk.
  destruct (active_number_some st k Hwf Hk)
    as (Hrange & act & a & Ea & Hpos & _).
  rewrite (selected_flags_active st act Hwf Ea). unfold only_at.
  apply list_eq. intros i. rewrite !list_lookup_fmap.
  destruct (sections st !! i) as [r|] eqn:Hi.
  - rewrite lookup_seq_lt by (by eapply lookup_lt_Some). cbn. do 2 f_equal.
    apply bool_decide_ext. split.
    + intros ->.
      assert (i = Z.to_nat k)
        by (by eapply NoDup_lookup; [apply (wf_distinct _ Hwf)| |]).
      lia.
    + intros <-. rewrite Nat2Z.id in Hpos. congruence.
  - apply lookup_ge_None in Hi. by rewrite lookup_seq_ge.
Qed.

Lemma handleActiveSectionUpdate_spec st which :
  well_formed st →
  - Z.of_nat (length (sections st)) ≤ which < Z.of_nat (length (sections st)) →
  ∃ st', handleActiveSectionUpdate which st = Done tt st'
    ∧ well_formed st'
    ∧ sections st' = sections st
    ∧ active_number st' = Some (which mod Z.of_nat (length (sections st)))
    ∧ (active_number st = Some which → st' = st).
Proof.
  intros Hwf Hi. destruct (index_in_range (sections st) which Hi) as [Ei [r Hr]].
  rewrite Hr in Ei.
  assert (Hne : sections st ≠ []) by (intros E; rewrite E in Hi; cbn in Hi; lia).
  destruct (nonempty_active st Hwf Hne) as [k Hk].
  destruct (active_number_some st k Hwf Hk) as (Hkr & act & a & Ea & Hpos & Ha & Hnum).
  destruct (decide (k = which)) as [->|Hne'].
  - exists st. rewrite <- Hnum at 1. rewrite (activate_same _ _ _ Ea Ha).
    split; [done|]. split; [done|]. split; [done|].
    split; [by rewrite Z.mod_small by lia|done].
  - destruct (numbered_valid _ _ _ r (wf_numbered _ Hwf)) as [s Hs];
      [by eapply list_elem_of_lookup_2|].
    assert (E : handleActiveSectionUpdate which st
                = Done tt (with_heap (alter Section.select r
                                        (alter Section.deselect act (heap st)))
                             (with_active_section (Some r) st))).
    { eapply activate_some; eauto. congruence. }
    eexists. split; [exact E|].
    pose proof (handleActiveSectionUpdate_wf _ _ _ Hwf E) as Hwf'.
    split; [done|]. split; [done|]. split.
    + rewrite (active_number_at _ _ r Hwf' eq_refl Hr).
      f_equal. apply Z2Nat.id. apply Z.mod_pos_bound. lia.
    + intros E'. rewrite Hk in E'. congruence.
Qed.

(** X1.  [handleActiveSectionUpdate] with an index that Python accepts for
    the list, negative ones included, returns; the collection is unchanged,
    the section at that index (counted from the end when negative) is the
    active one, it is selected and no other section is, and nothing changes
    at all when it was active already. *)
Theorem handleActiveSectionUpdate_activates st which :
  reachable st →
  - Z.of_nat (length (sections st)) ≤ which < Z.of_nat (length (sections st)) →
  ∃ st', handleActiveSectionUpdate which st = Done tt st'
    ∧ sections st' = sections st
    ∧ active_number st' = Some (which mod Z.of_nat (length (sections st)))
    ∧ selected_count st' = 1%nat
    ∧ selected_flags st'
      = only_at (which mod Z.of_nat (length (sections st)))
                (length (sections st))
    ∧ (active_number st = Some which → st' = st).
Proof.
  intros Hr Hi.
  destruct (handleActiveSectionUpdate_spec st which (reachable_wf _ Hr) Hi)
    as (st' & E & Hwf' & Hs & Ha & Hsame).
  exists st'. split; [done|]. split; [done|]. split; [done|]. split; [|split].
  - apply well_formed_selected; [done|]. rewrite Hs. intros E'.
    rewrite E' in Hi. cbn in Hi. lia.
  - rewrite <- Hs in Ha |- *. by apply selected_flags_number.
  - done.
Qed.

Lemma handleActiveSectionUpdate_activates_witness :
  ∃ st', handleActiveSectionUpdate (-1) (three_sections flaky_renderer)
         = Done tt st'
         ∧ active_number st' = Some 2
         ∧ selected_flags st' = [Some false; Some false; Some true].
Proof.
  destruct (handleActiveSectionUpdate_activates
              (three_sections flaky_renderer) (-1))
    as (st' & E & _ & Ha & _ & Hf & _).
  - apply three_sections_reachable.
  - change (length (sections (three_sections flaky_renderer))) with 3%nat. lia.
  - exists st'. split; [exact E|]. split; [exact Ha|exact Hf].
Defined.

Lemma none_selected (f : nat → option Section.t) l :
  (∀ r, r ∈ l → ∃ s, f r = Some s ∧ Section.selected s = false) →
  length (filter (λ o : option Section.t, Section.selected <$> o = Some true)
                 (f <$> l)) = 0%nat.
Proof.
  induction l as [|x l IH]; intros Hf; [done|].
  destruct (Hf x) as (s & Hs & Hsel); [left|].
  rewrite fmap_cons, Hs, filter_cons_False by (cbn; rewrite Hsel; congruence).
  apply IH. intros r Hr. apply Hf. by right.
Qed.

(** X2.  [handleActiveSectionUpdate] with an index outside the list raises
    [IndexError] after it has deselected the active section: the collection
    and [active_section] are as before, but no section is selected any
    more. *)
Theorem handleActiveSectionUpdate_out_of_range st which :
  reachable st → sections st ≠ [] →
  which < - Z.of_nat (length (sections st))
  ∨ Z.of_nat (length (sections st)) ≤ which →
  ∃ st', handleActiveSectionUpdate which st = Raised Py.IndexError st'
    ∧ sections st' = sections st
    ∧ active_section st' = active_section st
    ∧ selected_count st' = 0%nat.
Proof.
  intros Hr Hne Hi. pose proof (reachable_wf _ Hr) as Hwf.
  destruct (nonempty_active st Hwf Hne) as [k Hk].
  destruct (active_number_some st k Hwf Hk) as (Hkr & act & a & Ea & Hpos & Ha & Hnum).
  eexists. split.
  - apply (activate_raises _ act a); [done|done|lia|by apply index_out_of_range].
  - split; [done|]. split; [done|]. unfold selected_count, section_objects.
    apply none_selected. intros r [i Hi']%list_elem_of_lookup_1. cbn in *.
    destruct (wf_numbered _ Hwf i r Hi') as (s & Hs & _ & Hsel).
    destruct (decide (act = r)) as [->|Hn].
    + rewrite list_lookup_alter_eq, Hs. by eexists.
    + rewrite list_lookup_alter_ne, Hs by done. exists s. split; [done|].
      rewrite Hsel, Ea. apply bool_decide_eq_false. congruence.
Qed.

Lemma handleActiveSectionUpdate_out_of_range_witness :
  ∃ st', handleActiveSectionUpdate 3 (three_sections flaky_renderer)
         = Raised Py.IndexError st'
         ∧ selected_count st' = 0%nat.
Proof.
  destruct (handleActiveSectionUpdate_out_of_range
              (three_sections flaky_renderer) 3)
    as (st' & E & _ & _ & Hc).
  - apply three_sections_reachable.
  - intros E. vm_compute in E. discriminate E.
  - change (length (sections (three_sections flaky_renderer))) with 3%nat. lia.
  - exists st'. split; [exact E|exact Hc].
Defined.

Lemma incrementActiveSection_spec st diff :
  well_formed st →
  ∃ st', incrementActiveSection diff st = Done tt st'
    ∧ well_formed st'
    ∧ sections st' = sections st
    ∧ active_number st'
      = (λ k, (k + diff) mod Z.of_nat (length (sections st)))
          <$> active_number st.
Proof.
  intros Hwf. unfold incrementActiveSection. rewrite bind_unfold. cbn [get].
  destruct (active_section st) as [act|] eqn:Ea.
  - destruct (wf_active_object _ _ Hwf Ea) as (j & a & Hj & Ha & Hnum).
    pose proof (lookup_lt_Some _ _ _ Hj) as Hlt.
    rewrite bind_unfold, (deref_some _ _ _ Ha).
    set (n := Z.of_nat (length (sections st))).
    replace (n =? 0) with false by (symmetry; apply Z.eqb_neq; lia).
    unfold Section.getSectionNumber. rewrite Hnum.
    assert (0 ≤ (Z.of_nat j + diff) mod n < n) by (apply Z.mod_pos_bound; lia).
    destruct (handleActiveSectionUpdate_spec st ((Z.of_nat j + diff) mod n) Hwf)
      as (st' & E & Hwf' & Hs & Hact & _); [fold n; lia|].
    exists st'. split; [done|]. split; [done|]. split; [done|].
    rewrite Hact, (active_number_at _ _ _ Hwf Ea Hj). cbn. fold n.
    by rewrite Z.mod_mod by lia.
  - exists st. split; [done|]. split; [done|]. split; [done|].
    unfold active_number. by rewrite Ea.
Qed.

(** X3.  [incrementActiveSection] always returns on a reachable state.  With
    [n] sections and the section numbered [k] active, the section numbered
    [(k + diff) mod n] becomes the active one, it is selected and no other
    section is, for every integer [diff]; with no section nothing
    happens. *)
Theorem incrementActiveSection_wraps st diff :
  reachable st →
  ∃ st', incrementActiveSection diff st = Done tt st'
    ∧ sections st' = sections st
    ∧ active_number st'
      = (λ k, (k + diff) mod Z.of_nat (length (sections st)))
          <$> active_number st
    ∧ (∀ k, active_number st' = Some k →
         0 ≤ k < Z.of_nat (length (sections st))
         ∧ selected_count st' = 1%nat)
    ∧ (∀ k, active_number st = Some k →
         selected_flags st'
         = only_at ((k + diff) mod Z.of_nat (length (sections st)))
                   (length (sections st)))
    ∧ (sections st = [] → st' = st).
Proof.
  intros Hr. pose proof (reachable_wf _ Hr) as Hwf.
  destruct (incrementActiveSection_spec st diff Hwf)
    as (st' & E & Hwf' & Hs & Ha).
  exists st'. split; [done|]. split; [done|]. split; [done|].
  split; [|split].
  - intros k Hk. destruct (active_number_some st' k Hwf' Hk) as [Hrange _].
    rewrite Hs in Hrange. split; [done|].
    apply well_formed_selected; [done|]. intros E'.
    rewrite Hs in E'. rewrite E' in Hrange. cbn in Hrange. lia.
  - intros k Hk. rewrite Hk in Ha. cbn in Ha. rewrite <- Hs in Ha |- *.
    by apply selected_flags_number.
  - intros Hnil. destruct Hwf as [_ _ Hact].
    destruct (active_section st) as [act|] eqn:Ea.
    + rewrite Hnil in Hact. by apply elem_of_nil in Hact.
    + unfold incrementActiveSection in E. rewrite bind_unfold in E.
      cbn [get] in E. rewrite Ea in E. by inversion E.
Qed.

Lemma incrementActiveSection_wraps_witness :
  ∃ st', incrementActiveSection (-5) (three_sections flaky_renderer)
         = Done tt st'
         ∧ active_number st' = Some 2
         ∧ selected_flags st' = [Some false; Some false; Some true].
Proof.
  destruct (incrementActiveSection_wraps (three_sections flaky_renderer) (-5))
    as (st' & E & _ & Ha & _ & Hf & _).
  - apply three_sections_reachable.
  - exists st'. split; [exact E|]. split; [exact Ha|].
    apply (Hf 1). vm_compute. reflexivity.
Defined.

Lemma press_arrow_wf k st :
  k = Qt.Key_Up ∨ k = Qt.Key_Down → well_formed st → well_formed (press k st).
Proof.
  intros Hk Hwf. unfold press.
  destruct (incrementActiveSection_spec st (-1) Hwf) as (s1 & E1 & ? & _).
  destruct (incrementActiveSection_spec st 1 Hwf) as (s2 & E2 & ? & _).
  destruct Hk as [-> | ->].
  - change (handleKeyEvent Qt.Key_Up) with (incrementActiveSection (-1)).
    by rewrite E1.
  - change (handleKeyEvent Qt.Key_Down) with (incrementActiveSection 1).
    by rewrite E2.
Qed.




(** ** Deleting *)

Lemma handleKeyEvent_Delete st :
  handleKeyEvent Qt.Key_Delete st
  = match active_section st with
    | Some _ => removeActiveSection st
    | None => Done tt st
    end.
Proof.
  change (handleKeyEvent Qt.Key_Delete st)
    with ((get ≫= λ st, match active_section st with
                        | Some _ => removeActiveSection
                        | None => mret tt
                        end) st).
  rewrite bind_unfold. cbn [get]. by destruct (active_section st).
Qed.

Lemma press_Delete st :
  well_formed st →
  well_formed (press Qt.Key_Delete st)
  ∧ length (sections (press Qt.Key_Delete st))
    = Nat.pred (length (sections st)).
Proof.
  intros Hwf. unfold press. rewrite handleKeyEvent_Delete.
  destruct (active_section st) as [act|] eqn:Ea.
  - destruct (wf_active_object _ _ Hwf Ea) as (k & a & Hk & _).
    destruct (removeActiveSection_total st act k Hwf Ea Hk)
      as (st' & -> & Hwf' & Hs & _).
    split; [done|]. cbn [final]. rewrite Hs, length_delete by eauto. lia.
  - split; [done|]. cbn [final]. destruct Hwf as [_ _ Hact].
    rewrite Ea in Hact. by rewrite Hact.
Qed.

Lemma press_Delete_times m : ∀ st,
  well_formed st →
  well_formed (Nat.iter m (press Qt.Key_Delete) st)
  ∧ length (sections (Nat.iter m (press Qt.Key_Delete) st))
    = (length (sections st) - m)%nat.
Proof.
  induction m as [|m IH]; intros st Hwf.
  - split; [done|]. cbn. lia.
  - destruct (IH st Hwf) as [Hwf1 Hlen1].
    change (Nat.iter (S m) (press Qt.Key_Delete) st)
      with (press Qt.Key_Delete (Nat.iter m (press Qt.Key_Delete) st)).
    destruct (press_Delete _ Hwf1) as [Hwf2 Hlen2].
    split; [done|]. rewrite Hlen2, Hlen1. lia.
Qed.

(** X5.  Each press of the Delete key removes one section as long as there
    is one, and the sections left are numbered 0 .. count - 1.  After as
    many presses as there were sections, or more, the collection is empty
    and nothing is active. *)
Theorem delete_key_empties st m :
  reachable st →
  let st' := Nat.iter m (press Qt.Key_Delete) st in
  length (sections st') = (length (sections st) - m)%nat
  ∧ section_numbers st' = dense (length (sections st) - m)
  ∧ ((length (sections st) ≤ m)%nat →
     sections st' = [] ∧ active_section st' = None).
Proof.
  intros Hr. cbn zeta.
  destruct (press_Delete_times m st (reachable_wf _ Hr)) as [Hwf Hlen].
  split; [done|]. split; [by rewrite (well_formed_numbers _ Hwf), Hlen|].
  intros Hm. assert (Hnil : sections (Nat.iter m (press Qt.Key_Delete) st) = []).
  { apply nil_length_inv. lia. }
  split; [done|]. destruct Hwf as [_ _ Hact].
  destruct (active_section _) as [a|]; [|done].
  rewrite Hnil in Hact. by apply elem_of_nil in Hact.
Qed.

Lemma delete_key_empties_witness :
  sections (Nat.iter 3 (press Qt.Key_Delete) (three_sections flaky_renderer))
    = []
  ∧ active_section
      (Nat.iter 3 (press Qt.Key_Delete) (three_sections flaky_renderer))
    = None.
Proof.
  apply (delete_key_empties (three_sections flaky_renderer) 3).
  - apply three_sections_reachable.
  - vm_compute. lia.
Defined.

(** ** Adding *)

(** X6.  [addSection] always returns on a reachable state.  It appends one
    new object to the list, numbered with the former count, unchecked, with
    the given coordinates and angle rounded to hundredths and brought within
    the bounds of the spin boxes.  The sections already there are untouched
    and the active one stays active; the first section of a collection
    becomes the active one. *)
Theorem addSection_appends st a_point angle :
  reachable st →
  ∃ st' s,
    addSection a_point angle st = Done tt st'
    ∧ sections st' = sections st ++ [length (heap st)]
    ∧ (length (heap st) ∉ sections st)
    ∧ heap st' !! length (heap st) = Some s
    ∧ Section.section_number s = Z.of_nat (length (sections st))
    ∧ Section.isChecked s = false
    ∧ spin_values s
      = (Qt.qBound (-100000000)
           (Py.round_half_even (coord.x_um a_point * 100)) 100000000,
         Qt.qBound (-100000000)
           (Py.round_half_even (coord.y_um a_point * 100)) 100000000,
         Qt.qBound (-18000) (Py.round_half_even (angle * 100)) 18000)
    ∧ (∀ r, r ∈ sections st → heap st' !! r = heap st !! r)
    ∧ active_number st'
      = (if decide (sections st = []) then Some 0 else active_number st).
Proof.
  intros Hr. pose proof (reachable_wf _ Hr) as Hwf.
  destruct (addSection_total a_point angle st Hwf)
    as (st' & E & Hwf' & Hs & Hlen & Hold & s & Hh & Hnum & Hc).
  assert (Hlt : ∀ r, r ∈ sections st → (r < length (heap st))%nat).
  { intros r [i Hi]%list_elem_of_lookup_1.
    eapply numbered_lt; [apply Hwf|exact Hi]. }
  exists st', s. split; [done|]. split; [done|].
  split; [intros H; apply Hlt in H; lia|]. split; [done|]. split; [done|].
  split; [unfold Section.isChecked; by rewrite Hc|].
  split; [unfold spin_values; by rewrite Hc|].
  split; [intros r H; by apply Hold, Hlt|].
  destruct (decide (sections st = [])) as [Hnil|Hne].
  - assert (Hne' : sections st' ≠ []) by (rewrite Hs, Hnil; discriminate).
    destruct (nonempty_active st' Hwf' Hne') as [k Hk]. rewrite Hk.
    destruct (active_number_some st' k Hwf' Hk) as [Hrange _].
    rewrite Hs, Hnil in Hrange. cbn in Hrange. f_equal. lia.
  - destruct (nonempty_active st Hwf Hne) as [k Hk]. rewrite Hk.
    destruct (active_number_some st k Hwf Hk)
      as (_ & act & a & Ea & Hpos & Ha & Hk').
    rewrite addSection_unfold, Ea in E. cbn zeta in E. inversion E; subst st'.
    unfold active_number. cbn. rewrite Ea. cbn.
    rewrite lookup_app_l, Ha by (by eapply lookup_lt_Some). cbn. by rewrite Hk'.
Qed.

Lemma addSection_appends_witness :
  ∃ st' s,
    addSection (coord.mkPoint 2000000 (1 # 3)) 270
      (three_sections flaky_renderer) = Done tt st'
    ∧ heap st' !! 3%nat = Some s
    ∧ spin_values s = (100000000, 33, 18000)
    ∧ active_number st' = Some 1.
Proof.
  destruct (addSection_appends (three_sections flaky_renderer)
              (coord.mkPoint 2000000 (1 # 3)) 270)
    as (st' & s & E & _ & _ & Hh & _ & _ & Hv & _ & Ha).
  - apply three_sections_reachable.
  - exists st', s. split; [exact E|]. split; [exact Hh|].
    split; [exact Hv|exact Ha].
Defined.

(** ** What every section keeps *)

(** X7.  In every reachable state the x and y of every section lie within
    one million micrometres of zero and its angle within 180 degrees of
    zero, whatever was given to [addSection] or read from a file and however
    many keys were pressed. *)
Theorem values_within_bounds st r s :
  reachable st → heap st !! r = Some s →
  (- (1000000) <= coord.x_um (Section.getLocation s) <= 1000000)%Q
  ∧ (- (1000000) <= coord.y_um (Section.getLocation s) <= 1000000)%Q
  ∧ (- (180) <= Section.getAngle s <= 180)%Q.
Proof.
  intros Hr Hs.
  destruct (Forall_lookup_1 _ _ _ _ (reachable_heap_ok _ Hr) Hs)
    as [_ (_ & _ & Hx) (_ & _ & Hy) (_ & _ & Ha)].
  unfold Section.getAngle, Section.getLocation, SectionControls.currentAngle,
    SectionControls.currentLocation, SectionSpinBox.value, Qle.
  cbn. lia.
Qed.

Lemma values_within_bounds_witness :
  (- (1000000)
   <= coord.x_um (Section.getLocation (Section.init 2 0 10 180)) <= 1000000)%Q
  ∧ (- (1000000)
     <= coord.y_um (Section.getLocation (Section.init 2 0 10 180))
     <= 1000000)%Q
  ∧ (- (180) <= Section.getAngle (Section.init 2 0 10 180) <= 180)%Q.
Proof.
  apply (values_within_bounds (three_sections flaky_renderer) 2%nat).
  - apply three_sections_reachable.
  - vm_compute. reflexivity.
Defined.

Create HintDb objects discriminated.

Section ObjectInvariant.

Context (Q : Section.t → Prop).
Context (Q_init : ∀ n x y a, Q (Section.init n x y a)).
Context (Q_select : keeps Q Section.select).
Context (Q_deselect : keeps Q Section.deselect).
Context (Q_number : ∀ i, keeps Q (Section.setSectionNumber i)).
Context (Q_x : ∀ d, keeps Q (Section.incrementX d)).
Context (Q_y : ∀ d, keeps Q (Section.incrementY d)).
Context (Q_angle : ∀ d, keeps Q (Section.incrementAngle d)).
Context (Q_check :
  keeps Q (λ s, Section.with_controls
                  (SectionControls.with_check_box
                     (negb (SectionControls.check_box (Section.controls s)))
                     (Section.controls s)) s)).

Let all_objects (st : Sections.t) : Prop := Forall Q (heap st).

Lemma all_modify g :
  (∀ st, heap (g st) = heap st) → preserves all_objects (modify g).
Proof.
  intros Hg. apply preserves_modify. intros st. unfold all_objects.
  by rewrite Hg.
Qed.

Lemma all_update r f : keeps Q f → preserves all_objects (update r f).
Proof.
  intros Hf. apply preserves_update. intros st. unfold all_objects. cbn.
  intros H. apply Forall_alter; [done|]. intros s _ Hs. by apply Hf.
Qed.

Lemma all_new s : Q s → preserves all_objects (new s).
Proof.
  intros Hs st. unfold all_objects. cbn. intros H. apply Forall_app.
  split; [done|]. by constructor.
Qed.

Lemma all_renderSectionNumpy p a :
  preserves all_objects (renderSectionNumpy p a).
Proof. by intros st. Qed.

Lemma all_print line : preserves all_objects (print line).
Proof. by apply all_modify. Qed.

Lemma all_setBackgroundPixmap p : preserves all_objects (setBackgroundPixmap p).
Proof. by apply all_modify. Qed.

Lemma all_setForegroundPixmap p : preserves all_objects (setForegroundPixmap p).
Proof. by apply all_modify. Qed.

Lemma all_with_sections f :
  preserves all_objects (modify (λ st, with_sections (f st) st)).
Proof. by apply all_modify. Qed.

Lemma all_with_active_section a :
  preserves all_objects (modify (with_active_section a)).
Proof. by apply all_modify. Qed.

Lemma all_with_numpy_files f :
  preserves all_objects (modify (λ st, with_numpy_files (f st) st)).
Proof. by apply all_modify. Qed.

#[local] Hint Resolve all_update all_new all_renderSectionNumpy all_print
  all_setBackgroundPixmap all_setForegroundPixmap all_with_sections
  all_with_active_section all_with_numpy_files
  Q_init Q_select Q_deselect Q_number Q_x Q_y Q_angle Q_check : objects.

Ltac object_rules :=
  repeat first
    [ solve [auto with objects nocore]
    | match goal with
      | |- preserves _ (mret _) => apply preserves_ret
      | |- preserves _ (raise _) => apply preserves_raise
      | |- preserves _ get => apply preserves_get
      | |- preserves _ (lift _ _) => apply preserves_lift
      | |- preserves _ (deref _) => apply preserves_deref
      | |- preserves _ (mbind _ _) => apply preserves_bind; [|intros ?]
      | |- preserves _ (match ?x with _ => _ end) => destruct x
      | |- preserves _ (if ?x then _ else _) => destruct x
      | |- preserves _ (let '(_, _) := ?x in _) => destruct x
      end ].

Lemma all_handleActiveSectionUpdate w :
  preserves all_objects (handleActiveSectionUpdate w).
Proof. unfold handleActiveSectionUpdate. object_rules. Qed.
#[local] Hint Resolve all_handleActiveSectionUpdate : objects.

Lemma all_addSection p a : preserves all_objects (addSection p a).
Proof. unfold addSection. object_rules. Qed.

Lemma all_background_loop l : ∀ nb counts,
  preserves all_objects (background_loop l nb counts).
Proof.
  induction l as [|r l IH]; intros nb counts; cbn [background_loop];
    object_rules.
Qed.
#[local] Hint Resolve all_addSection all_background_loop : objects.

Lemma all_updateBackgroundPixmap : preserves all_objects updateBackgroundPixmap.
Proof. unfold updateBackgroundPixmap. object_rules. Qed.

Lemma all_updateForegroundPixmap : preserves all_objects updateForegroundPixmap.
Proof. unfold updateForegroundPixmap, renderSectionPixmap. object_rules. Qed.
#[local] Hint Resolve all_updateBackgroundPixmap
  all_updateForegroundPixmap : objects.

Lemma all_viewUpdate : preserves all_objects viewUpdate.
Proof. unfold viewUpdate. object_rules. Qed.

Lemma all_handleSectionUpdate : preserves all_objects handleSectionUpdate.
Proof. unfold handleSectionUpdate. object_rules. Qed.
#[local] Hint Resolve all_viewUpdate all_handleSectionUpdate : objects.

Lemma all_active_section_call m :
  keeps Q m → preserves all_objects (active_section_call m).
Proof. intros Hm. unfold active_section_call. object_rules. Qed.

Lemma all_incrementActiveSection d :
  preserves all_objects (incrementActiveSection d).
Proof. unfold incrementActiveSection. object_rules. Qed.

Lemma all_loadFromMosaicFileData float data directory :
  preserves all_objects (loadFromMosaicFileData float data directory).
Proof. unfold loadFromMosaicFileData. object_rules. Qed.

Lemma all_renumber l : ∀ i, preserves all_objects (renumber i l).
Proof. induction l as [|r l IH]; intros i; cbn [renumber]; object_rules. Qed.
#[local] Hint Resolve all_active_section_call all_incrementActiveSection
  all_renumber : objects.

Lemma all_removeActiveSection : preserves all_objects removeActiveSection.
Proof. unfold removeActiveSection. object_rules. Qed.

Lemma all_saveSectionsNumpy_loop l : ∀ i,
  preserves all_objects (saveSectionsNumpy_loop i l).
Proof.
  induction l as [|r l IH]; intros i; cbn [saveSectionsNumpy_loop];
    object_rules.
Qed.
#[local] Hint Resolve all_removeActiveSection
  all_saveSectionsNumpy_loop : objects.

Lemma all_saveSectionsNumpy : preserves all_objects saveSectionsNumpy.
Proof. unfold saveSectionsNumpy. object_rules. Qed.
#[local] Hint Resolve all_saveSectionsNumpy : objects.

Lemma all_handleKeyEvent k : preserves all_objects (handleKeyEvent k).
Proof. unfold handleKeyEvent. object_rules. Qed.

Lemma all_check_box_stateChanged r :
  preserves all_objects (check_box_stateChanged r).
Proof. unfold check_box_stateChanged. object_rules. Qed.

Lemma reachable_all_objects st : reachable st → Forall Q (heap st).
Proof.
  induction 1 as [renderer|st st' _ IH Hstep]; [by constructor|].
  destruct Hstep as [p a E|w E|d E|E|k E|fl data dir b E|r Hr E|E];
    eapply (preserves_done all_objects); eauto;
    auto using all_addSection, all_handleActiveSectionUpdate,
      all_incrementActiveSection, all_removeActiveSection, all_handleKeyEvent,
      all_loadFromMosaicFileData, all_check_box_stateChanged, all_viewUpdate.
Qed.

End ObjectInvariant.

Lemma marker_ok_kept f :
  (∀ s, Section.selected (f s) = Section.selected s) →
  (∀ s, Section.scene_ellipse_item (f s) = Section.scene_ellipse_item s) →
  keeps marker_ok f.
Proof.
  intros Hsel Hitem s [Hz Hp]. unfold marker_ok. by rewrite Hitem, Hsel.
Qed.

Lemma reachable_marker_ok st r s :
  reachable st → heap st !! r = Some s → marker_ok s.
Proof.
  intros Hr Hs. apply (Forall_lookup_1 marker_ok (heap st) r s); [|done].
  apply reachable_all_objects; try done;
    try (intros ?; by apply marker_ok_kept);
    try (by apply marker_ok_kept).
  intros d. apply marker_ok_kept; intros s';
    unfold Section.selected, Section.incrementAngle,
      SectionControls.incrementAngle; cbn;
    repeat destruct (Qlt_le_dec _ _); reflexivity.
Qed.

(** X8.  In every reachable state the active section is the one drawn on
    top: it is in the list, its ellipse is at height 1999 and has the pen
    of the selection, and the ellipse of every other section of the list is
    at height 999.  For every Section object, listed or removed, the height
    is 1999 when the object is selected and 999 when it is not, and a
    selected object has the pen of the selection. *)
Theorem selected_marker_on_top st r s :
  reachable st → heap st !! r = Some s →
  SceneEllipseItem.zValue (Section.scene_ellipse_item s)
    = (if Section.selected s then 1999 else 999)
  ∧ (Section.selected s = true →
     SceneEllipseItem.pen (Section.scene_ellipse_item s)
       = SceneEllipseItem.selected_pen)
  ∧ (r ∈ sections st →
     Section.selected s = bool_decide (active_section st = Some r)
     ∧ SceneEllipseItem.zValue (Section.scene_ellipse_item s)
       = (if bool_decide (active_section st = Some r) then 1999 else 999))
  ∧ (active_section st = Some r →
     r ∈ sections st
     ∧ SceneEllipseItem.zValue (Section.scene_ellipse_item s) = 1999
     ∧ SceneEllipseItem.pen (Section.scene_ellipse_item s)
       = SceneEllipseItem.selected_pen).
Proof.
  intros Hr Hs. pose proof (reachable_wf _ Hr) as Hwf.
  destruct (reachable_marker_ok st r s Hr Hs) as [Hz Hp].
  assert (Hin : r ∈ sections st →
                Section.selected s = bool_decide (active_section st = Some r)).
  { intros [i Hi]%list_elem_of_lookup_1.
    destruct (wf_numbered _ Hwf i r Hi) as (s' & Hs' & _ & Hsel).
    congruence. }
  split; [exact Hz|]. split; [exact Hp|]. split.
  - intros Hr'. split; [by apply Hin|]. by rewrite Hz, (Hin Hr').
  - intros Ea.
    assert (Hr' : r ∈ sections st)
      by (destruct Hwf as [_ _ Hact]; by rewrite Ea in Hact).
    assert (Hsel : Section.selected s = true)
      by (rewrite (Hin Hr'); by apply bool_decide_eq_true).
    split; [exact Hr'|]. split; [by rewrite Hz, Hsel|by apply Hp].
Qed.

Lemma selected_marker_on_top_witness :
  1%nat ∈ sections (three_sections flaky_renderer)
  ∧ SceneEllipseItem.zValue
      (Section.scene_ellipse_item (Section.select (Section.init 1 10 0 90)))
    = 1999
  ∧ SceneEllipseItem.pen
      (Section.scene_ellipse_item (Section.select (Section.init 1 10 0 90)))
    = SceneEllipseItem.selected_pen.
Proof.
  apply (selected_marker_on_top (three_sections flaky_renderer) 1%nat
           (Section.select (Section.init 1 10 0 90))).
  - apply three_sections_reachable.
  - vm_compute. reflexivity.
  - vm_compute. reflexivity.
Defined.

(** ** Turning a section *)

Lemma turned_up (up : Q) v :
  (0 < up)%Q → -18000 ≤ v ≤ 18000 →
  turned up (-18000) 18000 v
  = if decide (18000 < v + 100) then v + 100 - 36000 else v + 100.
Proof.
  intros Hup Hv. unfold turned. destruct (Qlt_le_dec 0 up) as [_|H].
  - destruct (decide (18000 < v + 100)); rewrite qBound_id; lia.
  - by apply Qle_not_lt in H.
Qed.

Lemma turned_down (down : Q) v :
  (down <= 0)%Q → -18000 ≤ v ≤ 18000 →
  turned down (-18000) 18000 v
  = if decide (v - 100 < -18000) then v - 100 + 36000 else v - 100.
Proof.
  intros Hdown Hv. unfold turned. destruct (Qlt_le_dec 0 down) as [H|_].
  - by apply Qlt_not_le in H.
  - destruct (decide (v - 100 < -18000)); rewrite qBound_id; lia.
Qed.

Lemma incrementAngle_value d c :
  controls_ok c →
  SectionControls.incrementAngle d c
  = SectionControls.with_angle_spin_box
      (SectionSpinBox.mk (-18000) 18000
         (turned d (-18000) 18000
            (SectionSpinBox.val (SectionControls.angle_spin_box c)))) c.
Proof.
  intros [Hstep _ _ (Hlo & Hhi & _)].
  rewrite (incrementAngle_centi d c Hstep). cbn zeta. by rewrite Hlo, Hhi.
Qed.

Lemma with_angle_value_ok v c :
  controls_ok c → -18000 ≤ v ≤ 18000 →
  controls_ok (SectionControls.with_angle_spin_box
                 (SectionSpinBox.mk (-18000) 18000 v) c).
Proof. intros [? ? ? ?] Hv. by split. Qed.

(** X9.  On controls made by [__init__], a decrement of the angle undoes an
    increment exactly, wrap included, and an increment undoes a decrement,
    except at the two ends of the range: from 180 degrees the increment
    wraps to -179 degrees and the decrement then stops at -180 degrees; from
    -180 degrees the decrement wraps to 179 degrees and the increment then
    stops at 180 degrees. *)
Theorem incrementAngle_undone c (up down : Q) :
  controls_ok c → (0 < up)%Q → (down <= 0)%Q →
  let v := SectionSpinBox.val (SectionControls.angle_spin_box c) in
  let there := SectionControls.incrementAngle down
                 (SectionControls.incrementAngle up c) in
  let back := SectionControls.incrementAngle up
                (SectionControls.incrementAngle down c) in
  (v ≠ 18000 → there = c)
  ∧ (v = 18000 → SectionControls.currentAngle there = (-18000 # 100)%Q)
  ∧ (v ≠ -18000 → back = c)
  ∧ (v = -18000 → SectionControls.currentAngle back = (18000 # 100)%Q).
Proof.
  intros Hok Hup Hdown. cbn zeta.
  pose proof Hok as [_ _ _ (Hlo & Hhi & Hv)].
  set (v := SectionSpinBox.val (SectionControls.angle_spin_box c)) in *.
  assert (Hu : -18000 ≤ turned up (-18000) 18000 v ≤ 18000).
  { rewrite turned_up by done. case_decide; lia. }
  assert (Hd : -18000 ≤ turned down (-18000) 18000 v ≤ 18000).
  { rewrite turned_down by done. case_decide; lia. }
  rewrite (incrementAngle_value up c Hok), (incrementAngle_value down c Hok).
  fold v.
  rewrite (incrementAngle_value down) by (by apply with_angle_value_ok).
  rewrite (incrementAngle_value up) by (by apply with_angle_value_ok).
  cbn [SectionControls.angle_spin_box SectionControls.with_angle_spin_box
       SectionSpinBox.val].
  assert (Hthere : turned down (-18000) 18000 (turned up (-18000) 18000 v)
                   = if decide (v = 18000) then -18000 else v).
  { rewrite (turned_down down (turned up (-18000) 18000 v)) by done.
    rewrite (turned_up up v) by done.
    destruct (decide (18000 < v + 100)); repeat case_decide; lia. }
  assert (Hback : turned up (-18000) 18000 (turned down (-18000) 18000 v)
                  = if decide (v = -18000) then 18000 else v).
  { rewrite (turned_up up (turned down (-18000) 18000 v)) by done.
    rewrite (turned_down down v) by done.
    destruct (decide (v - 100 < -18000)); repeat case_decide; lia. }
  assert (Hsame : SectionControls.with_angle_spin_box
                    (SectionSpinBox.mk (-18000) 18000 v) c = c).
  { unfold v. destruct c as [? ? ? ? ? [lo hi w]]. cbn in *. by subst. }
  rewrite Hthere, Hback.
  unfold SectionControls.currentAngle, SectionSpinBox.value. cbn.
  repeat split; intros E.
  - by rewrite decide_False.
  - by rewrite decide_True.
  - by rewrite decide_False.
  - by rewrite decide_True.
Qed.

Lemma incrementAngle_undone_witness :
  SectionControls.incrementAngle (- (1))
    (SectionControls.incrementAngle 1 (controls_at 179))
  = controls_at 179.
Proof.
  apply (incrementAngle_undone (controls_at 179) 1 (- (1))).
  - apply controls_init_ok.
  - vm_compute. reflexivity.
  - vm_compute. discriminate.
  - vm_compute. discriminate.
Defined.

(** ** Nudging the active section *)

Lemma active_section_call_run m st act a :
  active_section st = Some act → heap st !! act = Some a →
  active_section_call m st
  = if decide (spin_values (m a) = spin_values a)
    then Done tt (with_heap (alter m act (heap st)) st)
    else handleSectionUpdate (with_heap (alter m act (heap st)) st).
Proof.
  intros Ea Ha. unfold active_section_call. rewrite bind_unfold. cbn [get].
  rewrite Ea, bind_unfold, (deref_some _ _ _ Ha).
  rewrite bind_unfold, (update_some _ _ _ _ Ha). by case_decide.
Qed.

Lemma active_section_call_collection m st act a :
  active_section st = Some act → heap st !! act = Some a →
  collection_is (alter m act (heap st)) (sections st) (Some act)
    (final (active_section_call m st)).
Proof.
  intros Ea Ha. rewrite (active_section_call_run m st act a Ea Ha).
  case_decide; [done|]. by apply same_handleSectionUpdate.
Qed.

Lemma handleSectionUpdate_foreground st st' act a :
  active_section st = Some act → heap st !! act = Some a →
  handleSectionUpdate st = Done tt st' →
  foreground_pixmap st'
  = SectionsView.Pixmap (SectionRenderer.grabWidget (Section.getLocation a) (Section.getAngle a)).
Proof.
  intros Ea Ha. unfold handleSectionUpdate. rewrite bind_unfold. cbn [get].
  rewrite Ea, bind_unfold, (deref_some _ _ _ Ha), bind_unfold.
  set (m := if Section.isChecked a then updateBackgroundPixmap else mret tt).
  assert (Hm : preserves (collection_is (heap st) (sections st) (Some act)) m).
  { unfold m. destruct (Section.isChecked a);
      [apply same_updateBackgroundPixmap|apply preserves_ret]. }
  destruct (m st) as [[] st1|] eqn:E1; [|done].
  pose proof (preserves_done _ _ _ _ _ Hm (conj eq_refl (conj eq_refl Ea)) E1)
    as (Hh & _ & Ea1).
  unfold updateForegroundPixmap. rewrite bind_unfold. cbn [get].
  rewrite Ea1, bind_unfold. unfold deref. rewrite Hh, Ha. cbn [lift mret M_ret].
  unfold renderSectionPixmap. rewrite bind_unfold. cbn [mret M_ret].
  intros E. by inversion E.
Qed.

Lemma half_step v (d : Z) :
  ((v # 100) + (d # 2) == (v + 50 * d) # 100)%Q.
Proof. unfold Qeq, Qplus. cbn. lia. Qed.

Lemma incrementX_values d s :
  spin_values (Section.incrementX (d # 2) s)
  = let '(x, y, g) := spin_values s in
    (Qt.qBound
       (SectionSpinBox.lo (SectionControls.x_spin_box (Section.controls s)))
       (x + 50 * d)
       (SectionSpinBox.hi (SectionControls.x_spin_box (Section.controls s))),
     y, g).
Proof.
  unfold spin_values, Section.incrementX, SectionControls.incrementX,
    SectionSpinBox.value.
  cbn [Section.controls Section.with_controls SectionControls.x_spin_box
       SectionControls.y_spin_box SectionControls.angle_spin_box
       SectionControls.with_x_spin_box].
  by rewrite (setValue_centi _ _ _ (half_step _ d)).
Qed.

Lemma incrementY_values d s :
  spin_values (Section.incrementY (d # 2) s)
  = let '(x, y, g) := spin_values s in
    (x,
     Qt.qBound
       (SectionSpinBox.lo (SectionControls.y_spin_box (Section.controls s)))
       (y + 50 * d)
       (SectionSpinBox.hi (SectionControls.y_spin_box (Section.controls s))),
     g).
Proof.
  unfold spin_values, Section.incrementY, SectionControls.incrementY,
    SectionSpinBox.value.
  cbn [Section.controls Section.with_controls SectionControls.x_spin_box
       SectionControls.y_spin_box SectionControls.angle_spin_box
       SectionControls.with_y_spin_box].
  by rewrite (setValue_centi _ _ _ (half_step _ d)).
Qed.

(** X10.  The keys W, S, A, D, Q and E act on the active section only.  W
    and S move its y by half a micrometre down and up, A and D its x, the
    result being kept within one million micrometres of zero; Q and E turn
    it by one degree with wrap-around.  The collection and the active
    section stay as they are, also when the refresh of the pixmaps raises;
    when a value has changed and the event returns, the foreground pixmap is
    the view grabbed at the new location and angle of the active section. *)
Theorem nudge_keys_move_active st act a :
  reachable st → active_section st = Some act → heap st !! act = Some a →
  let '(x, y, g) := spin_values a in
  let bound v := Qt.qBound (-100000000) v 100000000 in
  let expected k :=
    if k =? Qt.Key_W then (x, bound (y - 50), g)
    else if k =? Qt.Key_S then (x, bound (y + 50), g)
    else if k =? Qt.Key_A then (bound (x - 50), y, g)
    else if k =? Qt.Key_D then (bound (x + 50), y, g)
    else if k =? Qt.Key_Q then
      (x, y, if decide (g - 100 < -18000) then g - 100 + 36000 else g - 100)
    else (x, y, if decide (18000 < g + 100) then g + 100 - 36000 else g + 100)
  in
  ∀ k, k ∈ nudge_keys →
    sections (press k st) = sections st
    ∧ active_section (press k st) = Some act
    ∧ (∀ r, r ≠ act → heap (press k st) !! r = heap st !! r)
    ∧ ∃ a', heap (press k st) !! act = Some a'
        ∧ spin_values a' = expected k
        ∧ Section.section_number a' = Section.section_number a
        ∧ Section.isChecked a' = Section.isChecked a
        ∧ (∀ st', handleKeyEvent k st = Done tt st' →
             spin_values a' ≠ spin_values a →
             foreground_pixmap st'
             = SectionsView.Pixmap
                 (SectionRenderer.grabWidget (Section.getLocation a')
                    (Section.getAngle a'))).
Proof.
  intros Hr Ea Ha.
  destruct (Forall_lookup_1 _ _ _ _ (reachable_heap_ok _ Hr) Ha)
    as [Hstep (Hxl & Hxh & Hx) (Hyl & Hyh & Hy) (Hgl & Hgh & Hg)].
  destruct (spin_values a) as [[x y] g] eqn:Ev. intros bound expected k Hk.
  assert (Hgen : ∀ m,
    handleKeyEvent k st = active_section_call m st →
    spin_values (m a) = expected k →
    Section.section_number (m a) = Section.section_number a →
    Section.isChecked (m a) = Section.isChecked a →
    sections (press k st) = sections st
    ∧ active_section (press k st) = Some act
    ∧ (∀ r, r ≠ act → heap (press k st) !! r = heap st !! r)
    ∧ ∃ a', heap (press k st) !! act = Some a'
        ∧ spin_values a' = expected k
        ∧ Section.section_number a' = Section.section_number a
        ∧ Section.isChecked a' = Section.isChecked a
        ∧ (∀ st', handleKeyEvent k st = Done tt st' →
             spin_values a' ≠ (x, y, g) →
             foreground_pixmap st'
             = SectionsView.Pixmap
                 (SectionRenderer.grabWidget (Section.getLocation a')
                    (Section.getAngle a')))).
  { intros m Hm Hv Hn Hc. unfold press. rewrite Hm.
    destruct (active_section_call_collection m st act a Ea Ha) as (Hh & Hs & Hact).
    split; [done|]. split; [done|].
    split; [intros r Hne; by rewrite Hh, list_lookup_alter_ne|].
    exists (m a). split; [by rewrite Hh, list_lookup_alter_eq, Ha|].
    split; [done|]. split; [done|]. split; [done|].
    intros st' E Hchg. rewrite (active_section_call_run m st act a Ea Ha) in E.
    rewrite decide_False in E by (by rewrite Ev).
    eapply handleSectionUpdate_foreground; [| |exact E]; [done|].
    cbn. by rewrite list_lookup_alter_eq, Ha. }
  assert (Hturn : ∀ d, spin_values (Section.incrementAngle d a)
                       = (x, y, turned d (-18000) 18000 g)).
  { intros d. unfold spin_values in *. inversion Ev; subst x y g.
    unfold Section.incrementAngle. cbn [Section.controls Section.with_controls].
    rewrite (incrementAngle_centi d _ Hstep). cbn. by rewrite Hgl, Hgh. }
  unfold nudge_keys in Hk.
  repeat (apply elem_of_cons in Hk as [-> | Hk]); [..|by apply elem_of_nil in Hk].
  - apply (Hgen (Section.incrementY (- (1 # 2)))); [done| |done|done].
    change (- (1 # 2))%Q with (-1 # 2)%Q.
    rewrite (incrementY_values (-1) a), Ev. cbn. by rewrite Hyl, Hyh.
  - apply (Hgen (Section.incrementY (1 # 2))); [done| |done|done].
    rewrite (incrementY_values 1 a), Ev. cbn. by rewrite Hyl, Hyh.
  - apply (Hgen (Section.incrementX (- (1 # 2)))); [done| |done|done].
    change (- (1 # 2))%Q with (-1 # 2)%Q.
    rewrite (incrementX_values (-1) a), Ev. cbn. by rewrite Hxl, Hxh.
  - apply (Hgen (Section.incrementX (1 # 2))); [done| |done|done].
    rewrite (incrementX_values 1 a), Ev. cbn. by rewrite Hxl, Hxh.
  - assert (Hg' : -18000 ≤ g ≤ 18000)
      by (unfold spin_values in Ev; inversion Ev; by subst).
    apply (Hgen (Section.incrementAngle (- (1)))); [done| | |].
    + rewrite Hturn, turned_down by done. done.
    + by destruct (keeps_identity_incrementAngle (- (1)) a).
    + unfold Section.isChecked, Section.incrementAngle,
        SectionControls.incrementAngle. cbn.
      by repeat destruct (Qlt_le_dec _ _).
  - assert (Hg' : -18000 ≤ g ≤ 18000)
      by (unfold spin_values in Ev; inversion Ev; by subst).
    apply (Hgen (Section.incrementAngle 1)); [done| | |].
    + rewrite Hturn, turned_up by done. done.
    + by destruct (keeps_identity_incrementAngle 1 a).
    + unfold Section.isChecked, Section.incrementAngle,
        SectionControls.incrementAngle. cbn.
      by repeat destruct (Qlt_le_dec _ _).
Qed.

Lemma nudge_keys_move_active_witness :
  sections (press Qt.Key_D (three_sections flaky_renderer))
  = sections (three_sections flaky_renderer)
  ∧ active_section (press Qt.Key_D (three_sections flaky_renderer))
    = Some 1%nat.
Proof.
  pose proof (nudge_keys_move_active (three_sections flaky_renderer) 1%nat
                (Section.select (Section.init 1 10 0 90))
                (three_sections_reachable flaky_renderer)) as H.
  assert (Ea : active_section (three_sections flaky_renderer) = Some 1%nat)
    by (vm_compute; reflexivity).
  assert (Ha : heap (three_sections flaky_renderer) !! 1%nat
               = Some (Section.select (Section.init 1 10 0 90)))
    by (vm_compute; reflexivity).
  specialize (H Ea Ha).
  destruct (spin_values (Section.select (Section.init 1 10 0 90)))
    as [[x y] g].
  destruct (H Qt.Key_D) as (Hs & Hact & _).
  - apply list_elem_of_In. vm_compute. tauto.
  - split; [exact Hs|exact Hact].
Defined.

(** ** The composite, in general *)

Import SectionRenderer.










Lemma three_checked_late_reachable : reachable (three_checked_with late_renderer).
Proof.
  pose (s0 := three_added late_renderer).
  pose (s1 := final (check_box_stateChanged 0%nat s0)).
  pose (s2 := final (check_box_stateChanged 1%nat s1)).
  assert (R0 : reachable s0) by apply run_reachable, reachable_init.
  assert (R1 : reachable s1).
  { apply (reachable_step s0); [exact R0|]. apply (step_check_box _ _ 0%nat).
    - apply list_elem_of_In. vm_compute. tauto.
    - vm_compute. reflexivity. }
  assert (R2 : reachable s2).
  { apply (reachable_step s1); [exact R1|]. apply (step_check_box _ _ 1%nat).
    - apply list_elem_of_In. vm_compute. tauto.
    - vm_compute. reflexivity. }
  apply (reachable_step s2); [exact R2|]. apply (step_check_box _ _ 2%nat).
  - apply list_elem_of_In. vm_compute. tauto.
  - vm_compute. reflexivity.
Qed.


(** ** The mosaic file *)

Lemma concat_lines (file_ptr line : string) lines :
  ((file_ptr ++ line) ++ String.concat "" lines
   = file_ptr ++ String.concat "" (line :: lines))%string.
Proof.
  rewrite append_assoc. f_equal. destruct lines as [|l ls]; cbn; [|done].
  by rewrite append_empty.
Qed.

Lemma saveToMosaicFile_loop_lines h l : ∀ file_ptr st,
  heap st = h → (∀ r, r ∈ l → is_Some (h !! r)) →
  saveToMosaicFile_loop l file_ptr st
  = Done (file_ptr
            ++ String.concat "" (omap (λ r, Section.mosaic_line <$> h !! r) l))%string
         st.
Proof.
  induction l as [|r l IH]; intros file_ptr st Hh Hv.
  - cbn. by rewrite append_empty.
  - destruct (Hv r) as [s Hs]; [left|]. cbn [saveToMosaicFile_loop omap].
    rewrite bind_unfold, (deref_some r s) by congruence.
    rewrite IH; [|done|intros r' Hr'; apply Hv; by right].
    cbn [omap list_omap]. rewrite Hs. cbn [fmap option_fmap option_map].
    unfold Section.saveToMosaicFile. by rewrite concat_lines.
Qed.

Lemma length_written_lines st :
  well_formed st → length (written_lines st) = length (sections st).
Proof.
  intros Hwf. unfold written_lines.
  assert (Hv : ∀ r, r ∈ sections st → is_Some (heap st !! r)).
  { intros r Hin. destruct (numbered_valid _ _ _ r (wf_numbered _ Hwf) Hin).
    eauto. }
  induction (sections st) as [|r l IH]; [done|].
  destruct (Hv r) as [s Hs]; [left|]. cbn [omap list_omap]. rewrite Hs. cbn.
  f_equal. apply IH. intros r' Hr'. apply Hv. by right.
Qed.

(** X12.  [saveToMosaicFile] appends to the file one line for each section,
    in list order, each the line that the section writes of itself; it
    returns and changes nothing of the [Sections] object. *)
Theorem saveToMosaicFile_lines st file_ptr filename :
  reachable st →
  saveToMosaicFile file_ptr filename st
  = Done (file_ptr ++ String.concat "" (written_lines st))%string st
  ∧ length (written_lines st) = length (sections st)
  ∧ ∀ i, written_lines st !! i
         = (r ← sections st !! i; Section.mosaic_line <$> heap st !! r).
Proof.
  intros Hr. pose proof (reachable_wf _ Hr) as Hwf.
  assert (Hv : ∀ r, r ∈ sections st → is_Some (heap st !! r)).
  { intros r Hin. destruct (numbered_valid _ _ _ r (wf_numbered _ Hwf) Hin).
    eauto. }
  split; [|split; [by apply length_written_lines|]].
  - unfold saveToMosaicFile. rewrite bind_unfold. cbn [get].
    by apply saveToMosaicFile_loop_lines.
  - unfold written_lines. revert Hv. generalize (sections st) as l.
    induction l as [|r l IH]; intros Hv i; [done|].
    destruct (Hv r) as [s Hs]; [left|]. cbn [omap list_omap]. rewrite Hs.
    destruct i as [|i]; cbn; [by rewrite Hs|].
    apply IH. intros r' Hr'. apply Hv. by right.
Qed.

Lemma saveToMosaicFile_lines_witness :
  let st := three_sections flaky_renderer in
  saveToMosaicFile "" "a.msc" st
  = Done ("" ++ String.concat "" (written_lines st))%string st
  ∧ length (written_lines st) = length (sections st)
  ∧ ∀ i, written_lines st !! i
         = (r ← sections st !! i; Section.mosaic_line <$> heap st !! r).
Proof.
  intros st. apply (saveToMosaicFile_lines st "" "a.msc").
  apply three_sections_reachable.
Defined.

Lemma load_frame float data directory st b st' :
  well_formed st →
  loadFromMosaicFileData float data directory st = Done b st' →
  ∀ r, (r < length (heap st))%nat → heap st' !! r = heap st !! r.
Proof.
  intros Hwf. unfold loadFromMosaicFileData. rewrite bind_unfold.
  destruct (Py.index data 0) as [d0|]; [|done]. cbn [lift mret M_ret].
  destruct (d0 =? "section")%string; [|by intros [= _ <-]].
  rewrite bind_unfold. destruct (Py.index data 2) as [d2|]; [|done].
  cbn [lift mret M_ret]. rewrite bind_unfold. destruct (float d2) as [x|]; [|done].
  cbn [lift mret M_ret]. rewrite bind_unfold. destruct (Py.index data 3) as [d3|]; [|done].
  cbn [lift mret M_ret]. rewrite bind_unfold. destruct (float d3) as [y|]; [|done].
  cbn [lift mret M_ret]. rewrite bind_unfold. destruct (Py.index data 4) as [d4|]; [|done].
  cbn [lift mret M_ret]. rewrite bind_unfold. destruct (float d4) as [a|]; [|done].
  cbn [lift mret M_ret]. rewrite bind_unfold.
  destruct (addSection_total (coord.mkPoint x y) a st Hwf)
    as (st1 & -> & _ & _ & _ & Hframe & _).
  by intros [= _ <-].
Qed.

Lemma placements_snoc st0 st1 s1 :
  well_formed st0 →
  sections st1 = sections st0 ++ [length (heap st0)] →
  (∀ r, (r < length (heap st0))%nat → heap st1 !! r = heap st0 !! r) →
  heap st1 !! length (heap st0) = Some s1 →
  placements st1 = placements st0 ++ [Some (placement s1)].
Proof.
  intros Hwf Hsec Hframe Hs1. unfold placements, section_objects.
  rewrite Hsec, !fmap_app. f_equal; [|cbn; by rewrite Hs1].
  f_equal. apply list_fmap_ext. intros i r Hi. apply Hframe.
  by eapply numbered_lt; [apply (wf_numbered _ Hwf)|].
Qed.

Lemma load_lines_sections h directory l :
  Forall section_ok h → (∀ r, r ∈ l → is_Some (h !! r)) →
  ∀ st0, well_formed st0 →
  ∃ st', load_lines (omap (λ r, Section.mosaic_line <$> h !! r) l)
                    directory st0 = Done tt st'
    ∧ well_formed st'
    ∧ placements st'
      = placements st0
        ++ ((λ r, placement <$> h !! r) <$> l)
    ∧ length (sections st') = (length (sections st0) + length l)%nat.
Proof.
  intros Hok. induction l as [|r l IH]; intros Hv st0 Hwf.
  - exists st0. cbn. by rewrite app_nil_r, Nat.add_0_r.
  - destruct (Hv r) as [s Hs]; [left|].
    assert (Hsok : section_ok s).
    { rewrite Forall_forall in Hok. apply Hok. by eapply list_elem_of_lookup_2. }
    cbn [omap list_omap]. rewrite Hs. cbn [fmap option_fmap option_map].
    cbn [load_lines]. rewrite bind_unfold.
    destruct (load_written_line s directory st0 Hsok Hwf)
      as (st1 & s1 & E & Hsec & Hs1 & _ & Hloc & Hang).
    change (Section.saveToMosaicFile s "") with (Section.mosaic_line s) in E.
    rewrite E.
    assert (Hwf1 : well_formed st1)
      by (by eapply loadFromMosaicFileData_wf).
    destruct (IH (λ r' Hr', Hv r' (list_elem_of_further _ _ _ Hr')) st1 Hwf1)
      as (st' & E' & Hwf' & Hp & Hlen).
    exists st'. split; [exact E'|]. split; [exact Hwf'|]. split.
    + rewrite Hp, (placements_snoc st0 st1 s1 Hwf Hsec
                     (load_frame _ _ _ _ _ _ Hwf E) Hs1).
      rewrite <- app_assoc. cbn. rewrite Hs. cbn. unfold placement.
      by rewrite Hloc, Hang.
    + rewrite Hlen, Hsec, length_app. cbn. lia.
Qed.

(** X13.  A collection that is saved and read back is found again: when the
    lines that [saveToMosaicFile] writes are offered one by one, split at
    their commas, to [loadFromMosaicFileData], every line is accepted, and
    the sections loaded come after those already there, in the order of
    the file, each at the location and with the angle of the section that
    wrote its line; the sections are numbered in sequence. *)
Theorem mosaic_file_round_trip st st0 directory :
  reachable st → reachable st0 →
  ∃ st',
    load_lines (written_lines st) directory st0 = Done tt st'
    ∧ placements st' = placements st0 ++ placements st
    ∧ section_numbers st'
      = dense (length (sections st0) + length (sections st)).
Proof.
  intros Hr Hr0. pose proof (reachable_wf _ Hr) as Hwf.
  assert (Hv : ∀ r, r ∈ sections st → is_Some (heap st !! r)).
  { intros r Hin. destruct (numbered_valid _ _ _ r (wf_numbered _ Hwf) Hin).
    eauto. }
  destruct (load_lines_sections (heap st) directory (sections st)
              (reachable_heap_ok _ Hr) Hv st0 (reachable_wf _ Hr0))
    as (st' & E & Hwf' & Hp & Hlen).
  exists st'. split; [exact E|]. split.
  - rewrite Hp. f_equal. unfold placements, section_objects.
    by rewrite <- list_fmap_compose.
  - by rewrite (well_formed_numbers _ Hwf'), Hlen.
Qed.

Lemma mosaic_file_round_trip_witness :
  let st := three_sections flaky_renderer in
  let st0 := init late_renderer in
  ∃ st',
    load_lines (written_lines st) "" st0 = Done tt st'
    ∧ placements st' = placements st0 ++ placements st
    ∧ section_numbers st'
      = dense (length (sections st0) + length (sections st)).
Proof.
  intros st st0. apply (mosaic_file_round_trip st st0 "").
  - apply three_sections_reachable.
  - apply reachable_init.
Defined.

(** X14.  [loadFromMosaicFileData] adds one section or changes nothing, and
    the line decides which.  With no field at all it raises IndexError.  A
    line whose first field is not the tag is answered [False], the other
    fields not being read.  For a tagged line the fields 2, 3 and 4 are read
    in this order: the first of them that is missing raises IndexError, the
    first that is not a number raises ValueError, and then no section is
    added; when the three are numbers the section that [addSection] makes
    of them is added and the answer is [True].  No other outcome exists. *)
Theorem loadFromMosaicFileData_outcomes float data directory st :
  reachable st →
  let o := loadFromMosaicFileData float data directory st in
  (data = [] → o = Raised Py.IndexError st)
  ∧ (∀ d0, data !! 0%nat = Some d0 → d0 ≠ "section"%string →
       o = Done false st)
  ∧ (data !! 0%nat = Some "section"%string →
     ∀ i, (2 ≤ i ≤ 4)%nat →
       (∀ j, (2 ≤ j < i)%nat → is_Some (field float data j)) →
       field float data i = None →
       o = Raised (if data !! i is Some _ then Py.ValueError
                   else Py.IndexError) st)
  ∧ (data !! 0%nat = Some "section"%string →
     ∀ x y a, field float data 2 = Some x → field float data 3 = Some y →
       field float data 4 = Some a →
       ∃ st', addSection (coord.mkPoint x y) a st = Done tt st'
              ∧ o = Done true st'
              ∧ sections st' = sections st ++ [length (heap st)])
  ∧ match o with
    | Done true st' =>
        data !! 0%nat = Some "section"%string
        ∧ sections st' = sections st ++ [length (heap st)]
        ∧ is_Some (heap st' !! length (heap st))
    | Done false st' =>
        st' = st ∧ ∃ d0, data !! 0%nat = Some d0 ∧ d0 ≠ "section"%string
    | Raised e st' =>
        st' = st
        ∧ (data = [] ∧ e = Py.IndexError
           ∨ data !! 0%nat = Some "section"%string
             ∧ (e = Py.IndexError ∧ (length data < 5)%nat
                ∨ e = Py.ValueError
                  ∧ ∃ i d, (2 ≤ i ≤ 4)%nat ∧ data !! i = Some d
                           ∧ float d = None))
    end.
Proof.
  intros Hr o. pose proof (reachable_wf _ Hr) as Hwf.
  assert (Ho : o =
    match data !! 0%nat with
    | None => Raised Py.IndexError st
    | Some tag =>
        if String.eqb tag "section" then
          match data !! 2%nat with
          | None => Raised Py.IndexError st
          | Some field2 =>
              match float field2 with
              | None => Raised Py.ValueError st
              | Some x =>
                  match data !! 3%nat with
                  | None => Raised Py.IndexError st
                  | Some field3 =>
                      match float field3 with
                      | None => Raised Py.ValueError st
                      | Some y =>
                          match data !! 4%nat with
                          | None => Raised Py.IndexError st
                          | Some field4 =>
                              match float field4 with
                              | None => Raised Py.ValueError st
                              | Some a =>
                                  match addSection (coord.mkPoint x y) a st with
                                  | Done _ st' => Done true st'
                                  | Raised e st' => Raised e st'
                                  end
                              end
                          end
                      end
                  end
              end
          end
        else Done false st
    end).
  { unfold o, loadFromMosaicFileData. rewrite bind_unfold.
    change 0 with (Z.of_nat 0). rewrite index_nat.
    destruct (data !! 0%nat) as [d0|]; cbn [lift mret M_ret]; [|done].
    destruct (String.eqb d0 "section"); [|done].
    rewrite bind_unfold. change 2 with (Z.of_nat 2). rewrite index_nat.
    destruct (data !! 2%nat) as [d2|]; cbn [lift mret M_ret]; [|done].
    rewrite bind_unfold. destruct (float d2) as [x|]; cbn [lift mret M_ret]; [|done].
    rewrite bind_unfold. change 3 with (Z.of_nat 3). rewrite index_nat.
    destruct (data !! 3%nat) as [d3|]; cbn [lift mret M_ret]; [|done].
    rewrite bind_unfold. destruct (float d3) as [y|]; cbn [lift mret M_ret]; [|done].
    rewrite bind_unfold. change 4 with (Z.of_nat 4). rewrite index_nat.
    destruct (data !! 4%nat) as [d4|]; cbn [lift mret M_ret]; [|done].
    rewrite bind_unfold. destruct (float d4) as [a|]; cbn [lift mret M_ret]; [|done].
    rewrite bind_unfold. by destruct (addSection _ _ st) as [[] ?|]. }
  clearbody o. subst o. unfold field.
  split; [by intros ->|]. split.
  { intros d0 -> Hne. by destruct (String.eqb_spec d0 "section"). }
  split.
  { intros -> i Hi Hbefore Hnone. cbn [String.eqb Ascii.eqb Bool.eqb].
    change ("section" =? "section")%string with true. cbn iota.
    pose proof (Hbefore 2%nat) as H2. pose proof (Hbefore 3%nat) as H3.
    assert (Ei : i = 2%nat ∨ i = 3%nat ∨ i = 4%nat) by lia.
    destruct Ei as [-> | [-> | ->]].
    - destruct (data !! 2%nat) as [d2|]; cbn in Hnone; [|done].
      by rewrite Hnone.
    - destruct H2 as [x H2]; [lia|].
      destruct (data !! 2%nat) as [d2|]; cbn in H2; [|done]. rewrite H2.
      destruct (data !! 3%nat) as [d3|]; cbn in Hnone; [|done].
      by rewrite Hnone.
    - destruct H2 as [x H2]; [lia|]. destruct H3 as [y H3]; [lia|].
      destruct (data !! 2%nat) as [d2|]; cbn in H2; [|done]. rewrite H2.
      destruct (data !! 3%nat) as [d3|]; cbn in H3; [|done]. rewrite H3.
      destruct (data !! 4%nat) as [d4|]; cbn in Hnone; [|done].
      by rewrite Hnone. }
  split.
  { intros -> x y a H2 H3 H4.
    change ("section" =? "section")%string with true. cbn iota.
    destruct (data !! 2%nat) as [d2|]; cbn in H2; [|done]. rewrite H2.
    destruct (data !! 3%nat) as [d3|]; cbn in H3; [|done]. rewrite H3.
    destruct (data !! 4%nat) as [d4|]; cbn in H4; [|done]. rewrite H4.
    destruct (addSection_total (coord.mkPoint x y) a st Hwf)
      as (st1 & E & _ & Hsec & _).
    exists st1. by rewrite E. }
  destruct (data !! 0%nat) as [d0|] eqn:E0.
  2:{ split; [done|]. left. split; [|done]. by destruct data. }
  destruct (String.eqb_spec d0 "section") as [->|Hne].
  2:{ split; [done|]. by exists d0. }
  destruct (data !! 2%nat) as [d2|] eqn:E2.
  2:{ split; [done|]. right. split; [done|]. left. split; [done|].
      apply lookup_ge_None in E2. lia. }
  destruct (float d2) as [x|] eqn:F2.
  2:{ split; [done|]. right. split; [done|]. right. split; [done|].
      exists 2%nat, d2. split; [lia|done]. }
  destruct (data !! 3%nat) as [d3|] eqn:E3.
  2:{ split; [done|]. right. split; [done|]. left. split; [done|].
      apply lookup_ge_None in E3. lia. }
  destruct (float d3) as [y|] eqn:F3.
  2:{ split; [done|]. right. split; [done|]. right. split; [done|].
      exists 3%nat, d3. split; [lia|done]. }
  destruct (data !! 4%nat) as [d4|] eqn:E4.
  2:{ split; [done|]. right. split; [done|]. left. split; [done|].
      apply lookup_ge_None in E4. lia. }
  destruct (float d4) as [a|] eqn:F4.
  2:{ split; [done|]. right. split; [done|]. right. split; [done|].
      exists 4%nat, d4. split; [lia|done]. }
  destruct (addSection_total (coord.mkPoint x y) a st Hwf)
    as (st1 & -> & _ & Hsec & _ & _ & s & Hs & _).
  split; [done|]. split; [done|]. by exists s.
Qed.

Lemma loadFromMosaicFileData_outcomes_witness :
  loadFromMosaicFileData Py.float_of_str ["section"; "0"; "1.5"; "x"]%string
    "" (three_sections flaky_renderer)
  = Raised Py.ValueError (three_sections flaky_renderer).
Proof.
  apply (proj1 (proj2 (proj2
           (loadFromMosaicFileData_outcomes Py.float_of_str
              ["section"; "0"; "1.5"; "x"]%string ""
              (three_sections flaky_renderer)
              (three_sections_reachable flaky_renderer))))
           eq_refl 3%nat).
  - lia.
  - intros j Hj. assert (j = 2%nat) as -> by lia. vm_compute. eauto.
  - vm_compute. reflexivity.
Defined.

(** ** The renders saved for alignment *)





(** ** What a call leaves alone in the sections *)

Create HintDb seen discriminated.

Section Observation.

Context {A : Type} (obs : Section.t → A) (v : list A).
Context (R : list Sections.ref → Prop).
Context (obs_select : ∀ s, obs (Section.select s) = obs s).
Context (obs_deselect : ∀ s, obs (Section.deselect s) = obs s).
Context (obs_number : ∀ i s, obs (Section.setSectionNumber i s) = obs s).
Context (R_any : ∀ l, R l).

Let seen (st : Sections.t) : Prop :=
  R (sections st) ∧ v `prefix_of` (obs <$> heap st).

Lemma seen_modify g :
  (∀ st, heap (g st) = heap st) → (∀ st, sections (g st) = sections st) →
  preserves seen (modify g).
Proof.
  intros Hh Hs. apply preserves_modify. intros st. unfold seen.
  by rewrite Hh, Hs.
Qed.

Lemma seen_update r f :
  (∀ s, obs (f s) = obs s) → preserves seen (update r f).
Proof.
  intros Hf. apply preserves_update. intros st. unfold seen. cbn.
  rewrite (list_fmap_alter obs f id); [|by apply Forall_forall].
  by rewrite list_alter_id.
Qed.

Lemma seen_new s : preserves seen (new s).
Proof.
  intros st [HR Hp]. split; [done|]. cbn. rewrite fmap_app.
  by apply prefix_app_r.
Qed.

Lemma seen_renderSectionNumpy p a : preserves seen (renderSectionNumpy p a).
Proof. by intros st. Qed.

Lemma seen_print line : preserves seen (print line).
Proof. by apply seen_modify. Qed.

Lemma seen_setBackgroundPixmap p : preserves seen (setBackgroundPixmap p).
Proof. by apply seen_modify. Qed.

Lemma seen_setForegroundPixmap p : preserves seen (setForegroundPixmap p).
Proof. by apply seen_modify. Qed.

Lemma seen_with_active_section a :
  preserves seen (modify (with_active_section a)).
Proof. by apply seen_modify. Qed.

Lemma seen_with_numpy_files f :
  preserves seen (modify (λ st, with_numpy_files (f st) st)).
Proof. by apply seen_modify. Qed.

Lemma seen_with_sections f :
  preserves seen (modify (λ st, with_sections (f st) st)).
Proof. apply preserves_modify. intros st [_ Hp]. by split. Qed.

Lemma seen_with_sections_to l : preserves seen (modify (with_sections l)).
Proof. apply preserves_modify. intros st [_ Hp]. by split. Qed.

#[local] Hint Resolve seen_update seen_renderSectionNumpy seen_print
  seen_setBackgroundPixmap seen_setForegroundPixmap seen_with_active_section
  seen_with_numpy_files obs_select obs_deselect obs_number : seen.

Ltac seen_rules :=
  repeat first
    [ solve [auto with seen nocore]
    | match goal with
      | |- preserves _ (mret _) => apply preserves_ret
      | |- preserves _ (raise _) => apply preserves_raise
      | |- preserves _ get => apply preserves_get
      | |- preserves _ (lift _ _) => apply preserves_lift
      | |- preserves _ (deref _) => apply preserves_deref
      | |- preserves _ (mbind _ _) => apply preserves_bind; [|intros ?]
      | |- preserves _ (match ?x with _ => _ end) => destruct x
      | |- preserves _ (if ?x then _ else _) => destruct x
      | |- preserves _ (let '(_, _) := ?x in _) => destruct x
      end ].

Lemma seen_handleActiveSectionUpdate w :
  preserves seen (handleActiveSectionUpdate w).
Proof. unfold handleActiveSectionUpdate. seen_rules. Qed.
#[local] Hint Resolve seen_handleActiveSectionUpdate : seen.

Lemma seen_background_loop l : ∀ nb counts,
  preserves seen (background_loop l nb counts).
Proof.
  induction l as [|r l IH]; intros nb counts; cbn [background_loop];
    seen_rules.
Qed.
#[local] Hint Resolve seen_background_loop : seen.

Lemma seen_updateBackgroundPixmap : preserves seen updateBackgroundPixmap.
Proof. unfold updateBackgroundPixmap. seen_rules. Qed.

Lemma seen_updateForegroundPixmap : preserves seen updateForegroundPixmap.
Proof. unfold updateForegroundPixmap, renderSectionPixmap. seen_rules. Qed.
#[local] Hint Resolve seen_updateBackgroundPixmap
  seen_updateForegroundPixmap : seen.

Lemma seen_viewUpdate : preserves seen viewUpdate.
Proof. unfold viewUpdate. seen_rules. Qed.

Lemma seen_handleSectionUpdate : preserves seen handleSectionUpdate.
Proof. unfold handleSectionUpdate. seen_rules. Qed.

Lemma seen_incrementActiveSection d :
  preserves seen (incrementActiveSection d).
Proof. unfold incrementActiveSection. seen_rules. Qed.

Lemma seen_controls_sectionSelected r :
  preserves seen (controls_sectionSelected r).
Proof. unfold controls_sectionSelected. seen_rules. Qed.

Lemma seen_saveSectionsNumpy_loop l : ∀ i,
  preserves seen (saveSectionsNumpy_loop i l).
Proof.
  induction l as [|r l IH]; intros i; cbn [saveSectionsNumpy_loop];
    seen_rules.
Qed.
#[local] Hint Resolve seen_saveSectionsNumpy_loop : seen.

Lemma seen_saveSectionsNumpy : preserves seen saveSectionsNumpy.
Proof. unfold saveSectionsNumpy. seen_rules. Qed.

Lemma seen_renumber l : ∀ i, preserves seen (renumber i l).
Proof. induction l as [|r l IH]; intros i; cbn [renumber]; seen_rules. Qed.

#[local] Hint Resolve seen_renumber seen_with_sections_to seen_with_sections
  seen_new : seen.

Lemma seen_removeActiveSection : preserves seen removeActiveSection.
Proof. unfold removeActiveSection. seen_rules. Qed.

Lemma seen_addSection p a : preserves seen (addSection p a).
Proof. unfold addSection. seen_rules. Qed.

End Observation.

Lemma setting_select s : setting (Section.select s) = setting s.
Proof. done. Qed.

Lemma setting_deselect s : setting (Section.deselect s) = setting s.
Proof. done. Qed.

Lemma setting_setSectionNumber i s :
  setting (Section.setSectionNumber i s) = setting s.
Proof. done. Qed.

Lemma settings_frame st st' l :
  well_formed st → l ⊆ sections st →
  (setting <$> heap st) `prefix_of` (setting <$> heap st') →
  (λ r, setting <$> heap st' !! r) <$> l
  = (λ r, setting <$> heap st !! r) <$> l.
Proof.
  intros Hwf Hl Hp. apply list_fmap_ext. intros i r Hi.
  destruct (numbered_valid _ _ _ r (wf_numbered _ Hwf)) as [s Hs].
  { apply Hl. by eapply list_elem_of_lookup_2. }
  rewrite Hs. cbn. rewrite <- list_lookup_fmap.
  eapply prefix_lookup_Some; [|exact Hp]. by rewrite list_lookup_fmap, Hs.
Qed.

Lemma settings_unfold st :
  settings st = (λ r, setting <$> heap st !! r) <$> sections st.
Proof. unfold settings, section_objects. by rewrite <- list_fmap_compose. Qed.

Lemma navigation_keeps st (m : M unit) :
  well_formed st →
  preserves (λ st', sections st' = sections st
                    ∧ (setting <$> heap st) `prefix_of` (setting <$> heap st'))
            m →
  sections (final (m st)) = sections st
  ∧ settings (final (m st)) = settings st.
Proof.
  intros Hwf Hm. destruct (Hm st) as [Hs Hp]; [done|]. split; [done|].
  rewrite !settings_unfold, Hs. by apply settings_frame.
Qed.

(** X16.  A click on the row of a section of the collection makes that very
    section the active one; it is selected and no other section is; the
    list of sections and the location, angle and check mark of each section
    are as before. *)
Theorem click_activates st r :
  reachable st → r ∈ sections st →
  ∃ st', controls_sectionSelected r st = Done tt st'
    ∧ active_section st' = Some r
    ∧ selected_count st' = 1%nat
    ∧ selected_flags st'
      = (λ r', Some (bool_decide (r' = r))) <$> sections st
    ∧ sections st' = sections st
    ∧ settings st' = settings st.
Proof.
  intros Hr Hin. pose proof (reachable_wf _ Hr) as Hwf.
  apply list_elem_of_lookup_1 in Hin as [i Hi].
  destruct (wf_numbered _ Hwf i r Hi) as (s & Hs & Hnum & _).
  destruct (handleActiveSectionUpdate_total st i r Hwf Hi)
    as (st' & E & Hsec & Ha & _).
  assert (Hwf' : well_formed st') by (by eapply handleActiveSectionUpdate_wf).
  assert (E' : controls_sectionSelected r st = Done tt st').
  { unfold controls_sectionSelected. rewrite bind_unfold, (deref_some _ _ _ Hs).
    unfold Section.getSectionNumber. by rewrite Hnum. }
  exists st'. split; [exact E'|]. split; [exact Ha|].
  split; [|split; [|split; [exact Hsec|]]].
  - apply well_formed_selected; [done|].
    rewrite Hsec. intros El. by rewrite El in Hi.
  - rewrite <- Hsec. by apply selected_flags_active.
  - destruct (navigation_keeps st (controls_sectionSelected r) Hwf) as [_ Hset].
    + apply (seen_controls_sectionSelected setting (setting <$> heap st)
               (λ l, l = sections st) setting_select setting_deselect).
    + by rewrite E' in Hset.
Qed.

Lemma click_activates_witness :
  let st := three_sections flaky_renderer in
  ∃ st', controls_sectionSelected 2%nat st = Done tt st'
    ∧ active_section st' = Some 2%nat
    ∧ selected_count st' = 1%nat
    ∧ selected_flags st'
      = (λ r', Some (bool_decide (r' = 2%nat))) <$> sections st
    ∧ sections st' = sections st
    ∧ settings st' = settings st.
Proof.
  intros st. apply (click_activates st 2%nat).
  - apply three_sections_reachable.
  - apply list_elem_of_In. vm_compute. tauto.
Defined.

(** X17.  [removeActiveSection] takes the active section out and leaves
    the others where they are: the locations, the angles and the check
    marks of the remaining sections, in list order, are those of before
    without the one of the section removed. *)
Theorem removeActiveSection_keeps_settings st (k : nat) :
  reachable st → active_number st = Some (Z.of_nat k) →
  ∃ st', removeActiveSection st = Done tt st'
    ∧ settings st' = delete k (settings st).
Proof.
  intros Hr Hk. pose proof (reachable_wf _ Hr) as Hwf.
  destruct (active_number_some st _ Hwf Hk) as (_ & act & a & Ea & Hpos & _).
  rewrite Nat2Z.id in Hpos.
  destruct (removeActiveSection_total st act k Hwf Ea Hpos)
    as (st' & E & _ & Hsec & _).
  exists st'. split; [exact E|].
  assert (Hp : (setting <$> heap st) `prefix_of` (setting <$> heap st')).
  { pose proof (seen_removeActiveSection setting (setting <$> heap st)
                  (λ _, True) setting_select setting_deselect
                  setting_setSectionNumber (λ _, I) st) as H.
    rewrite E in H. by apply H. }
  rewrite !settings_unfold, Hsec, <- list_fmap_delete.
  apply settings_frame; [done| |done].
  intros r Hin. by eapply list_elem_of_delete_inv.
Qed.

Lemma removeActiveSection_keeps_settings_witness :
  let st := three_sections flaky_renderer in
  ∃ st', removeActiveSection st = Done tt st'
    ∧ settings st' = delete 1%nat (settings st).
Proof.
  intros st. apply (removeActiveSection_keeps_settings st 1%nat).
  - apply three_sections_reachable.
  - vm_compute. reflexivity.
Defined.

(** X18.  Selecting, refreshing and saving move nothing: after a change of
    the active section by index, by step or by click, after a refresh of
    the pixmaps, after the saving of the renders, and after any key other
    than W, S, A, D, Q, E and Delete, the list of sections and the location,
    angle and check mark of each section are as before, whether the call
    returned or raised. *)
Theorem selection_keeps_settings st which diff r k :
  reachable st → k ∉ nudge_keys → k ≠ Qt.Key_Delete →
  Forall (λ m : M unit,
            sections (final (m st)) = sections st
            ∧ settings (final (m st)) = settings st)
    [handleActiveSectionUpdate which; incrementActiveSection diff;
     controls_sectionSelected r; handleKeyEvent k; viewUpdate;
     updateBackgroundPixmap; updateForegroundPixmap; handleSectionUpdate;
     saveSectionsNumpy].
Proof.
  intros Hr Hk Hdel. pose proof (reachable_wf _ Hr) as Hwf.
  pose (v := setting <$> heap st). pose (R := λ l, l = sections st).
  pose proof (seen_incrementActiveSection setting v R setting_select
                setting_deselect) as Hinc.
  pose proof (seen_saveSectionsNumpy setting v R) as Hsave.
  pose proof (seen_viewUpdate setting v R) as Hview.
  repeat apply Forall_cons_2; try apply Forall_nil_2;
    apply (navigation_keeps st _ Hwf).
  - apply (seen_handleActiveSectionUpdate setting v R setting_select
             setting_deselect).
  - apply Hinc.
  - apply (seen_controls_sectionSelected setting v R setting_select
             setting_deselect).
  - unfold handleKeyEvent.
    destruct (Z.eqb_spec k Qt.Key_Up); [apply Hinc|].
    destruct (Z.eqb_spec k Qt.Key_Down); [apply Hinc|].
    destruct (Z.eqb_spec k Qt.Key_W) as [->|_]; [destruct Hk; apply list_elem_of_In; cbn; tauto|].
    destruct (Z.eqb_spec k Qt.Key_S) as [->|_]; [destruct Hk; apply list_elem_of_In; cbn; tauto|].
    destruct (Z.eqb_spec k Qt.Key_A) as [->|_]; [destruct Hk; apply list_elem_of_In; cbn; tauto|].
    destruct (Z.eqb_spec k Qt.Key_D) as [->|_]; [destruct Hk; apply list_elem_of_In; cbn; tauto|].
    destruct (Z.eqb_spec k Qt.Key_Q) as [->|_]; [destruct Hk; apply list_elem_of_In; cbn; tauto|].
    destruct (Z.eqb_spec k Qt.Key_E) as [->|_]; [destruct Hk; apply list_elem_of_In; cbn; tauto|].
    destruct (Z.eqb_spec k Qt.Key_P); [apply Hsave|].
    destruct (Z.eqb_spec k Qt.Key_Delete); [done|].
    destruct (Z.eqb_spec k Qt.Key_U); [apply Hview|].
    apply preserves_ret.
  - apply Hview.
  - apply (seen_updateBackgroundPixmap setting v R).
  - apply (seen_updateForegroundPixmap setting v R).
  - apply (seen_handleSectionUpdate setting v R).
  - apply Hsave.
Qed.

Lemma selection_keeps_settings_witness :
  let st := three_checked_with late_renderer in
  Forall (λ m : M unit,
            sections (final (m st)) = sections st
            ∧ settings (final (m st)) = settings st)
    [handleActiveSectionUpdate 7; incrementActiveSection (-1);
     controls_sectionSelected 2%nat; handleKeyEvent Qt.Key_U; viewUpdate;
     updateBackgroundPixmap; updateForegroundPixmap; handleSectionUpdate;
     saveSectionsNumpy].
Proof.
  intros st. apply (selection_keeps_settings st 7 (-1) 2%nat Qt.Key_U).
  - apply three_checked_late_reachable.
  - intros Hin. apply list_elem_of_In in Hin. vm_compute in Hin.
    repeat destruct Hin as [Hin|Hin]; try discriminate Hin. exact Hin.
  - intros E. vm_compute in E. discriminate E.
Defined.

(** ** The targets of pictures and positions *)

Lemma handlePositions_loop_locations h l : ∀ acc st,
  heap st = h → (∀ r, r ∈ l → is_Some (h !! r)) →
  handlePositions_loop l acc st
  = Done (acc ++ omap (λ r, Section.getLocation <$> h !! r) l) st.
Proof.
  induction l as [|r l IH]; intros acc st Hh Hv.
  - cbn. by rewrite app_nil_r.
  - destruct (Hv r) as [s Hs]; [left|]. cbn [handlePositions_loop].
    rewrite bind_unfold, (deref_some r s) by congruence.
    rewrite IH; [|done|intros r' Hr'; apply Hv; by right].
    cbn [omap list_omap]. rewrite Hs. cbn. by rewrite <- app_assoc.
Qed.

Lemma length_locations st :
  well_formed st → length (locations st) = length (sections st).
Proof.
  intros Hwf. unfold locations.
  assert (Hv : ∀ r, r ∈ sections st → is_Some (heap st !! r)).
  { intros r Hin. destruct (numbered_valid _ _ _ r (wf_numbered _ Hwf) Hin).
    eauto. }
  induction (sections st) as [|r l IH]; [done|].
  destruct (Hv r) as [s Hs]; [left|]. cbn [omap list_omap]. rewrite Hs. cbn.
  f_equal. apply IH. intros r' Hr'. apply Hv. by right.
Qed.

Section TargetsFacts.

Context {T : Type}.
Context (createSpiral : Z → list T) (createGrid : Z → Z → list T).

Lemma handlePictures_loop_targets number_pictures g h l : ∀ acc st,
  heap st = h → (∀ r, r ∈ l → is_Some (h !! r)) →
  handlePictures_loop createSpiral createGrid number_pictures g l acc st
  = Done (acc
          ++ (omap (λ r, Section.getLocation <$> h !! r) l
              ≫= λ p, inl p
                       :: (inr <$> around createSpiral createGrid
                                     number_pictures g)))
         st.
Proof.
  induction l as [|r l IH]; intros acc st Hh Hv.
  - cbn. by rewrite app_nil_r.
  - destruct (Hv r) as [s Hs]; [left|]. cbn [handlePictures_loop].
    rewrite bind_unfold, (deref_some r s) by congruence.
    rewrite IH; [|done|intros r' Hr'; apply Hv; by right].
    cbn [omap list_omap]. rewrite Hs. cbn. f_equal. unfold around.
    destruct (1 <? number_pictures); [by rewrite <- !app_assoc|].
    destruct (number_pictures =? -1); [by rewrite <- !app_assoc|].
    by rewrite <- !app_assoc.
Qed.

(** X19.  [handlePictures] emits, for each section in list order, the
    location of the section followed by the spiral for a count above one,
    by the grid of the current sides for the count -1, and by nothing for
    any other count; so for a collection of [n] sections it emits
    [n * (1 + m)] targets, [m] being the size of the spiral or the grid.  It
    emits nothing for an empty collection, and changes nothing. *)
Theorem handlePictures_targets st number_pictures g :
  reachable st →
  let extra := around createSpiral createGrid number_pictures g in
  let targets := locations st ≫= λ p, inl p :: (inr <$> extra) in
  handlePictures createSpiral createGrid number_pictures g st
  = Done (if decide (sections st = []) then None else Some targets) st
  ∧ length targets = (length (sections st) * (1 + length extra))%nat.
Proof.
  intros Hr extra targets. pose proof (reachable_wf _ Hr) as Hwf.
  assert (Hv : ∀ r, r ∈ sections st → is_Some (heap st !! r)).
  { intros r Hin. destruct (numbered_valid _ _ _ r (wf_numbered _ Hwf) Hin).
    eauto. }
  assert (Hlen : length targets
                 = (length (sections st) * (1 + length extra))%nat).
  { unfold targets. rewrite <- (length_locations st Hwf).
    induction (locations st) as [|p ps IH]; [done|].
    cbn. rewrite length_app, length_fmap. cbn in IH. rewrite IH. lia. }
  split; [|exact Hlen].
  unfold handlePictures. rewrite bind_unfold. cbn [get]. rewrite bind_unfold.
  rewrite (handlePictures_loop_targets _ _ (heap st)) by done.
  cbn [app]. fold (locations st). fold extra. fold targets.
  destruct (decide (sections st = [])) as [E|Hne].
  - rewrite E in Hlen. cbn in Hlen. by rewrite Hlen.
  - assert (0 < length targets)%nat as Hpos.
    { rewrite Hlen. destruct (sections st); [done|]. cbn. lia. }
    apply Nat.ltb_lt in Hpos. by rewrite Hpos.
Qed.

End TargetsFacts.

Lemma handlePictures_targets_witness :
  let st := three_sections flaky_renderer in
  let createSpiral n := seq 0 (Z.to_nat n) in
  let createGrid x y := seq 0 (Z.to_nat (x * y)) in
  let extra := around createSpiral createGrid (-1) grid_init in
  let targets := locations st ≫= λ p, inl p :: (inr <$> extra) in
  handlePictures createSpiral createGrid (-1) grid_init st
  = Done (if decide (sections st = []) then None else Some targets) st
  ∧ length targets = (length (sections st) * (1 + length extra))%nat.
Proof.
  intros st createSpiral createGrid.
  apply (handlePictures_targets createSpiral createGrid st (-1) grid_init).
  apply three_sections_reachable.
Defined.

(** X20.  [handlePositions] emits the locations of the sections in list
    order, one for each section, and nothing for an empty collection;
    [handlePictures] with a count of at most one other than -1, as the
    count 1 of the space key and of the menu, emits the same list. *)
Theorem handlePositions_locations st :
  reachable st →
  handlePositions st
  = Done (if decide (sections st = []) then None else Some (locations st)) st
  ∧ length (locations st) = length (sections st)
  ∧ ∀ (T : Type) (createSpiral : Z → list T) createGrid number_pictures g,
      number_pictures ≤ 1 → number_pictures ≠ -1 →
      handlePictures createSpiral createGrid number_pictures g st
      = Done (if decide (sections st = []) then None
              else Some (inl <$> locations st)) st.
Proof.
  intros Hr. pose proof (reachable_wf _ Hr) as Hwf.
  assert (Hv : ∀ r, r ∈ sections st → is_Some (heap st !! r)).
  { intros r Hin. destruct (numbered_valid _ _ _ r (wf_numbered _ Hwf) Hin).
    eauto. }
  pose proof (length_locations st Hwf) as Hlen.
  split; [|split; [exact Hlen|]].
  - unfold handlePositions. rewrite bind_unfold. cbn [get]. rewrite bind_unfold.
    rewrite (handlePositions_loop_locations (heap st)) by done.
    cbn [app]. fold (locations st). rewrite Hlen.
    destruct (decide (sections st = [])) as [E|Hne]; [by rewrite E|].
    by destruct (sections st).
  - intros T createSpiral createGrid n g Hn Hg.
    destruct (handlePictures_targets createSpiral createGrid st n g Hr)
      as [E _].
    rewrite E. unfold around.
    replace (1 <? n) with false by (symmetry; apply Z.ltb_ge; lia).
    replace (n =? -1) with false by (symmetry; apply Z.eqb_neq; lia).
    destruct (decide (sections st = [])); [done|]. cbn. by do 2 f_equal.
Qed.

Lemma handlePositions_locations_witness :
  let st := three_sections flaky_renderer in
  handlePositions st
  = Done (if decide (sections st = []) then None else Some (locations st)) st
  ∧ length (locations st) = length (sections st)
  ∧ ∀ (T : Type) (createSpiral : Z → list T) createGrid number_pictures g,
      number_pictures ≤ 1 → number_pictures ≠ -1 →
      handlePictures createSpiral createGrid number_pictures g st
      = Done (if decide (sections st = []) then None
              else Some (inl <$> locations st)) st.
Proof.
  intros st. apply (handlePositions_locations st).
  apply three_sections_reachable.
Defined.

(** ** The check boxes *)

Lemma check_box_settings st r k :
  well_formed st → sections st !! k = Some r →
  let st' := final (check_box_stateChanged r st) in
  well_formed st'
  ∧ sections st' = sections st
  ∧ settings st' = alter (fmap toggled) k (settings st).
Proof.
  intros Hwf Hk st'.
  destruct (wf_numbered _ Hwf k r Hk) as (s & Hs & _).
  set (toggle := λ s : Section.t,
         Section.with_controls
           (SectionControls.with_check_box
              (negb (SectionControls.check_box (Section.controls s)))
              (Section.controls s)) s).
  set (st1 := with_heap (alter toggle r (heap st)) st).
  assert (E : st' = final (updateBackgroundPixmap st1)).
  { unfold st', check_box_stateChanged. fold toggle.
    by rewrite bind_unfold, (update_some _ _ _ _ Hs). }
  assert (Hwf1 : well_formed st1).
  { pose proof (wf_update r toggle) as H. specialize (H (λ s, conj eq_refl eq_refl) st Hwf).
    by rewrite (update_some _ _ _ _ Hs) in H. }
  destruct (navigation_keeps st1 updateBackgroundPixmap Hwf1) as [Hsec Hset].
  { apply (seen_updateBackgroundPixmap setting (setting <$> heap st1)
             (λ l, l = sections st1)). }
  rewrite E. split; [by apply wf_updateBackgroundPixmap|]. split; [done|].
  rewrite Hset, !settings_unfold. apply list_eq. intros i.
  change (sections st1) with (sections st).
  destruct (decide (i = k)) as [->|Hne].
  - rewrite list_lookup_alter_eq, !list_lookup_fmap, Hk. cbn.
    rewrite list_lookup_alter_eq, Hs. cbn. f_equal.
    unfold setting, toggled, toggle, Section.isChecked, SectionControls.isChecked.
    cbn. by destruct (SectionControls.check_box (Section.controls s)).
  - rewrite list_lookup_alter_ne by done. rewrite !list_lookup_fmap.
    destruct (sections st !! i) as [r'|] eqn:Hi; [|done]. cbn.
    rewrite list_lookup_alter_ne; [done|]. intros ->.
    apply Hne. symmetry. by eapply NoDup_lookup; [apply (wf_distinct _ Hwf)| |].
Qed.

(** X21.  A change of the check box of a section, whether the refresh of
    the background that follows returns or raises, turns over the check
    mark of that section and leaves the list of sections, the other check
    marks and every location and angle as they are; a second change puts
    the settings back. *)
Theorem check_box_toggles st r k :
  reachable st → sections st !! k = Some r →
  let st' := final (check_box_stateChanged r st) in
  sections st' = sections st
  ∧ settings st' = alter (fmap toggled) k (settings st)
  ∧ settings (final (check_box_stateChanged r st')) = settings st.
Proof.
  intros Hr Hk st'. pose proof (reachable_wf _ Hr) as Hwf.
  destruct (check_box_settings st r k Hwf Hk) as (Hwf' & Hsec & Hset).
  fold st' in Hwf', Hsec, Hset. split; [done|]. split; [done|].
  destruct (check_box_settings st' r k Hwf') as (_ & _ & Hset');
    [by rewrite Hsec|].
  rewrite Hset', Hset, list_alter_alter_eq. apply list_alter_id.
  intros [[[p a] c]|]; [|done]. cbn. by rewrite negb_involutive.
Qed.

Lemma check_box_toggles_witness :
  let st := three_checked_with late_renderer in
  let st' := final (check_box_stateChanged 1%nat st) in
  sections st' = sections st
  ∧ settings st' = alter (fmap toggled) 1%nat (settings st)
  ∧ settings (final (check_box_stateChanged 1%nat st')) = settings st.
Proof.
  intros st. apply (check_box_toggles st 1%nat 1%nat).
  - apply three_checked_late_reachable.
  - vm_compute. reflexivity.
Defined.

(** ** What the refresh can raise *)







(** ** The refresh of both pixmaps *)



